(** * Example-Mining-Website: the static asset server and the load-in overlay

    A shallow embedding of
    - the development static server (the [createServer] request handler), and
    - [src/components/LoadInOverlay.tsx] with [src/hooks/useSessionOnce.ts],
    followed by the properties of the design document that are settled on it.

    Conventions.
    - A JavaScript string is the list of its UTF-16 code units ([list N]).
    - A JavaScript number is modelled by [number]: an integer, [NaN] or a
      signed infinity.  Every number the code computes from its inputs is
      integer valued.  [parseInt] rounds to the nearest double; sums and
      differences are exact, as they are on doubles while the magnitudes
      stay within 2^53, and the statements that add or print numbers keep
      them in that range.
    - Library functions of the platform ([decodeURIComponent], [parseInt],
      [path.join], [path.extname], [String.prototype.split] ...) are modelled
      after their ECMAScript / Node.js (POSIX) definitions.
    - The overlay is a transition system over the state of one component
      instance: the effects of the first commit, a pending timeout firing,
      the completion callback of the odometer, the unmount, and (module
      [Live]) a render with another price.  Time is not modelled: any
      pending timeout may fire next, which covers every order the event
      loop can produce. *)

From Stdlib Require Import ZArith NArith List Bool Lia String Ascii.
From stdpp Require Import base option list gmap strings.

Local Open Scope Z_scope.

(* ===================================================================== *)
(** * The JavaScript layer                                                *)
(* ===================================================================== *)

Module JS.

(** ** Strings *)

Abbreviation jsstring := (list N).

(** The code units of an ASCII literal. *)
Definition js (s : string) : jsstring :=
  (fun a => N_of_ascii a) <$> list_ascii_of_string s.

Definition CHAR_TAB : N := 9.
Definition CHAR_SPACE : N := 32.
Definition CHAR_DQUOTE : N := 34.
Definition CHAR_PERCENT : N := 37.
Definition CHAR_PLUS : N := 43.
Definition CHAR_MINUS : N := 45.
Definition CHAR_DOT : N := 46.
Definition CHAR_FORWARD_SLASH : N := 47.
Definition CHAR_0 : N := 48.
Definition CHAR_9 : N := 57.
Definition CHAR_QUESTION : N := 63.

(** [s.startsWith(p)] *)
Fixpoint startsWith (p s : jsstring) : bool :=
  match p, s with
  | [], _ => true
  | _ :: _, [] => false
  | a :: p', b :: s' => if N.eqb a b then startsWith p' s' else false
  end.

(** [s.includes(p)] *)
Fixpoint includes (p s : jsstring) : bool :=
  startsWith p s ||
  match s with
  | [] => false
  | _ :: s' => includes p s'
  end.

(** [s.replace(/p/, r)] for a pattern [p] made of literal characters: only
    the first (leftmost) occurrence is replaced. *)
Fixpoint replace_first (p r s : jsstring) : jsstring :=
  if startsWith p s then r ++ drop (length p) s
  else match s with
       | [] => []
       | c :: s' => c :: replace_first p r s'
       end.

(** [s.split(sep)] for a one-character separator: never an empty array. *)
Fixpoint split (sep : N) (s : jsstring) : list jsstring :=
  match s with
  | [] => [[]]
  | c :: s' =>
      if N.eqb c sep then [] :: split sep s'
      else match split sep s' with
           | [] => [[c]]
           | w :: ws => (c :: w) :: ws
           end
  end.

(** [parts.join(sep)] *)
Fixpoint join_with (sep : jsstring) (parts : list jsstring) : jsstring :=
  match parts with
  | [] => []
  | [w] => w
  | w :: ws => w ++ sep ++ join_with sep ws
  end.

(** Truthiness of a value that is a string or [undefined]. *)
Definition truthy (v : option jsstring) : bool :=
  match v with
  | Some (_ :: _) => true
  | _ => false
  end.

(** [/[0-9]/.test(char)] on a one-character string. *)
Definition isDecimalDigit (c : N) : bool := (N.leb CHAR_0 c && N.leb c CHAR_9)%bool.

(** ** Numbers *)

Inductive number : Type :=
| NaN
| Inf (negative : bool)
| Num (z : Z).

#[global] Instance number_eq_dec : EqDecision number.
Proof. solve_decision. Defined.

Definition Infinity : number := Inf false.

Definition neg (a : number) : number :=
  match a with
  | NaN => NaN
  | Inf s => Inf (negb s)
  | Num z => Num (- z)
  end.

Definition add (a b : number) : number :=
  match a, b with
  | NaN, _ | _, NaN => NaN
  | Inf s, Inf t => if Bool.eqb s t then Inf s else NaN
  | Inf s, Num _ | Num _, Inf s => Inf s
  | Num x, Num y => Num (x + y)
  end.

Definition sub (a b : number) : number := add a (neg b).

Definition mul (a b : number) : number :=
  match a, b with
  | NaN, _ | _, NaN => NaN
  | Inf s, Inf t => Inf (xorb s t)
  | Inf s, Num z | Num z, Inf s =>
      if z =? 0 then NaN else Inf (xorb s (z <? 0))
  | Num x, Num y => Num (x * y)
  end.

(** [a < b]: false as soon as one side is [NaN]. *)
Definition lt (a b : number) : bool :=
  match a, b with
  | NaN, _ | _, NaN => false
  | Inf s, Inf t => (s && negb t)%bool
  | Inf s, Num _ => s
  | Num _, Inf t => negb t
  | Num x, Num y => x <? y
  end.

(** [a >= b] *)
Definition ge (a b : number) : bool :=
  match a, b with
  | NaN, _ | _, NaN => false
  | _, _ => negb (lt a b)
  end.

(** [a > b] *)
Definition gt (a b : number) : bool := lt b a.

(** [Math.min(a, b)] *)
Definition Math_min (a b : number) : number :=
  match a, b with
  | NaN, _ | _, NaN => NaN
  | _, _ => if lt b a then b else a
  end.

(** [Math.ceil(a / b)].  The quotient of two integers is not an integer, so
    division and rounding are modelled together; a zero divisor is [+0]. *)
Definition Math_ceil_div (a b : number) : number :=
  match a, b with
  | NaN, _ | _, NaN => NaN
  | Inf _, Inf _ => NaN
  | Inf s, Num y => Inf (xorb s (y <? 0))
  | Num _, Inf _ => Num 0
  | Num x, Num y =>
      if y =? 0 then
        (if x =? 0 then NaN else Inf (x <? 0))
      else Num (- ((- x) / y))
  end.

(** Digits of a non-negative integer in a radix up to 16, most significant
    first.  [fuel] bounds the number of digits. *)
Definition digitChar (d : Z) : N :=
  if d <? 10 then Z.to_N (48 + d) else Z.to_N (87 + d).

Fixpoint digits_aux (fuel : nat) (radix z : Z) (acc : jsstring) : jsstring :=
  match fuel with
  | O => acc
  | S fuel' =>
      let acc' := digitChar (z mod radix) :: acc in
      if z / radix =? 0 then acc' else digits_aux fuel' radix (z / radix) acc'
  end.

Definition digits (radix z : Z) : jsstring :=
  digits_aux (S (Z.to_nat (Z.log2 z))) radix z [].

(** [n.toString(radix)] for the values of [number]. *)
Definition toStringRadix (radix : Z) (a : number) : jsstring :=
  match a with
  | NaN => js "NaN"
  | Inf false => js "Infinity"
  | Inf true => js "-Infinity"
  | Num z => if z <? 0 then CHAR_MINUS :: digits radix (- z) else digits radix z
  end.

(** String conversion, as in a template literal or a concatenation, for
    the integers below [2^53] in absolute value, which print with all
    their digits.  (Beyond, the engine prints the shortest digits that
    read back as the same double, and an exponent from [1e21] on; the
    statements that print a number keep it below [2^53].) *)
Definition toString (a : number) : jsstring := toStringRadix 10 a.

(** White space skipped by [parseInt] (WhiteSpace and LineTerminator). *)
Definition isStrWhiteSpaceChar (c : N) : bool :=
  bool_decide (c ∈ [9; 10; 11; 12; 13; 32; 160; 5760; 8232; 8233; 8239;
                    8287; 12288; 65279]%N)
  || (N.leb 8192 c && N.leb c 8202).

Fixpoint trimStart (s : jsstring) : jsstring :=
  match s with
  | c :: s' => if isStrWhiteSpaceChar c then trimStart s' else s
  | [] => []
  end.

(** The value of the longest prefix of decimal digits; [None] if it is
    empty. *)
Fixpoint digitPrefix (acc : option Z) (s : jsstring) : option Z :=
  match s with
  | c :: s' =>
      if isDecimalDigit c
      then digitPrefix (Some (10 * default 0 acc + (Z.of_N c - 48))) s'
      else acc
  | [] => acc
  end.

(** The Number value for an integer: the nearest double, a tie going to
    the even significand, and an infinity from [2^1024 - 2^970] on.  Up to
    [2^53] in absolute value every integer is a double. *)
Definition toDouble (z : Z) : number :=
  let a := Z.abs z in
  if a <=? 2 ^ 53 then Num z
  else
    let e := Z.log2 a - 52 in
    let m := Z.shiftr a e in
    let r := a - Z.shiftl m e in
    let half := Z.shiftl 1 (e - 1) in
    let m' := if r <? half then m
              else if half <? r then m + 1
              else if Z.even m then m else m + 1 in
    let v := Z.shiftl m' e in
    if 2 ^ 1024 <=? v then Inf (z <? 0) else Num (Z.sgn z * v).

(** [parseInt(s, 10)]: the Number value for the integer the digits
    denote. *)
Definition parseInt (s : jsstring) : number :=
  let t := trimStart s in
  let '(sign, body) :=
    match t with
    | c :: t' =>
        if N.eqb c CHAR_MINUS then (-1, t')
        else if N.eqb c CHAR_PLUS then (1, t')
        else (1, t)
    | [] => (1, t)
    end in
  match digitPrefix None body with
  | None => NaN
  | Some v => toDouble (sign * v)
  end.

(** The value of a string of decimal digits. *)
Definition decimalValue (ds : jsstring) : Z :=
  foldl (fun acc c => 10 * acc + (Z.of_N c - 48)) 0 ds.

(** ** URI decoding *)

Definition hexValue (c : N) : option N :=
  if (N.leb 48 c && N.leb c 57)%bool then Some (c - 48)%N
  else if (N.leb 65 c && N.leb c 70)%bool then Some (c - 55)%N
  else if (N.leb 97 c && N.leb c 102)%bool then Some (c - 87)%N
  else None.

(** A code unit of the input, or the octet of a [%XX] escape. *)
Inductive uritoken : Type :=
| Lit (c : N)
| Esc (b : N).

(** Every [%] must be followed by two hexadecimal digits. *)
Fixpoint uriTokens (s : jsstring) : option (list uritoken) :=
  match s with
  | [] => Some []
  | c :: rest =>
      if N.eqb c CHAR_PERCENT then
        match rest with
        | h1 :: h2 :: rest' =>
            match hexValue h1, hexValue h2 with
            | Some a, Some b => cons (Esc (16 * a + b)%N) <$> uriTokens rest'
            | _, _ => None
            end
        | _ => None
        end
      else cons (Lit c) <$> uriTokens rest
  end.

Definition isContinuation (b : N) : bool := (N.leb 128 b && N.leb b 191)%bool.

(** The UTF-16 code units of a code point. *)
Definition utf16 (cp : N) : jsstring :=
  if (cp <? 65536)%N then [cp]
  else [(55296 + (cp - 65536) / 1024)%N; (56320 + (cp - 65536) mod 1024)%N].

(** Escaped octets must form valid UTF-8: no stray continuation octet, no
    overlong form, no surrogate, nothing above U+10FFFF. *)
Fixpoint utf8Decode (ts : list uritoken) : option jsstring :=
  match ts with
  | [] => Some []
  | Lit c :: rest => cons c <$> utf8Decode rest
  | Esc b :: rest =>
      if (b <? 128)%N then cons b <$> utf8Decode rest
      else if (b <? 192)%N then None
      else if (b <? 224)%N then
        match rest with
        | Esc b1 :: rest' =>
            let cp := ((b - 192) * 64 + (b1 - 128))%N in
            if (isContinuation b1 && N.leb 128 cp)%bool
            then app (utf16 cp) <$> utf8Decode rest' else None
        | _ => None
        end
      else if (b <? 240)%N then
        match rest with
        | Esc b1 :: Esc b2 :: rest' =>
            let cp := ((b - 224) * 4096 + (b1 - 128) * 64 + (b2 - 128))%N in
            if (isContinuation b1 && isContinuation b2 && N.leb 2048 cp
                && negb (N.leb 55296 cp && N.leb cp 57343))%bool
            then app (utf16 cp) <$> utf8Decode rest' else None
        | _ => None
        end
      else if (b <? 248)%N then
        match rest with
        | Esc b1 :: Esc b2 :: Esc b3 :: rest' =>
            let cp := ((b - 240) * 262144 + (b1 - 128) * 4096
                       + (b2 - 128) * 64 + (b3 - 128))%N in
            if (isContinuation b1 && isContinuation b2 && isContinuation b3
                && N.leb 65536 cp && N.leb cp 1114111)%bool
            then app (utf16 cp) <$> utf8Decode rest' else None
        | _ => None
        end
      else None
  end.

(** [decodeURIComponent(s)]; [None] stands for the thrown [URIError]. *)
Definition decodeURIComponent (s : jsstring) : option jsstring :=
  uriTokens s ≫= utf8Decode.

End JS.


(* ===================================================================== *)
(** * Node's [path] module (POSIX)                                        *)
(* ===================================================================== *)

Module Path.
Import JS.

Definition isPathSeparator (c : N) : bool := N.eqb c CHAR_FORWARD_SLASH.

Definition isAbsolute (p : jsstring) : bool :=
  match p with
  | c :: _ => isPathSeparator c
  | [] => false
  end.

Definition endsWithSeparator (p : jsstring) : bool :=
  match last p with
  | Some c => isPathSeparator c
  | None => false
  end.

(** [normalizeString]: the segments of the path are scanned left to right;
    empty segments and [.] are dropped, [..] removes the segment before it
    (or is kept when nothing is left to remove and the path is relative).
    [res] is the list of the segments kept so far, last one first. *)
Fixpoint normalizeSegments (allowAboveRoot : bool) (res segs : list jsstring)
  : list jsstring :=
  match segs with
  | [] => reverse res
  | seg :: segs' =>
      if bool_decide (seg = [] ∨ seg = js ".") then
        normalizeSegments allowAboveRoot res segs'
      else if bool_decide (seg = js "..") then
        match res with
        | top :: res' =>
            if bool_decide (top = js "..")
            then normalizeSegments allowAboveRoot
                   (if allowAboveRoot then seg :: res else res) segs'
            else normalizeSegments allowAboveRoot res' segs'
        | [] =>
            normalizeSegments allowAboveRoot
              (if allowAboveRoot then [seg] else []) segs'
        end
      else normalizeSegments allowAboveRoot (seg :: res) segs'
  end.

Definition normalizeString (p : jsstring) (allowAboveRoot : bool) : jsstring :=
  join_with (js "/")
    (normalizeSegments allowAboveRoot [] (split CHAR_FORWARD_SLASH p)).

(** [path.normalize(p)] *)
Definition normalize (p : jsstring) : jsstring :=
  match p with
  | [] => js "."
  | _ =>
      let absolute := isAbsolute p in
      let trailingSeparator := endsWithSeparator p in
      let q := normalizeString p (negb absolute) in
      match q with
      | [] =>
          if absolute then js "/"
          else if trailingSeparator then js "./" else js "."
      | _ =>
          let q' := if trailingSeparator then q ++ js "/" else q in
          if absolute then js "/" ++ q' else q'
      end
  end.

(** [path.join(a, b)]: the non-empty arguments are joined with [/] and the
    result is normalized. *)
Definition join (a b : jsstring) : jsstring :=
  match a, b with
  | [], [] => js "."
  | [], _ => normalize b
  | _, [] => normalize a
  | _, _ => normalize (a ++ js "/" ++ b)
  end.

(** The characters of [r] up to the first [c], and what follows that [c];
    [None] when [c] does not occur. *)
Fixpoint breakAt (c : N) (r : jsstring) : option (jsstring * jsstring) :=
  match r with
  | [] => None
  | x :: r' =>
      if N.eqb x c then Some ([], r')
      else prod_map (cons x) id <$> breakAt c r'
  end.

Fixpoint dropSeparators (r : jsstring) : jsstring :=
  match r with
  | c :: r' => if isPathSeparator c then dropSeparators r' else r
  | [] => []
  end.

(** The last path segment, trailing separators ignored, written backwards. *)
Definition basenameReversed (p : jsstring) : jsstring :=
  let r := dropSeparators (reverse p) in
  match breakAt CHAR_FORWARD_SLASH r with
  | Some (b, _) => b
  | None => r
  end.

(** [path.extname(p)]: from the last [.] of the last segment to its end;
    empty when there is no [.], when the only [.] starts the segment, and
    for the segment [..]. *)
Definition extname (p : jsstring) : jsstring :=
  match breakAt CHAR_DOT (basenameReversed p) with
  | None => []
  | Some (afterDot, beforeDot) =>
      match beforeDot, afterDot with
      | [], _ => []
      | [c], [] => if N.eqb c CHAR_DOT then [] else [CHAR_DOT]
      | _, _ => CHAR_DOT :: reverse afterDot
      end
  end.

End Path.

(* ===================================================================== *)
(** * The static asset server                                             *)
(* ===================================================================== *)

Module Server.
Import JS.

Definition PORT : Z := 8091.

Definition MIME : gmap jsstring jsstring :=
  list_to_map
    [ (js ".html", js "text/html; charset=utf-8");
      (js ".css", js "text/css");
      (js ".js", js "application/javascript");
      (js ".mjs", js "application/javascript");
      (js ".json", js "application/json");
      (js ".png", js "image/png");
      (js ".jpg", js "image/jpeg");
      (js ".jpeg", js "image/jpeg");
      (js ".svg", js "image/svg+xml");
      (js ".ico", js "image/x-icon");
      (js ".webp", js "image/webp");
      (js ".woff2", js "font/woff2");
      (js ".woff", js "font/woff");
      (js ".mp4", js "video/mp4");
      (js ".webm", js "video/webm") ].

Definition STREAMABLE : gset jsstring :=
  list_to_set [js ".mp4"; js ".webm"].

Definition COMPRESSIBLE : gset jsstring :=
  list_to_set [js ".html"; js ".css"; js ".js"; js ".mjs"; js ".json"; js ".svg"].

(** The extensions cached for a year ([Cache-Control: immutable]). *)
Definition IMMUTABLE : list jsstring :=
  [js ".jpg"; js ".jpeg"; js ".png"; js ".webp"; js ".svg"; js ".woff2"; js ".woff"].

(** The request as the handler reads it: [req.url] and three headers. *)
Record Request : Type := {
  url : jsstring;
  range : option jsstring;
  if_none_match : option jsstring;
  accept_encoding : option jsstring;
}.

(** [req.url === '/' ? '/index.html' : req.url], then [.split('?')[0]]. *)
Definition queryStripped (req : Request) : jsstring :=
  let url0 := if bool_decide (url req = js "/") then js "/index.html" else url req in
  default [] (split CHAR_QUESTION url0 !! 0%nat).

Inductive HeaderValue : Type :=
| HStr (s : jsstring)
| HNum (n : number).

(** What the handler hands to [res]: the body given to [res.end], or the
    file stream piped into [res].  The stream opens its file after the
    handler has returned; whether that succeeds is not part of this
    model. *)
Inductive Body : Type :=
| EndEmpty
| EndText (s : jsstring)
| EndData (d : list Byte.byte)
| Pipe (path : jsstring) (interval : option (number * number)).

(** The arguments of [res.writeHead], headers in insertion order, and the
    body. *)
Record Response : Type := {
  status : Z;
  headers : list (string * HeaderValue);
  body : Body;
}.

Inductive FsOp : Type :=
| OpStat (path : jsstring)
| OpReadFile (path : jsstring)
| OpCreateReadStream (path : jsstring).

Section Handler.

(** [__dirname], the directory the server script lives in. *)
Variable dirname : jsstring.

(** [fileStat.mtimeMs] is a double with a sub-millisecond fraction; the
    handler only renders it, in radix 16 for the ETag and in radix 10 for
    the cache key.  Both the type and the rendering are the engine's. *)
Variable double : Type.
Variable doubleToString : Z -> double -> jsstring.

(** [brotliCompress] at quality 6 and [gzip] at level 6. *)
Variable brotliAsync : list Byte.byte -> list Byte.byte.
Variable gzipAsync : list Byte.byte -> list Byte.byte.

Record Stats : Type := {
  size : N;
  mtimeMs : double;
}.

(** A path of the file system: [stat] succeeds on files and directories,
    [readFile] on files only. *)
Inductive Node : Type :=
| File (st : Stats) (data : list Byte.byte)
| Directory (st : Stats).

Definition nodeStats (n : Node) : Stats :=
  match n with
  | File st _ => st
  | Directory st => st
  end.

(** What the handler leaves behind: the response it gave ([None] when it
    threw and nothing was sent), the file operations it issued, in order,
    and the compression cache. *)
Record Outcome : Type := {
  response : option Response;
  fs_ops : list FsOp;
  cache : gmap jsstring (list Byte.byte);
}.

Definition notFound : Response :=
  {| status := 404; headers := []; body := EndText (js "Not found") |}.

Definition forbidden : Response :=
  {| status := 403; headers := []; body := EndText (js "Forbidden") |}.

(** ['"' + size.toString(16) + '-' + mtimeMs.toString(16) + '"'] *)
Definition etagOf (st : Stats) : jsstring :=
  [CHAR_DQUOTE] ++ toStringRadix 16 (Num (Z.of_N (size st))) ++ js "-"
  ++ doubleToString 16 (mtimeMs st) ++ [CHAR_DQUOTE].

Definition cacheControl (ext : jsstring) : jsstring :=
  if bool_decide (ext = js ".html") then js "no-cache, must-revalidate"
  else if bool_decide (ext ∈ IMMUTABLE) then js "public, max-age=31536000, immutable"
  else js "public, max-age=86400".

(** [validateInteger(value, name, 0)] of Node: an integer from 0 to
    [Number.MAX_SAFE_INTEGER]. *)
Definition MAX_SAFE_INTEGER : Z := 2 ^ 53 - 1.

Definition validateInteger (a : number) : bool :=
  match a with
  | Num z => (0 <=? z) && (z <=? MAX_SAFE_INTEGER)
  | _ => false
  end.

(** [createReadStream(path, { start, end })] checks its interval when it
    is called, before it opens the file: [start] is validated, [end] is
    validated unless it is [Infinity], and [start > end] is refused.  When
    this is false the call throws. *)
Definition createReadStreamAccepts (start end_ : number) : bool :=
  validateInteger start
  && (bool_decide (end_ = Infinity)
      || (validateInteger end_ && negb (gt start end_))).

(** The branch for [STREAMABLE] extensions (lines 51-74).  When
    [createReadStream] throws, the head has been given to [writeHead]
    already: the [catch] block's [writeHead(404)] then throws in turn, the
    handler ends on that exception and nothing is sent ([None]). *)
Definition stream (req : Request) (filePath contentType : jsstring)
    (fileStat : Stats) : option Response :=
  let total := Num (Z.of_N (size fileStat)) in
  if truthy (range req) then
    let parts :=
      split CHAR_MINUS (replace_first (js "bytes=") [] (default [] (range req))) in
    let start := parseInt (default [] (parts !! 0%nat)) in
    let end_ :=
      if truthy (parts !! 1%nat) then parseInt (default [] (parts !! 1%nat))
      else Math_min (sub (add start (Num (1024 * 1024))) (Num 1))
                    (sub total (Num 1)) in
    if createReadStreamAccepts start end_ then
      Some {| status := 206;
              headers :=
                [ ("Content-Range"%string,
                   HStr (js "bytes " ++ toString start ++ js "-" ++ toString end_
                         ++ js "/" ++ toString total));
                  ("Accept-Ranges"%string, HStr (js "bytes"));
                  ("Content-Length"%string, HNum (add (sub end_ start) (Num 1)));
                  ("Content-Type"%string, HStr contentType) ];
              body := Pipe filePath (Some (start, end_)) |}
    else None
  else
    Some {| status := 200;
            headers :=
              [ ("Content-Length"%string, HNum total);
                ("Content-Type"%string, HStr contentType);
                ("Accept-Ranges"%string, HStr (js "bytes")) ];
            body := Pipe filePath None |}.

(** The rest of the [try] block once [readFile] has succeeded (lines
    77-110); returns the response and the cache. *)
Definition serve (c : gmap jsstring (list Byte.byte)) (req : Request)
    (filePath ext contentType : jsstring) (fileStat : Stats)
    (data : list Byte.byte) : Response * gmap jsstring (list Byte.byte) :=
  let etag := etagOf fileStat in
  let headers0 :=
    [ ("Content-Type"%string, HStr contentType); ("ETag"%string, HStr etag) ] in
  if bool_decide (if_none_match req = Some etag) then
    ({| status := 304; headers := headers0; body := EndEmpty |}, c)
  else
    let headers1 :=
      headers0 ++ [ ("Cache-Control"%string, HStr (cacheControl ext)) ] in
    let plain := ({| status := 200; headers := headers1; body := EndData data |}, c) in
    if bool_decide (ext ∈ COMPRESSIBLE) && (1024 <? Z.of_nat (length data)) then
      let acceptEncoding := default [] (accept_encoding req) in
      let cacheKey := filePath ++ js ":" ++ doubleToString 10 (mtimeMs fileStat) in
      let encoded (name : jsstring) (key : jsstring)
                  (compress : list Byte.byte -> list Byte.byte) :=
        let c' := if bool_decide (is_Some (c !! key)) then c
                  else <[key := compress data]> c in
        ({| status := 200;
            headers :=
              headers1 ++ [ ("Content-Encoding"%string, HStr name);
                            ("Vary"%string, HStr (js "Accept-Encoding")) ];
            body := EndData (default [] (c' !! key)) |}, c') in
      if includes (js "br") acceptEncoding then
        encoded (js "br") (cacheKey ++ js ":br") brotliAsync
      else if includes (js "gzip") acceptEncoding then
        encoded (js "gzip") (cacheKey ++ js ":gz") gzipAsync
      else plain
    else plain.

(** The request handler given to [createServer]. *)
Definition handler (c : gmap jsstring (list Byte.byte))
    (fs : gmap jsstring Node) (req : Request) : Outcome :=
  match decodeURIComponent (queryStripped req) with
  | None => {| response := None; fs_ops := []; cache := c |}
  | Some url1 =>
      if includes (js "..") url1 then
        {| response := Some forbidden; fs_ops := []; cache := c |}
      else
        let filePath := Path.join dirname url1 in
        let ext := Path.extname filePath in
        match fs !! filePath with
        | None =>
            {| response := Some notFound; fs_ops := [OpStat filePath]; cache := c |}
        | Some node =>
            let fileStat := nodeStats node in
            let contentType := default (js "application/octet-stream") (MIME !! ext) in
            if bool_decide (ext ∈ STREAMABLE) then
              {| response := stream req filePath contentType fileStat;
                 fs_ops := [OpStat filePath; OpCreateReadStream filePath];
                 cache := c |}
            else
              match node with
              | Directory _ =>
                  {| response := Some notFound;
                     fs_ops := [OpStat filePath; OpReadFile filePath];
                     cache := c |}
              | File _ data =>
                  let '(r, c') := serve c req filePath ext contentType fileStat data in
                  {| response := Some r;
                     fs_ops := [OpStat filePath; OpReadFile filePath];
                     cache := c' |}
              end
        end
  end.

End Handler.

End Server.

(* ===================================================================== *)
(** * The load-in overlay                                                 *)
(* ===================================================================== *)

Module Overlay.
Import JS.

Inductive Phase : Type :=
| intro       (* company name + exchange label fade in *)
| priceRoll   (* stock price digits roll via odometer *)
| dayChange   (* green day change fades up *)
| fadeText    (* entire text layer fades out *)
| blocks      (* block grid drops away *)
| done.       (* overlay removed *)

#[global] Instance Phase_eq_dec : EqDecision Phase.
Proof. solve_decision. Defined.

(** The position of a phase in the declared order. *)
Definition phaseIndex (p : Phase) : nat :=
  match p with
  | intro => 0
  | priceRoll => 1
  | dayChange => 2
  | fadeText => 3
  | blocks => 4
  | done => 5
  end.

(** ** Constants *)

Definition SESSION_KEY : jsstring := js "boet-load-overlay".
Definition STRIP_RANDOM_COUNT : nat := 8.

(** Timing, in milliseconds (the source has seconds and multiplies by 1000
    where a timer is set). *)
Definition INTRO_HOLD : Z := 400.
Definition ODOMETER_STAGGER : Z := 70.
Definition ODOMETER_DURATION : Z := 600.
Definition POST_PRICE_HOLD : Z := 150.
Definition DAY_CHANGE_HOLD : Z := 600.
Definition TEXT_FADE_DURATION : Z := 200.
Definition BLOCK_STAGGER : Z := 30.
Definition BLOCK_DROP_DURATION : Z := 450.

(** ** Helpers *)

Definition getColumnCount (w : number) : number :=
  if lt w (Num 640) then Num 8
  else if lt w (Num 1024) then Num 12
  else Num 16.

Record GridSpec : Type := {
  cols : number;
  rows : number;
  blockW : number;
  blockH : number;
  vh : number;
}.

#[global] Instance GridSpec_eq_dec : EqDecision GridSpec.
Proof. solve_decision. Defined.

(** [window.innerWidth] and [window.innerHeight]: non-negative integers. *)
Record Window : Type := {
  innerWidth : N;
  innerHeight : N;
}.

Definition computeGrid (window : Window) : GridSpec :=
  let w := Num (Z.of_N (innerWidth window)) in
  let h := Num (Z.of_N (innerHeight window)) in
  let cols := getColumnCount w in
  let blockW := Math_ceil_div w cols in
  let blockH := blockW in
  let rows := add (Math_ceil_div h blockH) (Num 1) in
  {| cols := cols; rows := rows; blockW := blockW; blockH := blockH; vh := h |}.

Record PriceChar : Type := {
  char : N;
  isDigit : bool;
}.

(** Split a price string into characters, marking which are digits. *)
Definition parsePriceChars (price : jsstring) : list PriceChar :=
  (fun c => {| char := c; isDigit := isDecimalDigit c |}) <$> price.

(** ** StockPriceOdometer *)

(** The children of the odometer: a static [span], or an [OdometerDigit]
    with its props; [onComplete] tells whether the completion callback was
    passed ([true]) or [undefined] ([false]). *)
Inductive Element : Type :=
| Span (key : nat) (c : N)
| OdometerDigit (key : nat) (digit : N) (digitIndex : nat) (onComplete : bool).

(** The body of [chars.map((c, i) => ...)]: [i] is the index of the
    character and [digitIndex] the counter the callback increments. *)
Fixpoint mapChars (totalDigits : nat) (i digitIndex : nat)
    (chars : list PriceChar) : list Element :=
  match chars with
  | [] => []
  | c :: chars' =>
      if negb (isDigit c) then
        Span i (char c) :: mapChars totalDigits (S i) digitIndex chars'
      else
        let currentDigitIndex := digitIndex in
        let isLast := Z.of_nat currentDigitIndex =? Z.of_nat totalDigits - 1 in
        OdometerDigit i (char c) currentDigitIndex isLast
          :: mapChars totalDigits (S i) (S digitIndex) chars'
  end.

Definition StockPriceOdometer (price : jsstring) : list Element :=
  let chars := parsePriceChars price in
  let totalDigits := length (filter (fun c => isDigit c = true) chars) in
  mapChars totalDigits 0 0 chars.

(** When the strip of an [OdometerDigit] finishes, in milliseconds after
    the odometer appeared: its delay, then the roll. *)
Definition stripEnd (digitIndex : nat) : Z :=
  ODOMETER_STAGGER * Z.of_nat digitIndex + ODOMETER_DURATION.

Definition isStrip (e : Element) : bool :=
  match e with
  | OdometerDigit _ _ _ _ => true
  | Span _ _ => false
  end.

Definition hasCallback (e : Element) : bool :=
  match e with
  | OdometerDigit _ _ _ cb => cb
  | Span _ _ => false
  end.

(** The animated strips, and those that carry the completion callback. *)
Definition strips (es : list Element) : list Element :=
  filter (fun e => isStrip e = true) es.

Definition callbacks (es : list Element) : list Element :=
  filter (fun e => hasCallback e = true) es.

(** ** useSessionOnce *)

(** [sessionStorage]: its items, or a store whose access throws. *)
Inductive Storage : Type :=
| Inaccessible
| Items (m : gmap jsstring jsstring).

(** The effect of the hook: [hasRun] becomes true when the item is ["1"];
    an exception leaves it false. *)
Definition readFlag (key : jsstring) (st : Storage) : bool :=
  match st with
  | Inaccessible => false
  | Items m => bool_decide (m !! key = Some (js "1"))
  end.

(** [sessionStorage.setItem(key, '1')] inside [try]/[catch]. *)
Definition writeFlag (key : jsstring) (st : Storage) : Storage :=
  match st with
  | Inaccessible => Inaccessible
  | Items m => Items (<[key := js "1"]> m)
  end.

(** ** LoadInOverlay *)

(** The props and the environment a component instance runs with; they
    stay fixed for its lifetime ([useReducedMotion] reads the preference
    once). *)
Record Config : Type := {
  stockPrice : jsstring;
  forceReplay : bool;
  prefersReducedMotion : bool;
  window : Window;
}.

(** The five effects that set a timer, in the order they are declared. *)
Inductive Effect : Type :=
| EIntro           (* intro -> priceRoll *)
| EDayChange       (* dayChange -> fadeText *)
| EFadeText        (* fadeText -> blocks *)
| EBlocks          (* blocks -> done *)
| EReducedMotion.  (* reduced motion: skip to done *)

#[global] Instance Effect_eq_dec : EqDecision Effect.
Proof. solve_decision. Defined.

Definition effects : list Effect :=
  [EIntro; EDayChange; EFadeText; EBlocks; EReducedMotion].

(** What a timer runs when it fires. *)
Inductive Callback : Type :=
| SetPhase (p : Phase)    (* () => setPhase(p) *)
| SetDoneAndMark.         (* () => { setPhase('done'); markPlayed(); } *)

#[global] Instance Callback_eq_dec : EqDecision Callback.
Proof. solve_decision. Defined.

(** A pending [setTimeout].  [owner] is the effect whose cleanup calls
    [clearTimeout] on it; [None] when no cleanup holds the timer. *)
Record Timer : Type := {
  timerId : nat;
  delay : number;
  callback : Callback;
  owner : option Effect;
}.

(** The state variables of an instance, with the part of its environment
    the callbacks read and write. *)
Record Vars : Type := {
  inTree : bool;            (* the instance is mounted in the React tree *)
  hasRun : bool;            (* useSessionOnce: useState(false) *)
  mounted : bool;           (* useState(false) *)
  phase : Phase;            (* useState('intro') *)
  grid : option GridSpec;   (* useState(null) *)
  rolled : bool;            (* the last digit's strip has finished rolling *)
  sessionStorage : Storage;
}.

Record State : Type := {
  vars : Vars;
  timers : list Timer;      (* pending timeouts *)
  scheduled : nat;          (* number of setTimeout calls so far *)
}.

(** After the first render, before any effect has run. *)
Definition initial (st : Storage) : State :=
  {| vars := {| inTree := true; hasRun := false; mounted := false;
                phase := intro; grid := None; rolled := false;
                sessionStorage := st |};
     timers := []; scheduled := 0 |}.

Section Instance.

Variable cfg : Config.

Definition shouldAnimate (v : Vars) : bool :=
  mounted v && (forceReplay cfg || negb (hasRun v)).

(** The body of an effect: the timeout it sets, if it sets one.  Delays
    are nominal, in whole milliseconds.  The source computes them in
    seconds and multiplies by 1000; for the wipe ([EBlocks]) the product
    can fall short of the integer by a rounding error
    (1229.9999999999998 for 1230), and no statement below depends on the
    value of that delay. *)
Definition effectBody (e : Effect) (v : Vars) : option (number * Callback) :=
  match e with
  | EIntro =>
      if negb (shouldAnimate v) || negb (bool_decide (phase v = intro)) then None
      else Some (Num INTRO_HOLD, SetPhase priceRoll)
  | EDayChange =>
      if negb (bool_decide (phase v = dayChange)) then None
      else Some (Num DAY_CHANGE_HOLD, SetPhase fadeText)
  | EFadeText =>
      if negb (bool_decide (phase v = fadeText)) then None
      else Some (Num (TEXT_FADE_DURATION + 30), SetPhase blocks)
  | EBlocks =>
      match grid v with
      | Some g =>
          if negb (bool_decide (phase v = blocks)) then None
          else
            let maxDiag := add (sub (cols g) (Num 1)) (sub (rows g) (Num 1)) in
            let totalMs :=
              add (add (mul maxDiag (Num BLOCK_STAGGER)) (Num BLOCK_DROP_DURATION))
                  (Num 120) in
            Some (totalMs, SetDoneAndMark)
      | None => None
      end
  | EReducedMotion =>
      if negb (shouldAnimate v) || negb (prefersReducedMotion cfg) then None
      else Some (Num 600, SetDoneAndMark)
  end.

(** Whether the dependency array of an effect differs between two
    renders.  [markPlayed] is a stable callback and
    [prefersReducedMotion] is fixed. *)
Definition depsChanged (e : Effect) (old new : Vars) : bool :=
  match e with
  | EIntro =>
      negb (bool_decide (shouldAnimate old = shouldAnimate new))
      || negb (bool_decide (phase old = phase new))
  | EDayChange | EFadeText => negb (bool_decide (phase old = phase new))
  | EBlocks =>
      negb (bool_decide (phase old = phase new))
      || negb (bool_decide (grid old = grid new))
  | EReducedMotion => negb (bool_decide (shouldAnimate old = shouldAnimate new))
  end.

(** [setTimeout(cb, d)] *)
Definition setTimeout (d : number) (cb : Callback) (o : option Effect)
    (s : State) : State :=
  {| vars := vars s;
     timers := timers s ++ [{| timerId := scheduled s; delay := d;
                               callback := cb; owner := o |}];
     scheduled := S (scheduled s) |}.

(** The cleanup of effect [e]: [clearTimeout(t)]. *)
Definition cleanup (e : Effect) (s : State) : State :=
  {| vars := vars s;
     timers := filter (fun t => owner t ≠ Some e) (timers s);
     scheduled := scheduled s |}.

(** An effect runs its body and keeps the timeout for its cleanup. *)
Definition invoke (e : Effect) (s : State) : State :=
  match effectBody e (vars s) with
  | Some (d, cb) => setTimeout d cb (Some e) s
  | None => s
  end.

(** Effect [e] at a commit: React calls it only when its dependencies
    changed since the render [old], after the cleanup of its previous
    run. *)
Definition runEffect (old : Vars) (s : State) (e : Effect) : State :=
  if depsChanged e old (vars s) then invoke e (cleanup e s) else s.

(** The commit that follows a state update from [old]. *)
Definition commit (old : Vars) (new : State) : State :=
  foldl (runEffect old) new effects.

(** The first commit.  Every effect runs once on the state of the first
    render: the hook reads the flag, the mount effect sets [mounted] and
    the grid, and the timer effects run their bodies; the batched state
    updates then cause a second render and its commit. *)
Definition mount (s : State) : State :=
  let v := vars s in
  let s1 := foldl (fun acc e => invoke e acc) s effects in
  let v2 :=
    {| inTree := inTree v;
       hasRun := readFlag SESSION_KEY (sessionStorage v) || hasRun v;
       mounted := true;
       phase := phase v;
       grid := Some (computeGrid (window cfg));
       rolled := rolled v;
       sessionStorage := sessionStorage v |} in
  commit v {| vars := v2; timers := timers s1; scheduled := scheduled s1 |}.

(** What the component returns. *)
Inductive View : Type :=
| PlainScreen          (* the plain colour screen shown before hydration *)
| Nothing              (* null *)
| ReducedMotionFade    (* the reduced-motion fallback *)
| Animation (textLayer : bool) (odometer : option (list Element))
            (blockGrid : option GridSpec).

Definition render (v : Vars) : View :=
  if negb (mounted v) then PlainScreen
  else if negb (shouldAnimate v) then Nothing
  else if bool_decide (phase v = done) then Nothing
  else if prefersReducedMotion cfg then ReducedMotionFade
  else
    let isTextPhase :=
      bool_decide (phase v = intro) || bool_decide (phase v = priceRoll)
      || bool_decide (phase v = dayChange) || bool_decide (phase v = fadeText) in
    Animation isTextPhase
      (if isTextPhase
          && (bool_decide (phase v = priceRoll) || bool_decide (phase v = dayChange)
              || bool_decide (phase v = fadeText))
       then Some (StockPriceOdometer (stockPrice cfg)) else None)
      (if bool_decide (phase v = blocks) then grid v else None).

(** A strip that carries [onComplete] is on screen. *)
Definition callbackOnScreen (v : Vars) : bool :=
  match render v with
  | Animation _ (Some es) _ => bool_decide (callbacks es ≠ [])
  | _ => false
  end.

(** [setPhase(p)]: ignored once the instance has left the tree. *)
Definition setPhase (p : Phase) (v : Vars) : Vars :=
  {| inTree := inTree v; hasRun := hasRun v; mounted := mounted v;
     phase := if inTree v then p else phase v;
     grid := grid v; rolled := rolled v; sessionStorage := sessionStorage v |}.

(** [markPlayed()]: writes the flag, then [setHasRun(true)]. *)
Definition markPlayed (v : Vars) : Vars :=
  {| inTree := inTree v; hasRun := if inTree v then true else hasRun v;
     mounted := mounted v; phase := phase v; grid := grid v; rolled := rolled v;
     sessionStorage := writeFlag SESSION_KEY (sessionStorage v) |}.

Definition runCallback (cb : Callback) (v : Vars) : Vars :=
  match cb with
  | SetPhase p => setPhase p v
  | SetDoneAndMark => markPlayed (setPhase done v)
  end.

(** [handlePriceRollComplete]: the timeout it sets is held by no cleanup. *)
Definition handlePriceRollComplete (s : State) : State :=
  setTimeout (Num POST_PRICE_HOLD) (SetPhase dayChange) None s.

(** The instance leaves the tree. *)
Definition leaveTree (v : Vars) : Vars :=
  {| inTree := false; hasRun := hasRun v; mounted := mounted v;
     phase := phase v; grid := grid v; rolled := rolled v;
     sessionStorage := sessionStorage v |}.

(** The strip carrying [onComplete] has finished. *)
Definition markRolled (v : Vars) : Vars :=
  {| inTree := inTree v; hasRun := hasRun v; mounted := mounted v;
     phase := phase v; grid := grid v; rolled := true;
     sessionStorage := sessionStorage v |}.

(** What can happen to an instance whose props stay as they are.
    [rolled] records that the roll of the strip carrying [onComplete] has
    ended: [onAnimationComplete] is called once, when the animation that
    started at the mount of the strip ends, and with the same price no
    later render mounts another strip (module [Live] has the renders with
    another price).  A render is taken to return; in the phase [blocks]
    that needs a grid of finite dimensions, which a window at least one
    pixel wide gives. *)
Inductive Event : Type :=
| Mount                (* the effects of the first commit run *)
| Fire (timer : nat)   (* a pending timeout fires *)
| RollComplete         (* onAnimationComplete of the strip carrying onComplete *)
| Unmount.             (* the instance leaves the tree; every cleanup runs *)

Definition step (ev : Event) (s : State) : option State :=
  let v := vars s in
  match ev with
  | Mount =>
      if inTree v && negb (mounted v) then Some (mount s) else None
  | Fire n =>
      match List.find (fun t => Nat.eqb (timerId t) n) (timers s) with
      | Some t =>
          let s' :=
            {| vars := runCallback (callback t) v;
               timers := filter (fun t' => timerId t' ≠ n) (timers s);
               scheduled := scheduled s |} in
          Some (if inTree v then commit v s' else s')
      | None => None
      end
  | RollComplete =>
      if inTree v && callbackOnScreen v && negb (rolled v) then
        Some (handlePriceRollComplete
                {| vars := markRolled v; timers := timers s;
                   scheduled := scheduled s |})
      else None
  | Unmount =>
      if inTree v then
        Some (foldl (fun acc e => cleanup e acc)
                {| vars := leaveTree v; timers := timers s;
                   scheduled := scheduled s |} effects)
      else None
  end.

(** A run: the events in order; [None] when one of them cannot happen. *)
Fixpoint run (evs : list Event) (s : State) : option State :=
  match evs with
  | [] => Some s
  | ev :: evs' =>
      match step ev s with
      | Some s' => run evs' s'
      | None => None
      end
  end.

(** ** Consistency of the pending timeouts

    What every state of a run satisfies; used to show that the phase only
    moves forward.  A timeout held by an effect is the one the body of
    that effect sets in the current state; a timeout held by no cleanup
    was set by [handlePriceRollComplete] while the price was rolling. *)

Definition timerOk (v : Vars) (t : Timer) : Prop :=
  match owner t with
  | Some e => effectBody e v = Some (delay t, callback t)
  | None =>
      callback t = SetPhase dayChange
      /\ prefersReducedMotion cfg = false
      /\ (inTree v = true -> phase v = priceRoll)
  end.

Record Consistent (s : State) : Prop := {
  timers_ok : forall t, t ∈ timers s -> timerOk (vars s) t;
  unowned_unique :
    forall t1 t2, t1 ∈ timers s -> t2 ∈ timers s ->
                  owner t1 = None -> owner t2 = None -> timerId t1 = timerId t2;
  unowned_rolled :
    forall t, t ∈ timers s -> owner t = None -> rolled (vars s) = true;
  before_mount :
    mounted (vars s) = false -> timers s = [] /\ phase (vars s) = intro;
  after_unmount :
    inTree (vars s) = false -> forall t, t ∈ timers s -> owner t = None;
  before_roll :
    prefersReducedMotion cfg = false -> rolled (vars s) = false ->
    phase (vars s) = intro \/ phase (vars s) = priceRoll;
}.

End Instance.

End Overlay.

(* ===================================================================== *)
(** * A sample deployment                                                 *)
(* ===================================================================== *)

(** Concrete inputs on which the statements below are exercised: a site
    directory with a page and a video, modification times that are whole
    milliseconds, and compressors that leave the data alone. *)
Module Sample.
Import JS Server Overlay.

Definition siteDir : jsstring := js "/srv/site/".

Definition renderInteger (radix : Z) (z : Z) : jsstring :=
  toStringRadix radix (Num z).

Definition pageStats : Stats Z := {| size := 10; mtimeMs := 1700000000000 |}.
Definition videoStats : Stats Z := {| size := 5000000; mtimeMs := 1700000000000 |}.

Definition site : gmap jsstring (Node Z) :=
  <[ js "/srv/site/index.html" := File Z pageStats [] ]>
    (<[ js "/srv/site/v.mp4" := File Z videoStats [] ]> ∅).

Definition siteHandler (fs : gmap jsstring (Node Z)) (req : Request) : Outcome :=
  handler siteDir Z renderInteger id id ∅ fs req.

Definition get (u : jsstring) : Request :=
  {| url := u; range := None; if_none_match := None; accept_encoding := None |}.


Definition rangeGet (u r : jsstring) : Request :=
  {| url := u; range := Some r; if_none_match := None; accept_encoding := None |}.

(** The default props of the overlay on a desktop viewport. *)
Definition desktop : Config :=
  {| stockPrice := js "$3.42"; forceReplay := false;
     prefersReducedMotion := false;
     window := {| innerWidth := 1280; innerHeight := 720 |} |}.

(** The same with a price that has no digit. *)
Definition noQuote : Config :=
  {| stockPrice := js "N/A"; forceReplay := false;
     prefersReducedMotion := false;
     window := {| innerWidth := 1280; innerHeight := 720 |} |}.

Definition freshSession : Storage := Items ∅.
Definition playedItems : gmap jsstring jsstring := {[ SESSION_KEY := js "1" ]}.

(** The state an instance is in after the events [evs]. *)
Definition after (cfg : Config) (st : Storage) (evs : list Event) : State :=
  default (initial st) (run cfg evs (initial st)).

End Sample.

(* ===================================================================== *)
(** * Reading responses and numerals                                      *)
(* ===================================================================== *)

Module Reading.
Import JS Server.

(** The value of one digit character written by [digitChar]. *)
Definition charDigit (c : N) : Z :=
  if (c <=? 57)%N then Z.of_N c - 48 else Z.of_N c - 87.

(** The value of a numeral in a radix, most significant digit first. *)
Definition radixValue (radix : Z) (s : jsstring) : Z :=
  foldl (fun acc c => radix * acc + charDigit c) 0 s.

(** The characters [digitChar] writes for the digits of a radix. *)
Definition digitOf (radix : Z) (c : N) : Prop :=
  exists d, 0 <= d < radix /\ c = digitChar d.

(** The header of a response with a given name. *)
Definition headerOf (name : string) (r : Response) : option HeaderValue :=
  snd <$> List.find (fun h => String.eqb (fst h) name) (headers r).

(** The path a file operation is issued on. *)
Definition opPath (op : FsOp) : jsstring :=
  match op with
  | OpStat p => p
  | OpReadFile p => p
  | OpCreateReadStream p => p
  end.

(** The segments of the normalized form of an absolute directory. *)
Definition directorySegments (dir : jsstring) : list jsstring :=
  Path.normalizeSegments false [] (split CHAR_FORWARD_SLASH dir).

End Reading.

(* ===================================================================== *)
(** * The odometer strip and the block grid                               *)
(* ===================================================================== *)

Module Pieces.
Import JS Overlay.

(** Characters used for the digit odometer scramble strip *)
Definition DIGIT_POOL : jsstring := js "0123456789".

(** [OdometerDigit]: the cells of the strip, top to bottom.  [random i]
    stands for [Math.floor(Math.random() * DIGIT_POOL.length)] at the
    [i]-th decoy; a cell is [None] where the pool has no such index. *)
Definition sequence (random : nat -> nat) (digit : N) : list (option N) :=
  ((fun i => DIGIT_POOL !! random i) <$> seq 0 STRIP_RANDOM_COUNT)
  ++ [Some digit].

(** [scrollY] in cells: the strip moves up by [STRIP_RANDOM_COUNT] cells of
    [CHAR_CELL_HEIGHT] em behind a window one cell high. *)
Definition scrollY : nat := STRIP_RANDOM_COUNT.

(** The cell behind the window once the strip has moved up by [cells]. *)
Definition visibleCell (strip : list (option N)) (cells : nat) : option N :=
  mjoin (strip !! cells).

(** What an element of the odometer shows once every roll has ended;
    [random key] is the random source of the strip with that key. *)
Definition shownAtRest (random : nat -> nat -> nat) (e : Element) : option N :=
  match e with
  | Span _ c => Some c
  | OdometerDigit key digit _ _ => visibleCell (sequence (random key) digit) scrollY
  end.

(** The index a strip rolls with. *)
Definition stripIndex (e : Element) : option nat :=
  match e with
  | Span _ _ => None
  | OdometerDigit _ _ idx _ => Some idx
  end.

(** [BlockGrid]: one item per cell, with its delay in milliseconds. *)
Record Block : Type := {
  r : Z;
  c : Z;
  blockDelay : Z;
}.

(** The inner loop [for (let c = 0; c < cols; c++)]. *)
Definition blockRow (row cols : Z) : list Block :=
  (fun col => {| r := row; c := col; blockDelay := (row + col) * BLOCK_STAGGER |})
  <$> seqZ 0 cols.

(** The [blocks] memo.  The loop bounds are numbers: a bound that is [NaN]
    or negative ends its loop at once, and a bound that is [Infinity]
    never ends it, in which case there is no list ([None]). *)
Definition blocks (g : GridSpec) : option (list Block) :=
  match rows g with
  | NaN | Inf true => Some []
  | Inf false => None
  | Num nr =>
      match cols g with
      | NaN | Inf true => Some []
      | Inf false => if 0 <? nr then None else Some []
      | Num nc => Some (row ← seqZ 0 nr; blockRow row nc)
      end
  end.

(** The box of a block: [left], [top], [width] and [height] of its
    style. *)
Definition blockLeft (g : GridSpec) (b : Block) : number := mul (Num (c b)) (blockW g).
Definition blockTop (g : GridSpec) (b : Block) : number := mul (Num (r b)) (blockH g).
Definition blockWidth (g : GridSpec) : number := add (blockW g) (Num 1).
Definition blockHeight (g : GridSpec) : number := add (blockH g) (Num 1).

(** The pixel [(x, y)] lies in the box of [b]. *)
Definition inBlock (g : GridSpec) (b : Block) (x y : Z) : bool :=
  ge (Num x) (blockLeft g b) && lt (Num x) (add (blockLeft g b) (blockWidth g))
  && ge (Num y) (blockTop g b) && lt (Num y) (add (blockTop g b) (blockHeight g)).

End Pieces.

(* ===================================================================== *)
(** * Traces of the sequencer                                             *)
(* ===================================================================== *)

Module Traces.
Import Overlay.

(** The phase after each event of a run; [None] when an event cannot
    happen. *)
Fixpoint phasesAlong (cfg : Config) (evs : list Event) (s : State)
  : option (list Phase) :=
  match evs with
  | [] => Some []
  | ev :: evs' =>
      match step cfg ev s with
      | Some s' => cons (phase (vars s')) <$> phasesAlong cfg evs' s'
      | None => None
      end
  end.

End Traces.

(* ===================================================================== *)
(** * The overlay under a changing price                                  *)
(* ===================================================================== *)

(** The instance of [Overlay] runs with fixed props.  Here the parent may
    render the overlay again with another [stockPrice] while it is
    mounted, and each strip of the odometer ends its roll on its own:
    [onAnimationComplete] is called once for a strip, when the animation
    that started at its mount ends, with the [onComplete] of the latest
    render. *)

Module Live.
Import JS Overlay.

Definition elementKey (e : Element) : nat :=
  match e with
  | Span key _ => key
  | OdometerDigit key _ _ _ => key
  end.

(** The keys of the strips of an odometer, and of those that carry
    [onComplete]. *)
Definition stripKeys (es : list Element) : list nat := elementKey <$> strips es.
Definition callbackKeys (es : list Element) : list nat := elementKey <$> callbacks es.

(** The odometer on screen, if there is one. *)
Definition odometerOf (cfg : Config) (v : Vars) : option (list Element) :=
  if inTree v then
    match render cfg v with
    | Animation _ odometer _ => odometer
    | _ => None
    end
  else None.

(** The strips that are rolling after a render.  React keeps a child whose
    key and type are the same and mounts the others: the strips of an
    odometer that has just appeared all start to roll; under an odometer
    that stays, a strip keeps rolling if it was and is still there, and a
    strip under a key that held no strip before starts to roll. *)
Definition reconcile (before after : option (list Element)) (rolling : list nat)
  : list nat :=
  match before, after with
  | _, None => []
  | None, Some es => stripKeys es
  | Some es0, Some es =>
      filter (fun k => k ∈ stripKeys es) rolling
      ++ filter (fun k => k ∉ stripKeys es0) (stripKeys es)
  end.

Record LiveState : Type := {
  props : Config;          (* the props of the latest render *)
  rolling : list nat;      (* keys of the strips whose roll has not ended *)
  instance : State;
}.

Definition start (cfg : Config) (st : Storage) : LiveState :=
  {| props := cfg; rolling := []; instance := initial st |}.

Inductive LiveEvent : Type :=
| MountL                       (* the effects of the first commit run *)
| FireL (timer : nat)          (* a pending timeout fires *)
| UnmountL                     (* the instance leaves the tree *)
| SetStockPrice (p : jsstring) (* the parent renders with another price *)
| StripComplete (key : nat).   (* onAnimationComplete of the strip [key] *)

(** The state after a render that took the instance from [l] to [s] under
    the props [cfg]. *)
Definition rendered (l : LiveState) (cfg : Config) (s : State) : LiveState :=
  {| props := cfg;
     rolling := reconcile (odometerOf (props l) (vars (instance l)))
                          (odometerOf cfg (vars s)) (rolling l);
     instance := s |}.

Definition withPrice (cfg : Config) (p : jsstring) : Config :=
  {| stockPrice := p; forceReplay := forceReplay cfg;
     prefersReducedMotion := prefersReducedMotion cfg; window := window cfg |}.

Definition liveStep (ev : LiveEvent) (l : LiveState) : option LiveState :=
  let cfg := props l in
  let s := instance l in
  match ev with
  | MountL => rendered l cfg <$> step cfg Mount s
  | FireL n => rendered l cfg <$> step cfg (Fire n) s
  | UnmountL => rendered l cfg <$> step cfg Unmount s
  | SetStockPrice p =>
      (* no dependency of an effect changes: no effect runs *)
      if inTree (vars s) && mounted (vars s)
      then Some (rendered l (withPrice cfg p) s) else None
  | StripComplete key =>
      if inTree (vars s) && bool_decide (key ∈ rolling l) then
        let carries :=
          match odometerOf cfg (vars s) with
          | Some es => bool_decide (key ∈ callbackKeys es)
          | None => false
          end in
        Some {| props := cfg;
                rolling := filter (fun k => k ≠ key) (rolling l);
                instance := if carries then handlePriceRollComplete s else s |}
      else None
  end.

(** The phase after each event of a run; [None] when an event cannot
    happen. *)
Fixpoint livePhases (evs : list LiveEvent) (l : LiveState) : option (list Phase) :=
  match evs with
  | [] => Some []
  | ev :: evs' =>
      match liveStep ev l with
      | Some l' => cons (phase (vars (instance l'))) <$> livePhases evs' l'
      | None => None
      end
  end.

Fixpoint liveRun (evs : list LiveEvent) (l : LiveState) : option LiveState :=
  match evs with
  | [] => Some l
  | ev :: evs' =>
      match liveStep ev l with
      | Some l' => liveRun evs' l'
      | None => None
      end
  end.

End Live.

(* ===================================================================== *)
(** * More sample inputs                                                  *)
(* ===================================================================== *)

Module Inputs.
Import JS Server Overlay Sample.

(** A style sheet of 2000 bytes beside the page and the video. *)
Definition sheetStats : Stats Z := {| size := 2000; mtimeMs := 1700000000000 |}.
Definition sheetData : list Byte.byte := replicate 2000 Byte.x20.

Definition siteWithSheet : gmap jsstring (Node Z) :=
  <[ js "/srv/site/app.css" := File Z sheetStats sheetData ]> site.

(** The site with the served directory itself. *)
Definition siteWithRoot : gmap jsstring (Node Z) :=
  <[ js "/srv/site/" := Directory Z pageStats ]> site.

Definition encodedGet (u a : jsstring) : Request :=
  {| url := u; range := None; if_none_match := None; accept_encoding := Some a |}.

(** The default props with reduced motion. *)
Definition calm : Config :=
  {| stockPrice := js "$3.42"; forceReplay := false;
     prefersReducedMotion := true;
     window := {| innerWidth := 1280; innerHeight := 720 |} |}.

(** A random source for the decoys of every strip. *)
Definition dice (key i : nat) : nat := (key + 3 * i) mod 10.

End Inputs.

(* ===================================================================== *)
(** * Properties of the JavaScript layer                                  *)
(* ===================================================================== *)

Section StringFacts.
Import JS.

Lemma startsWith_app (p s : jsstring) : startsWith p (p ++ s) = true.
Proof.
  induction p as [|a p IH]; simpl; [done|].
  by rewrite N.eqb_refl.
Qed.

Lemma startsWith_inv (p s : jsstring) :
  startsWith p s = true -> exists t, s = p ++ t.
Proof.
  revert s. induction p as [|a p IH]; intros s H.
  - by exists s.
  - destruct s as [|b s]; simpl in H; [done|].
    destruct (N.eqb_spec a b) as [->|]; [|done].
    destruct (IH _ H) as [t ->]. by exists t.
Qed.

Lemma includes_startsWith (p s : jsstring) :
  startsWith p s = true -> includes p s = true.
Proof. intros H. destruct s; simpl; by rewrite H. Qed.

(** [includes] is the substring test. *)
Lemma includes_spec (p s : jsstring) :
  includes p s = true <-> exists a b, s = a ++ p ++ b.
Proof.
  split.
  - induction s as [|c s IH]; simpl; intros H.
    + rewrite orb_false_r in H. destruct (startsWith_inv _ _ H) as [t ->].
      by exists [], t.
    + apply orb_true_iff in H as [H|H].
      * destruct (startsWith_inv _ _ H) as [t ->]. by exists [], t.
      * destruct (IH H) as (a & b & ->). by exists (c :: a), b.
  - intros (a & b & ->). induction a as [|c a IH]; simpl.
    + apply includes_startsWith, startsWith_app.
    + rewrite IH. apply orb_true_r.
Qed.

Lemma replace_first_prefix (p r s : jsstring) :
  replace_first p r (p ++ s) = r ++ s.
Proof.
  assert (E : forall t, startsWith p t = true ->
                        replace_first p r t = r ++ drop (length p) t).
  { intros t H. destruct t; simpl; by rewrite H. }
  rewrite E by apply startsWith_app. by rewrite drop_app_length.
Qed.

(** Splitting a string that does not contain the separator. *)
Lemma split_absent (sep : N) (s : jsstring) :
  sep ∉ s -> split sep s = [s].
Proof.
  induction s as [|c s IH]; intros H; simpl; [done|].
  apply not_elem_of_cons in H as [Hc Hs].
  destruct (N.eqb_spec c sep) as [->|_]; [done|].
  by rewrite (IH Hs).
Qed.

Lemma split_once (sep : N) (s t : jsstring) :
  sep ∉ s -> split sep (s ++ sep :: t) = s :: split sep t.
Proof.
  induction s as [|c s IH]; intros H; simpl.
  - by rewrite N.eqb_refl.
  - apply not_elem_of_cons in H as [Hc Hs].
    destruct (N.eqb_spec c sep) as [->|_]; [done|].
    by rewrite (IH Hs).
Qed.

Lemma isDecimalDigit_range (c : N) :
  isDecimalDigit c = true <-> (48 <= c <= 57)%N.
Proof.
  unfold isDecimalDigit, CHAR_0, CHAR_9.
  rewrite andb_true_iff, !N.leb_le. done.
Qed.

Lemma digit_not_whitespace (c : N) :
  isDecimalDigit c = true -> isStrWhiteSpaceChar c = false.
Proof.
  intros H%isDecimalDigit_range. unfold isStrWhiteSpaceChar.
  apply orb_false_iff; split.
  - apply bool_decide_eq_false. rewrite !elem_of_cons, elem_of_nil. lia.
  - apply andb_false_iff; left. apply N.leb_gt. lia.
Qed.

Lemma digitPrefix_digits (ds : jsstring) (acc : option Z) (rest : jsstring) :
  Forall (fun c => isDecimalDigit c = true) ds ->
  ds <> [] ->
  match rest with c :: _ => isDecimalDigit c = false | [] => True end ->
  digitPrefix acc (ds ++ rest)
  = Some (foldl (fun a c => 10 * a + (Z.of_N c - 48)) (default 0 acc) ds).
Proof.
  intros Hds. revert acc. induction Hds as [|c ds Hc Hds IH]; intros acc Hne Hrest.
  - done.
  - simpl. rewrite Hc. destruct ds as [|d ds].
    + simpl. destruct rest as [|r rest]; simpl; [done|]. by rewrite Hrest.
    + rewrite IH; done.
Qed.

(** Up to [2^53] an integer is its own Number value. *)
Lemma toDouble_safe (z : Z) : Z.abs z <= 2 ^ 53 -> toDouble z = Num z.
Proof.
  intros H. unfold toDouble. cbv zeta.
  destruct (Z.leb_spec (Z.abs z) (2 ^ 53)); [done|lia].
Qed.

(** From [2^53] on the Number value is at least [2^53], or infinite. *)
Lemma toDouble_large (z : Z) :
  2 ^ 53 <= z ->
  match toDouble z with
  | Num v => 2 ^ 53 <= v
  | Inf s => s = false
  | NaN => False
  end.
Proof.
  intros H. unfold toDouble. cbv zeta.
  destruct (Z.leb_spec (Z.abs z) (2 ^ 53)); [done|].
  assert (Ha : Z.abs z = z) by lia. rewrite Ha in *.
  assert (Hz : 0 < z) by lia.
  destruct (Z.log2_spec z Hz) as [Hlo Hhi].
  assert (HL : 53 <= Z.log2 z).
  { apply Z.log2_le_pow2; [done|lia]. }
  set (L := Z.log2 z) in *. set (e := L - 52).
  assert (He : 1 <= e) by (unfold e; lia).
  rewrite Z.shiftr_div_pow2 by lia. rewrite !Z.shiftl_mul_pow2 by lia.
  set (m := z / 2 ^ e).
  assert (Hpe : 0 < 2 ^ e) by (apply Z.pow_pos_nonneg; lia).
  assert (Hsplit : 2 ^ L = 2 ^ 52 * 2 ^ e).
  { unfold e. rewrite <- Z.pow_add_r by lia. f_equal. lia. }
  assert (Hm : 2 ^ 52 <= m).
  { unfold m. apply Z.div_le_lower_bound; [done|]. lia. }
  assert (H53 : 2 ^ 53 <= 2 ^ L) by (apply Z.pow_le_mono_r; lia).
  set (m' := if z - m * 2 ^ e <? 1 * 2 ^ (e - 1) then m
             else if 1 * 2 ^ (e - 1) <? z - m * 2 ^ e then m + 1
             else if Z.even m then m else m + 1).
  assert (Hm' : m <= m') by (unfold m'; repeat case_match; lia).
  destruct (Z.leb_spec (2 ^ 1024) (m' * 2 ^ e)).
  - destruct (Z.ltb_spec z 0); [lia|done].
  - rewrite Z.sgn_pos by done.
    assert (2 ^ 52 * 2 ^ e <= m' * 2 ^ e) by (apply Z.mul_le_mono_nonneg_r; lia).
    lia.
Qed.

Lemma decimalValue_nonneg (ds : jsstring) :
  Forall (fun c => isDecimalDigit c = true) ds -> 0 <= decimalValue ds.
Proof.
  intros H. unfold decimalValue.
  assert (G : forall acc, 0 <= acc ->
            0 <= foldl (fun a c => 10 * a + (Z.of_N c - 48)) acc ds).
  { induction H as [|c ds Hc _ IH]; intros acc Hacc; simpl; [done|].
    apply IH. apply isDecimalDigit_range in Hc. lia. }
  by apply G.
Qed.

(** [parseInt] reads a string of decimal digits as the Number value for
    its value. *)
Lemma parseInt_digits (ds : jsstring) :
  Forall (fun c => isDecimalDigit c = true) ds ->
  ds <> [] ->
  parseInt ds = toDouble (decimalValue ds).
Proof.
  intros Hds Hne. unfold parseInt.
  destruct ds as [|c ds]; [done|].
  pose proof (Forall_inv Hds) as Hc.
  simpl trimStart. rewrite (digit_not_whitespace _ Hc).
  apply isDecimalDigit_range in Hc as Hr.
  destruct (N.eqb_spec c CHAR_MINUS) as [->|_]; [unfold CHAR_MINUS in Hr; lia|].
  destruct (N.eqb_spec c CHAR_PLUS) as [->|_]; [unfold CHAR_PLUS in Hr; lia|].
  pose proof (digitPrefix_digits (c :: ds) None [] Hds Hne I) as E.
  rewrite app_nil_r in E. rewrite E. simpl default.
  unfold decimalValue. f_equal. lia.
Qed.

End StringFacts.

(* ===================================================================== *)
(** * Properties of the static asset server                               *)
(* ===================================================================== *)

Section ServerProperties.
Import JS Server.

Variable dirname : jsstring.
Variable double : Type.
Variable doubleToString : Z -> double -> jsstring.
Variable brotliAsync gzipAsync : list Byte.byte -> list Byte.byte.

Local Abbreviation handle :=
  (handler dirname double doubleToString brotliAsync gzipAsync).
Local Abbreviation etag := (etagOf double doubleToString).
Local Abbreviation Node := (Server.Node double).
Local Abbreviation cacheMap := (gmap jsstring (list Byte.byte)).

(** A decoding error leaves the handler before it has written anything. *)
Lemma decode_error_no_response (c : cacheMap) (fs : gmap jsstring Node)
    (req : Request) :
  decodeURIComponent (queryStripped req) = None ->
  handle c fs req = {| response := None; fs_ops := []; cache := c |}.
Proof. intros H. unfold handler. by rewrite H. Qed.

(** Past the traversal check, the handler starts with [stat]. *)
Lemma handler_stat_fails (c : cacheMap) (fs : gmap jsstring Node)
    (req : Request) (p : jsstring) :
  decodeURIComponent (queryStripped req) = Some p ->
  includes (js "..") p = false ->
  fs !! Path.join dirname p = None ->
  handle c fs req
  = {| response := Some notFound; fs_ops := [OpStat (Path.join dirname p)];
       cache := c |}.
Proof. intros Hd Hi Hs. unfold handler. by rewrite Hd, Hi, Hs. Qed.

Lemma handler_streamable (c : cacheMap) (fs : gmap jsstring Node)
    (req : Request) (p : jsstring) (node : Node) :
  decodeURIComponent (queryStripped req) = Some p ->
  includes (js "..") p = false ->
  fs !! Path.join dirname p = Some node ->
  Path.extname (Path.join dirname p) ∈ STREAMABLE ->
  response (handle c fs req)
  = stream double req (Path.join dirname p)
      (default (js "application/octet-stream")
         (MIME !! Path.extname (Path.join dirname p)))
      (nodeStats double node).
Proof.
  intros Hd Hi Hs He. unfold handler. rewrite Hd, Hi, Hs.
  by rewrite bool_decide_true.
Qed.

(** [createReadStream] refuses a start from [2^53] on. *)
Lemma large_start_refused (z : Z) (end_ : number) :
  2 ^ 53 <= z -> createReadStreamAccepts (toDouble z) end_ = false.
Proof.
  intros H. pose proof (toDouble_large z H) as Hd.
  unfold createReadStreamAccepts.
  destruct (toDouble z) as [| s | v]; [done|done|].
  unfold validateInteger, MAX_SAFE_INTEGER.
  destruct (Z.leb_spec v (2 ^ 53 - 1)); [lia|]. by rewrite andb_false_r.
Qed.

(** What [createReadStream] accepts among the intervals of integers. *)
Lemma accepts_integers (a b : Z) :
  createReadStreamAccepts (Num a) (Num b)
  = bool_decide (0 <= a <= b /\ b <= 2 ^ 53 - 1).
Proof.
  unfold createReadStreamAccepts, validateInteger, MAX_SAFE_INTEGER, gt, lt.
  rewrite bool_decide_false by done. cbn [orb].
  destruct (Z.leb_spec 0 a), (Z.leb_spec a (2 ^ 53 - 1)), (Z.leb_spec 0 b),
    (Z.leb_spec b (2 ^ 53 - 1)), (Z.ltb_spec b a); cbn [andb negb];
    symmetry; first [apply bool_decide_eq_true_2 | apply bool_decide_eq_false_2];
    lia.
Qed.


(** A range request with a start and no end, on a file of at most
    [2^53] bytes: the head and the interval when the start lies in the file, and
    no answer otherwise, since [createReadStream] throws on an interval
    that ends before it starts. *)
Lemma stream_start_only (req : Request) (filePath contentType r : jsstring)
    (fileStat : Stats double) (ds : jsstring) :
  range req = Some r ->
  (r = js "bytes=" ++ ds ++ js "-" \/ r = js "bytes=" ++ ds) ->
  Forall (fun c => isDecimalDigit c = true) ds ->
  ds <> [] ->
  let S := Z.of_N (size double fileStat) in
  let start := decimalValue ds in
  let end_ := Z.min (start + 1024 * 1024 - 1) (S - 1) in
  S <= 2 ^ 53 ->
  stream double req filePath contentType fileStat
  = if start <? S then
      Some {| status := 206;
              headers :=
                [ ("Content-Range"%string,
                   HStr (js "bytes " ++ toString (Num start) ++ js "-"
                         ++ toString (Num end_) ++ js "/" ++ toString (Num S)));
                  ("Accept-Ranges"%string, HStr (js "bytes"));
                  ("Content-Length"%string, HNum (Num (end_ - start + 1)));
                  ("Content-Type"%string, HStr contentType) ];
              body := Pipe filePath (Some (Num start, Num end_)) |}
    else None.
Proof.
  intros Hr Hform Hds Hne S start end_ HS.
  assert (Hminus : CHAR_MINUS ∉ ds).
  { intros Hin. rewrite Forall_forall in Hds. apply Hds in Hin.
    apply isDecimalDigit_range in Hin. unfold CHAR_MINUS in Hin. lia. }
  assert (Hparts :
    exists tl, split CHAR_MINUS (replace_first (js "bytes=") [] r) = ds :: tl
               /\ truthy (tl !! 0%nat) = false).
  { destruct Hform as [-> | ->]; rewrite replace_first_prefix; simpl app.
    - exists [[]]. split; [|done].
      change (js "-") with (CHAR_MINUS :: []). by rewrite split_once.
    - exists []. split; [|done]. by apply split_absent. }
  destruct Hparts as (tl & Hsplit & Hend).
  assert (Htruthy : truthy (Some r) = true).
  { destruct Hform as [-> | ->]; done. }
  pose proof (decimalValue_nonneg ds Hds) as H0. fold start in H0.
  unfold stream. rewrite Hr, Htruthy. simpl default. rewrite Hsplit.
  change ((ds :: tl) !! 1%nat) with (tl !! 0%nat). rewrite Hend.
  change (default [] ((ds :: tl) !! 0%nat)) with ds.
  rewrite (parseInt_digits ds Hds Hne). fold start. fold S.
  destruct (Z.le_gt_cases (2 ^ 53) start) as [Hbig | Hsmall].
  { rewrite (large_start_refused start _ Hbig).
    destruct (Z.ltb_spec start S); [lia|done]. }
  rewrite (toDouble_safe start) by lia.
  assert (Hmin : Math_min (sub (add (Num start) (Num (1024 * 1024))) (Num 1))
                          (sub (Num S) (Num 1))
                 = Num end_).
  { unfold Math_min, sub, add, neg, lt. subst end_.
    destruct (Z.ltb_spec (S + - (1)) (start + 1024 * 1024 + - (1))); f_equal; lia. }
  rewrite Hmin, accepts_integers.
  destruct (Z.ltb_spec start S).
  - rewrite bool_decide_true by (subst end_; lia). reflexivity.
  - rewrite bool_decide_false by (subst end_; lia). reflexivity.
Qed.

(** C1. Whenever the decoded, query-stripped path of a request contains
    the substring [..], the handler answers 403 [Forbidden] and issues no
    file operation ([stat], [readFile] and [createReadStream] are never
    reached); the cache is left as it was. *)
Theorem traversal_forbidden (c : cacheMap) (fs : gmap jsstring Node)
    (req : Request) (p a b : jsstring) :
  decodeURIComponent (queryStripped req) = Some p ->
  p = a ++ js ".." ++ b ->
  handle c fs req = {| response := Some forbidden; fs_ops := []; cache := c |}
  /\ status forbidden = 403.
Proof.
  intros Hd Hp. split; [|done].
  assert (Hi : includes (js "..") p = true).
  { apply includes_spec. by exists a, b. }
  unfold handler. by rewrite Hd, Hi.
Qed.


(** Where the range is served. A range request with a start and no end
    ([bytes=START-] or [bytes=START]) for an existing path with a
    streamable extension and a size [S] of at most [2^53], with
    [START < S], is answered 206 with [Content-Range: bytes START-END/S]
    where [END = min(START + 1MB - 1, S - 1)],
    [Content-Length: END - START + 1] and [Accept-Ranges: bytes], and the
    stream piped into the response is opened on that interval.  With
    [START >= S] nothing is answered. *)
Lemma range_without_end (c : cacheMap) (fs : gmap jsstring Node)
    (req : Request) (p r ds : jsstring) (node : Node) :
  decodeURIComponent (queryStripped req) = Some p ->
  includes (js "..") p = false ->
  fs !! Path.join dirname p = Some node ->
  Path.extname (Path.join dirname p) ∈ STREAMABLE ->
  range req = Some r ->
  (r = js "bytes=" ++ ds ++ js "-" \/ r = js "bytes=" ++ ds) ->
  Forall (fun c => isDecimalDigit c = true) ds ->
  ds <> [] ->
  let S := Z.of_N (size double (nodeStats double node)) in
  let start := decimalValue ds in
  let end_ := Z.min (start + 1024 * 1024 - 1) (S - 1) in
  S <= 2 ^ 53 ->
  exists contentType,
    response (handle c fs req)
    = if start <? S then
        Some {| status := 206;
                headers :=
                  [ ("Content-Range"%string,
                     HStr (js "bytes " ++ toString (Num start) ++ js "-"
                           ++ toString (Num end_) ++ js "/" ++ toString (Num S)));
                    ("Accept-Ranges"%string, HStr (js "bytes"));
                    ("Content-Length"%string, HNum (Num (end_ - start + 1)));
                    ("Content-Type"%string, HStr contentType) ];
                body := Pipe (Path.join dirname p) (Some (Num start, Num end_)) |}
      else None.
Proof.
  intros Hd Hi Hs He Hr Hform Hds Hne S start end_ HS.
  rewrite (handler_streamable c fs req p node Hd Hi Hs He).
  eexists. by apply (stream_start_only req _ _ r _ ds).
Qed.

(** C10. The request URL [/%] carries a malformed escape:
    [decodeURIComponent] throws on it, and since the call sits before the
    [try] block the handler writes no response (neither 404 nor anything
    else) and reaches no file operation, whatever the headers, the file
    system and the cache are. *)
Theorem malformed_escape_unanswered (c : cacheMap) (fs : gmap jsstring Node)
    (r i e : option jsstring) :
  let req := {| url := js "/%"; range := r; if_none_match := i;
                accept_encoding := e |} in
  decodeURIComponent (queryStripped req) = None
  /\ response (handle c fs req) = None
  /\ fs_ops (handle c fs req) = [].
Proof.
  intros req.
  assert (H : decodeURIComponent (queryStripped req) = None) by reflexivity.
  split; [done|]. by rewrite (decode_error_no_response c fs req H).
Qed.

End ServerProperties.

Section ServerExamples.
Import JS Server Sample.

(** A request whose escapes decode to [/a/../secret]. *)
Lemma traversal_forbidden_witness :
  siteHandler site (get (js "/a/%2e%2e/secret"))
  = {| response := Some forbidden; fs_ops := []; cache := ∅ |}
  /\ status forbidden = 403.
Proof.
  apply (traversal_forbidden siteDir Z renderInteger id id ∅ site
           (get (js "/a/%2e%2e/secret")) (js "/a/../secret") (js "/a/") (js "/secret"));
    reflexivity.
Defined.



(** The first megabyte of the video from byte 100 on. *)
Lemma range_without_end_example :
  exists contentType,
    response (siteHandler site (rangeGet (js "/v.mp4?t=1") (js "bytes=100-")))
    = Some {| status := 206;
              headers :=
                [ ("Content-Range"%string, HStr (js "bytes 100-1048675/5000000"));
                  ("Accept-Ranges"%string, HStr (js "bytes"));
                  ("Content-Length"%string, HNum (Num 1048576));
                  ("Content-Type"%string, HStr contentType) ];
              body := Pipe (js "/srv/site/v.mp4")
                        (Some (Num 100, Num 1048675)) |}.
Proof.
  destruct (range_without_end siteDir Z renderInteger id id ∅ site
              (rangeGet (js "/v.mp4?t=1") (js "bytes=100-"))
              (js "/v.mp4") (js "bytes=100-") (js "100") (File Z videoStats []))
    as [contentType H].
  - reflexivity.
  - reflexivity.
  - vm_compute. reflexivity.
  - vm_compute. reflexivity.
  - reflexivity.
  - left. reflexivity.
  - repeat constructor.
  - discriminate.
  - vm_compute. discriminate.
  - exists contentType. exact H.
Qed.

(** C5, the failing input. [/v.mp4] has 5,000,000 bytes and the request
    asks for [bytes=6000000-], a start and no end.  The end is
    [min(6000000 + 1MB - 1, 4999999) = 4999999], below the start: the head
    is given to [writeHead] with 206, then [createReadStream] refuses the
    interval and throws, the [catch] block's [writeHead(404)] throws in
    turn, and the request gets no response, where the claim says 206. *)
Theorem range_start_beyond_file_unanswered :
  site !! Path.join siteDir (js "/v.mp4") = Some (File Z videoStats [])
  /\ Path.extname (Path.join siteDir (js "/v.mp4")) ∈ STREAMABLE
  /\ range (rangeGet (js "/v.mp4") (js "bytes=6000000-")) = Some (js "bytes=6000000-")
  /\ createReadStreamAccepts (Num 6000000) (Num 4999999) = false
  /\ siteHandler site (rangeGet (js "/v.mp4") (js "bytes=6000000-"))
     = {| response := None;
          fs_ops := [OpStat (js "/srv/site/v.mp4");
                     OpCreateReadStream (js "/srv/site/v.mp4")];
          cache := ∅ |}.
Proof. repeat split; vm_compute; reflexivity. Qed.

End ServerExamples.

(* ===================================================================== *)
(** * Properties of the overlay helpers                                   *)
(* ===================================================================== *)

Section GridProperties.
Import JS Overlay.

Lemma getColumnCount_cases (w : number) :
  getColumnCount w = Num 8 \/ getColumnCount w = Num 12
  \/ getColumnCount w = Num 16.
Proof. unfold getColumnCount. repeat case_match; auto. Qed.

(** The rounded-up quotient of a non-negative by a positive integer. *)
Lemma ceil_div_bounds (x y : Z) :
  0 <= x -> 0 < y ->
  exists q, Math_ceil_div (Num x) (Num y) = Num q /\ x <= q * y < x + y.
Proof.
  intros Hx Hy. exists (- (- x / y)). split.
  - unfold Math_ceil_div. destruct (Z.eqb_spec y 0); [lia|done].
  - pose proof (Z.div_mod (- x) y ltac:(lia)).
    pose proof (Z.mod_pos_bound (- x) y Hy). nia.
Qed.

(** On a viewport at least one pixel wide the grid has positive counts and
    covers the viewport plus one extra row. *)
Lemma computeGrid_covers (w h : N) :
  (0 < w)%N ->
  let g := computeGrid {| innerWidth := w; innerHeight := h |} in
  gt (cols g) (Num 0) = true
  /\ gt (rows g) (Num 0) = true
  /\ ge (mul (cols g) (blockW g)) (Num (Z.of_N w)) = true
  /\ ge (mul (rows g) (blockH g)) (add (Num (Z.of_N h)) (blockH g)) = true.
Proof.
  intros Hw g. subst g. unfold computeGrid.
  cbn [cols rows blockW blockH innerWidth innerHeight].
  set (W := Z.of_N w). set (H := Z.of_N h).
  assert (0 < W) by lia. assert (0 <= H) by lia.
  assert (Hc : exists c, getColumnCount (Num W) = Num c /\ 0 < c).
  { destruct (getColumnCount_cases (Num W)) as [-> | [-> | ->]];
      eexists; split; try reflexivity; lia. }
  destruct Hc as (c & -> & Hc).
  destruct (ceil_div_bounds W c ltac:(lia) Hc) as (bw & -> & Hbw).
  assert (0 < bw) by nia.
  destruct (ceil_div_bounds H bw ltac:(lia) ltac:(lia)) as (r & -> & Hr).
  assert (0 <= r) by nia.
  unfold gt, ge, lt, mul, add.
  repeat split.
  - apply Z.ltb_lt. lia.
  - apply Z.ltb_lt. lia.
  - apply negb_true_iff, Z.ltb_ge. nia.
  - apply negb_true_iff, Z.ltb_ge. nia.
Qed.

(** C2, at a viewport of width zero. The cell width is [ceil(0 / 8) = 0],
    so the row count is [ceil(720 / 0) + 1 = Infinity] and
    [rows * blockH] is [NaN], which is not [>= h + blockH]: the grid does
    not satisfy the covering inequality.  With height zero as well the
    row count is [NaN] and not strictly positive. *)
Theorem computeGrid_zero_width :
  computeGrid {| innerWidth := 0; innerHeight := 720 |}
  = {| cols := Num 8; rows := Infinity; blockW := Num 0; blockH := Num 0;
       vh := Num 720 |}
  /\ (let g := computeGrid {| innerWidth := 0; innerHeight := 720 |} in
      mul (rows g) (blockH g) = NaN
      /\ ge (mul (rows g) (blockH g)) (add (Num 720) (blockH g)) = false)
  /\ (let g := computeGrid {| innerWidth := 0; innerHeight := 0 |} in
      rows g = NaN /\ gt (rows g) (Num 0) = false).
Proof. repeat split. Qed.

End GridProperties.

Section OdometerProperties.
Import JS Overlay.

(** The number of digit characters of a price string. *)
Lemma digit_chars (price : jsstring) :
  length (filter (fun c => isDigit c = true) (parsePriceChars price))
  = length (filter (fun c => isDecimalDigit c = true) price).
Proof.
  unfold parsePriceChars. induction price as [|c price IH]; [done|].
  rewrite fmap_cons, !filter_cons. simpl isDigit.
  destruct (decide (isDecimalDigit c = true)); simpl; by rewrite IH.
Qed.

(** One strip per digit character. *)
Lemma mapChars_strips (total i k : nat) (chars : list PriceChar) :
  length (strips (mapChars total i k chars))
  = length (filter (fun c => isDigit c = true) chars).
Proof.
  revert i k. induction chars as [|c chars IH]; intros i k; [done|].
  simpl. unfold strips in *. rewrite !filter_cons.
  destruct (isDigit c) eqn:E; simpl.
  - destruct (decide (true = true)); [|done]. simpl. by rewrite IH.
  - destruct (decide (false = true)); [done|]. apply IH.
Qed.

Lemma odometer_strips (price : jsstring) :
  length (strips (StockPriceOdometer price))
  = length (filter (fun c => isDecimalDigit c = true) price).
Proof. unfold StockPriceOdometer. by rewrite mapChars_strips, digit_chars. Qed.

(** Every character keeps its place: a digit becomes a strip, any other
    character a static [span]. *)
Lemma mapChars_lookup (total i k : nat) (chars : list PriceChar) (j : nat)
    (c : PriceChar) :
  chars !! j = Some c ->
  exists e, mapChars total i k chars !! j = Some e
            /\ if isDigit c then isStrip e = true /\ exists idx cb,
                                 e = OdometerDigit (i + j) (char c) idx cb
               else e = Span (i + j) (char c).
Proof.
  revert i k j. induction chars as [|d chars IH]; intros i k j H; [done|].
  destruct j as [|j]; simpl in H.
  - injection H as ->. simpl. rewrite Nat.add_0_r.
    destruct (isDigit c); simpl; eexists; split; eauto.
  - simpl. destruct (isDigit d); simpl.
    + destruct (IH (S i) (S k) j H) as (e & He & Hk).
      exists e. split; [done|]. by replace (i + S j)%nat with (S i + j)%nat by lia.
    + destruct (IH (S i) k j H) as (e & He & Hk).
      exists e. split; [done|]. by replace (i + S j)%nat with (S i + j)%nat by lia.
Qed.

Lemma odometer_lookup (price : jsstring) (j : nat) (c : N) :
  price !! j = Some c ->
  exists e, StockPriceOdometer price !! j = Some e
            /\ if isDecimalDigit c then exists idx cb, e = OdometerDigit j c idx cb
               else e = Span j c.
Proof.
  intros H. unfold StockPriceOdometer.
  assert (Hc : parsePriceChars price !! j
               = Some {| char := c; isDigit := isDecimalDigit c |}).
  { unfold parsePriceChars. by rewrite list_lookup_fmap, H. }
  destruct (mapChars_lookup
              (length (filter (fun c => isDigit c = true) (parsePriceChars price)))
              0 0 _ j _ Hc) as (e & He & Hk).
  exists e. split; [done|]. simpl in Hk.
  destruct (isDecimalDigit c); [by destruct Hk as [_ ?]|done].
Qed.

(** The strips that carry the callback, when the counter starts at [k] and
    [n] digits follow: one if the index [total - 1] is among
    [k .. k + n - 1], none otherwise. *)
Lemma mapChars_callbacks (total i k : nat) (chars : list PriceChar) :
  let n := length (filter (fun c => isDigit c = true) chars) in
  length (callbacks (mapChars total i k chars))
  = if bool_decide (Z.of_nat k <= Z.of_nat total - 1 < Z.of_nat k + Z.of_nat n)
    then 1%nat else 0%nat.
Proof.
  revert i k. induction chars as [|c chars IH]; intros i k; simpl.
  - rewrite bool_decide_false by lia. done.
  - unfold callbacks in *. rewrite filter_cons.
    destruct (isDigit c) eqn:E; simpl.
    + rewrite filter_cons. destruct (decide (true = true)); [|done]. simpl length.
      specialize (IH (S i) (S k)). simpl in IH.
      destruct (Z.eqb_spec (Z.of_nat k) (Z.of_nat total - 1)) as [Heq|Hne]; simpl.
      * destruct (decide (true = true)); [|done]. simpl. rewrite IH.
        rewrite bool_decide_false by lia. rewrite bool_decide_true by lia. done.
      * destruct (decide (false = true)); [done|]. rewrite IH.
        repeat case_bool_decide; (done || lia).
    + rewrite filter_cons. destruct (decide (false = true)); [done|].
      destruct (decide (false = true)); [done|]. apply IH.
Qed.

(** With at least one digit exactly one strip carries the callback; with
    none, no element does. *)
Lemma odometer_callbacks (price : jsstring) :
  length (callbacks (StockPriceOdometer price))
  = if bool_decide (filter (fun c => isDecimalDigit c = true) price = [])
    then 0%nat else 1%nat.
Proof.
  unfold StockPriceOdometer. rewrite mapChars_callbacks, digit_chars.
  destruct (filter _ price) as [|d ds]; simpl length.
  - rewrite bool_decide_false by lia. by rewrite bool_decide_true.
  - rewrite bool_decide_true by lia. by rewrite bool_decide_false.
Qed.

(** The strip that carries the callback has the highest index, so it is
    the last one to finish. *)
Lemma mapChars_callback_last (total i k : nat) (chars : list PriceChar)
    (e : Element) :
  e ∈ mapChars total i k chars ->
  match e with
  | OdometerDigit _ _ idx cb =>
      (k <= idx < k + length (filter (fun c => isDigit c = true) chars))%nat
      /\ (cb = true <-> Z.of_nat idx = Z.of_nat total - 1)
  | Span _ _ => True
  end.
Proof.
  revert i k. induction chars as [|c chars IH]; intros i k H; simpl in H.
  - by apply elem_of_nil in H.
  - rewrite filter_cons. destruct (isDigit c) eqn:E; simpl in H.
    + destruct (decide (true = true)); [|done].
      apply elem_of_cons in H as [-> | H].
      * split; [simpl; lia|]. rewrite Z.eqb_eq. done.
      * specialize (IH _ _ H). destruct e; [done|].
        destruct IH as [Hr Hcb]. split; [simpl; lia|done].
    + destruct (decide (false = true)); [done|].
      apply elem_of_cons in H as [-> | H]; [done|]. apply (IH _ _ H).
Qed.

Lemma odometer_callback_finishes_last (price : jsstring) (e e' : Element) :
  e ∈ StockPriceOdometer price -> e' ∈ StockPriceOdometer price ->
  match e, e' with
  | OdometerDigit _ _ idx true, OdometerDigit _ _ idx' false =>
      stripEnd idx' < stripEnd idx
  | _, _ => True
  end.
Proof.
  unfold StockPriceOdometer. intros H H'.
  apply mapChars_callback_last in H. apply mapChars_callback_last in H'.
  destruct e as [|? ? idx [|]]; try done. destruct e' as [|? ? idx' [|]]; try done.
  destruct H as [Hr [Hcb _]], H' as [Hr' [_ Hcb']].
  specialize (Hcb eq_refl).
  assert (idx' <> idx) by (intros ->; by specialize (Hcb' Hcb)).
  unfold stripEnd, ODOMETER_STAGGER. lia.
Qed.

(** C3, at a price string without a digit. [N/A] renders three static
    characters and no strip; no element receives the completion callback,
    so completion fires zero times rather than exactly once. *)
Theorem odometer_without_digits :
  StockPriceOdometer (js "N/A") = [Span 0 78; Span 1 47; Span 2 65]
  /\ strips (StockPriceOdometer (js "N/A")) = []
  /\ callbacks (StockPriceOdometer (js "N/A")) = [].
Proof. repeat split. Qed.

End OdometerProperties.

(* ===================================================================== *)
(** * Properties of the phase sequencer                                   *)
(* ===================================================================== *)

Section SequencerProperties.
Import JS Overlay.

Variable cfg : Config.

Lemma effect_in_effects (e : Effect) : e ∈ effects.
Proof. unfold effects. destruct e; set_solver. Qed.

Lemma invoke_vars (e : Effect) (s : State) : vars (invoke cfg e s) = vars s.
Proof. unfold invoke. by destruct (effectBody cfg e (vars s)) as [[d cb]|]. Qed.

Lemma runEffect_vars (old : Vars) (s : State) (e : Effect) :
  vars (runEffect cfg old s e) = vars s.
Proof.
  unfold runEffect. destruct (depsChanged cfg e old (vars s)); [|done].
  by rewrite invoke_vars.
Qed.

Lemma commit_vars_gen (old : Vars) (es : list Effect) (s : State) :
  vars (foldl (runEffect cfg old) s es) = vars s.
Proof.
  revert s. induction es as [|e es IH]; intros s; simpl; [done|].
  by rewrite IH, runEffect_vars.
Qed.

Lemma commit_vars (old : Vars) (s : State) : vars (commit cfg old s) = vars s.
Proof. apply commit_vars_gen. Qed.

Lemma invoke_none (e : Effect) (s : State) :
  effectBody cfg e (vars s) = None -> invoke cfg e s = s.
Proof. intros H. unfold invoke. by rewrite H. Qed.

Lemma foldl_invoke_none (es : list Effect) (s : State) :
  (forall e, effectBody cfg e (vars s) = None) ->
  foldl (fun acc e => invoke cfg e acc) s es = s.
Proof.
  intros H. induction es as [|e es IH]; simpl; [done|].
  by rewrite invoke_none.
Qed.

(** Where the timeouts pending after an effect come from. *)
Lemma runEffect_timers (old : Vars) (s : State) (e : Effect) (t : Timer) :
  t ∈ timers (runEffect cfg old s e) ->
  (t ∈ timers s /\ (owner t = Some e -> depsChanged cfg e old (vars s) = false))
  \/ (owner t = Some e /\ effectBody cfg e (vars s) = Some (delay t, callback t)).
Proof.
  unfold runEffect. destruct (depsChanged cfg e old (vars s)) eqn:Hd.
  - unfold invoke. simpl vars.
    destruct (effectBody cfg e (vars s)) as [[d cb]|] eqn:Hb; simpl.
    + rewrite elem_of_app, list_elem_of_filter, list_elem_of_singleton.
      intros [[Hne Hin] | ->]; [left | right]; [|done].
      split; [done|]. intros Ho. by rewrite Ho in Hne.
    + rewrite list_elem_of_filter. intros [Hne Hin]. left.
      split; [done|]. intros Ho. by rewrite Ho in Hne.
  - intros Hin. left. split; [done|]. done.
Qed.

Lemma commit_timers_gen (old : Vars) (es : list Effect) (s : State) (t : Timer) :
  t ∈ timers (foldl (runEffect cfg old) s es) ->
  (t ∈ timers s
   /\ forall e, e ∈ es -> owner t = Some e -> depsChanged cfg e old (vars s) = false)
  \/ (exists e, owner t = Some e
                /\ effectBody cfg e (vars s) = Some (delay t, callback t)).
Proof.
  revert s. induction es as [|e es IH]; intros s; simpl.
  - intros Hin. left. split; [done|]. intros e He. by apply elem_of_nil in He.
  - intros Hin. apply IH in Hin. rewrite runEffect_vars in Hin.
    destruct Hin as [[Hin Hdeps] | Hfresh]; [|by right].
    apply runEffect_timers in Hin as [[Hin Hd] | [Ho Hb]]; [left | right; eauto].
    split; [done|]. intros e' He' Ho.
    apply elem_of_cons in He' as [-> | He']; [by apply Hd | by apply Hdeps].
Qed.

(** After a commit, a pending timeout is either a fresh one, set by the
    body of its effect in the new state, or an old one whose effect did
    not run again because its dependencies are the same. *)
Lemma commit_timers (old : Vars) (s : State) (t : Timer) :
  t ∈ timers (commit cfg old s) ->
  (t ∈ timers s
   /\ forall e, owner t = Some e -> depsChanged cfg e old (vars s) = false)
  \/ (exists e, owner t = Some e
                /\ effectBody cfg e (vars s) = Some (delay t, callback t)).
Proof.
  intros Hin. apply commit_timers_gen in Hin as [[Hin Hd] | Hf]; [left | by right].
  split; [done|]. intros e Ho. apply Hd; [apply effect_in_effects | done].
Qed.

(** The body of an effect reads its dependencies only. *)
Lemma deps_unchanged_body (e : Effect) (old new : Vars) :
  depsChanged cfg e old new = false ->
  effectBody cfg e new = effectBody cfg e old.
Proof.
  destruct e; unfold depsChanged, effectBody; intros H;
    repeat match goal with
           | H : _ || _ = false |- _ => apply orb_false_iff in H as [? ?]
           | H : negb _ = false |- _ => apply negb_false_iff in H
           | H : bool_decide _ = true |- _ => apply bool_decide_eq_true_1 in H
           end;
    repeat match goal with
           | H : _ = _ |- _ => rewrite <- H; clear H
           end; reflexivity.
Qed.

Lemma cleanup_all_timers (es : list Effect) (s : State) (t : Timer) :
  t ∈ timers (foldl (fun acc e => cleanup e acc) s es) <->
  t ∈ timers s /\ forall e, e ∈ es -> owner t <> Some e.
Proof.
  revert s. induction es as [|e es IH]; intros s; simpl.
  - split; [|tauto]. intros H. split; [done|]. intros e He.
    by apply elem_of_nil in He.
  - rewrite IH. simpl. rewrite list_elem_of_filter. split.
    + intros [[Hne Hin] Hes]. split; [done|]. intros e' He'.
      apply elem_of_cons in He' as [-> | He']; [done | by apply Hes].
    + intros [Hin Hes]. repeat split; [| done |].
      * apply Hes. by left.
      * intros e' He'. apply Hes. by right.
Qed.

Lemma cleanup_all_vars (es : list Effect) (s : State) :
  vars (foldl (fun acc e => cleanup e acc) s es) = vars s.
Proof. revert s. induction es as [|e es IH]; intros s; simpl; [done|]. by rewrite IH. Qed.

Lemma cleanup_all_scheduled (es : list Effect) (s : State) :
  scheduled (foldl (fun acc e => cleanup e acc) s es) = scheduled s.
Proof. revert s. induction es as [|e es IH]; intros s; simpl; [done|]. by rewrite IH. Qed.

(** Once every cleanup has run, the timeouts still pending are the ones no
    effect holds. *)
Lemma unmount_pending (s s' : State) (t : Timer) :
  step cfg Unmount s = Some s' ->
  t ∈ timers s' <-> t ∈ timers s /\ owner t = None.
Proof.
  unfold step. cbv zeta. destruct (inTree (vars s)); [|done].
  intros E. apply (inj Some) in E. subst s'.
  rewrite cleanup_all_timers. simpl. split; intros [Hin Ho]; split; try done.
  - destruct (owner t) as [e|]; [|done]. destruct (Ho e (effect_in_effects e) eq_refl).
  - intros e _. by rewrite Ho.
Qed.

(** What a timeout set by an effect says about the state it was set in. *)
Lemma body_some (e : Effect) (v : Vars) (d : number) (cb : Callback) :
  effectBody cfg e v = Some (d, cb) ->
  match e with
  | EIntro => shouldAnimate cfg v = true /\ phase v = intro /\ cb = SetPhase priceRoll
  | EDayChange => phase v = dayChange /\ cb = SetPhase fadeText
  | EFadeText => phase v = fadeText /\ cb = SetPhase blocks
  | EBlocks => phase v = blocks /\ cb = SetDoneAndMark
  | EReducedMotion =>
      shouldAnimate cfg v = true /\ prefersReducedMotion cfg = true
      /\ cb = SetDoneAndMark
  end.
Proof.
  destruct e; unfold effectBody; intros H;
    repeat case_match; simplify_eq;
    repeat match goal with
           | H : _ || _ = false |- _ => apply orb_false_iff in H as [? ?]
           | H : negb _ = false |- _ => apply negb_false_iff in H
           | H : bool_decide _ = true |- _ => apply bool_decide_eq_true_1 in H
           end; done.
Qed.

Lemma body_idle (e : Effect) (v : Vars) :
  shouldAnimate cfg v = false -> phase v = intro -> effectBody cfg e v = None.
Proof.
  intros Hs Hp. destruct (effectBody cfg e v) as [[d cb]|] eqn:Hb; [|done].
  apply body_some in Hb. destruct e; destruct_and?; congruence.
Qed.

Lemma body_rolling (e : Effect) (v : Vars) :
  phase v = priceRoll -> prefersReducedMotion cfg = false ->
  effectBody cfg e v = None.
Proof.
  intros Hp Hr. destruct (effectBody cfg e v) as [[d cb]|] eqn:Hb; [|done].
  apply body_some in Hb. destruct e; destruct_and?; congruence.
Qed.

(** The strip with the callback is rendered only by the full animation,
    past the intro. *)
Lemma callbackOnScreen_inv (v : Vars) :
  callbackOnScreen cfg v = true ->
  mounted v = true /\ prefersReducedMotion cfg = false /\ phase v <> intro
  /\ callbacks (StockPriceOdometer (stockPrice cfg)) <> [].
Proof.
  unfold callbackOnScreen, render.
  destruct (mounted v); simpl; [|done].
  destruct (negb (shouldAnimate cfg v)); simpl; [done|].
  destruct (bool_decide (phase v = done)); [done|].
  destruct (prefersReducedMotion cfg); [done|].
  destruct (phase v); simpl; try done; intros H%bool_decide_eq_true_1; done.
Qed.

Lemma initial_consistent (st : Storage) : Consistent cfg (initial st).
Proof.
  split; simpl; try (intros; exfalso; eapply not_elem_of_nil; eassumption); auto.
Qed.

Lemma mount_consistent (s : State) :
  Consistent cfg s ->
  inTree (vars s) = true -> mounted (vars s) = false ->
  Consistent cfg (mount cfg s) /\ phase (vars (mount cfg s)) = phase (vars s).
Proof.
  intros C Hin Hm. destruct (before_mount cfg s C Hm) as [Hts Hp].
  unfold mount. cbv zeta. rewrite foldl_invoke_none.
  2:{ intros e. apply body_idle; [|done]. unfold shouldAnimate. by rewrite Hm. }
  rewrite Hts.
  set (s2 := {| vars := _; timers := []; scheduled := _ |}).
  assert (Hfresh : forall t, t ∈ timers (commit cfg (vars s) s2) ->
            exists e, owner t = Some e
                      /\ effectBody cfg e (vars s2) = Some (delay t, callback t)).
  { intros t Ht. apply commit_timers in Ht as [[Ht _] | Hf]; [|done].
    by apply elem_of_nil in Ht. }
  split; [|by rewrite commit_vars].
  split; rewrite ?commit_vars.
  - intros t Ht. destruct (Hfresh t Ht) as (e & Ho & Hb).
    unfold timerOk. by rewrite Ho.
  - intros t1 t2 Ht1 _ Ho. destruct (Hfresh t1 Ht1) as (e & Ho' & _). congruence.
  - intros t Ht Ho. destruct (Hfresh t Ht) as (e & Ho' & _). congruence.
  - done.
  - simpl. congruence.
  - simpl. auto.
Qed.

Lemma rollComplete_consistent (s : State) :
  Consistent cfg s ->
  inTree (vars s) = true -> callbackOnScreen cfg (vars s) = true ->
  rolled (vars s) = false ->
  Consistent cfg
    (handlePriceRollComplete
       {| vars := markRolled (vars s); timers := timers s;
          scheduled := scheduled s |}).
Proof.
  intros C Hin Hc Hr.
  destruct (callbackOnScreen_inv _ Hc) as (Hm & Hred & Hni & _).
  assert (Hp : phase (vars s) = priceRoll).
  { destruct (before_roll cfg s C Hred Hr); [done|done]. }
  assert (Hown : forall t, t ∈ timers s -> owner t <> None).
  { intros t Ht Ho. pose proof (unowned_rolled cfg s C t Ht Ho). congruence. }
  unfold handlePriceRollComplete, setTimeout.
  split; simpl.
  - intros t [Ht | ->%list_elem_of_singleton]%elem_of_app.
    + pose proof (timers_ok cfg s C t Ht) as Hok. unfold timerOk in *.
      destruct (owner t) as [e|] eqn:Ho; [|by destruct (Hown t Ht)].
      rewrite <- Hok. by destruct e.
    + unfold timerOk. simpl. done.
  - intros t1 t2 [Ht1 | ->%list_elem_of_singleton]%elem_of_app
                 [Ht2 | ->%list_elem_of_singleton]%elem_of_app Ho1 Ho2;
      try done; exfalso; eapply Hown; eassumption.
  - done.
  - congruence.
  - congruence.
  - done.
Qed.

Lemma unmount_consistent (s s' : State) :
  Consistent cfg s -> step cfg Unmount s = Some s' ->
  Consistent cfg s' /\ phase (vars s') = phase (vars s).
Proof.
  intros C Hstep.
  assert (Hts : forall t, t ∈ timers s' <-> t ∈ timers s /\ owner t = None).
  { intros t. by apply unmount_pending. }
  assert (Hv : vars s' = leaveTree (vars s)).
  { revert Hstep. unfold step. cbv zeta. destruct (inTree (vars s)); [|done].
    intros E. apply (inj Some) in E. subst s'. by rewrite cleanup_all_vars. }
  split; [|by rewrite Hv].
  split; rewrite ?Hv; simpl.
  - intros t [Ht Ho]%Hts. pose proof (timers_ok cfg s C t Ht) as Hok.
    unfold timerOk in *. rewrite Ho in *. simpl.
    destruct Hok as (Hcb & Hred & _). by repeat split.
  - intros t1 t2 [Ht1 _]%Hts [Ht2 _]%Hts. by apply (unowned_unique cfg s C).
  - intros t [Ht _]%Hts. by apply (unowned_rolled cfg s C).
  - intros Hm. destruct (before_mount cfg s C Hm) as [Hnil Hp]. split; [|done].
    destruct (timers s') as [|t ts] eqn:E; [done|].
    assert (Ht : t ∈ t :: ts) by left.
    apply Hts in Ht as [Ht _]. rewrite Hnil in Ht. by apply elem_of_nil in Ht.
  - intros _ t [_ Ho]%Hts. done.
  - apply (before_roll cfg s C).
Qed.

Lemma phaseIndex_done (p : Phase) : (phaseIndex p <= phaseIndex done)%nat.
Proof. destruct p; simpl; lia. Qed.

Lemma runCallback_fields (cb : Callback) (v : Vars) :
  inTree (runCallback cb v) = inTree v
  /\ mounted (runCallback cb v) = mounted v
  /\ rolled (runCallback cb v) = rolled v
  /\ grid (runCallback cb v) = grid v.
Proof. by destruct cb. Qed.

Lemma setPhase_left_tree (p : Phase) (v : Vars) :
  inTree v = false -> setPhase p v = v.
Proof. intros H. destruct v. simpl in *. subst. reflexivity. Qed.

Lemma consistent_fewer_timers (s : State) (ts : list Timer) (n : nat) :
  Consistent cfg s ->
  (forall t, t ∈ ts -> t ∈ timers s) ->
  Consistent cfg {| vars := vars s; timers := ts; scheduled := n |}.
Proof.
  intros C Hsub. split; simpl.
  - intros t Ht. apply (timers_ok cfg s C), Hsub, Ht.
  - intros t1 t2 Ht1 Ht2. apply (unowned_unique cfg s C); by apply Hsub.
  - intros t Ht. apply (unowned_rolled cfg s C), Hsub, Ht.
  - intros Hm. destruct (before_mount cfg s C Hm) as [Hnil Hp]. split; [|done].
    destruct ts as [|t ts]; [done|].
    assert (Ht : t ∈ timers s) by (apply Hsub; left).
    rewrite Hnil in Ht. by apply elem_of_nil in Ht.
  - intros Hin t Ht. apply (after_unmount cfg s C Hin), Hsub, Ht.
  - apply (before_roll cfg s C).
Qed.

(** A timeout that fires moves the phase forward or leaves it alone. *)
Lemma fire_consistent (s s' : State) (n : nat) :
  Consistent cfg s -> step cfg (Fire n) s = Some s' ->
  Consistent cfg s'
  /\ (phaseIndex (phase (vars s)) <= phaseIndex (phase (vars s')))%nat.
Proof.
  intros C. unfold step. cbv zeta.
  destruct (List.find _ (timers s)) as [t|] eqn:Hf; [|done].
  apply find_some in Hf as [Hin Hid].
  apply Nat.eqb_eq in Hid. apply list_elem_of_In in Hin.
  intros E. apply (inj Some) in E. subst s'.
  pose proof (timers_ok cfg s C t Hin) as Hok.
  assert (Hsub : forall t', t' ∈ filter (fun t' => timerId t' <> n) (timers s) ->
                            t' ∈ timers s /\ timerId t' <> n).
  { intros t' Ht'. apply list_elem_of_filter in Ht'. tauto. }
  destruct (inTree (vars s)) eqn:Htree.
  - (* the instance is in the tree: the callback runs, then the commit *)
    set (v := vars s) in *. set (v2 := runCallback (callback t) v).
    destruct (runCallback_fields (callback t) v) as (Hf1 & Hf2 & Hf3 & _).
    fold v2 in Hf1, Hf2, Hf3.
    assert (Hm : mounted v = true).
    { destruct (mounted v) eqn:Hm; [done|].
      destruct (before_mount cfg s C Hm) as [Hnil _].
      rewrite Hnil in Hin. by apply elem_of_nil in Hin. }
    assert (Hfacts :
      (forall t', t' ∈ filter (fun t' => timerId t' <> n) (timers s) ->
                  owner t' <> None)
      /\ (phaseIndex (phase v) <= phaseIndex (phase v2))%nat
      /\ (prefersReducedMotion cfg = false -> rolled v2 = false ->
          phase v2 = intro \/ phase v2 = priceRoll)).
    { unfold timerOk in Hok. destruct (owner t) as [e|] eqn:Ho.
      - pose proof (body_some _ _ _ _ Hok) as Hb. repeat split.
        + intros t' [Ht' _]%Hsub Ho'.
          pose proof (timers_ok cfg s C t' Ht') as Hok'. unfold timerOk in Hok'.
          rewrite Ho' in Hok'. destruct Hok' as (_ & Hred & Hp).
          rewrite (body_rolling e v (Hp Htree) Hred) in Hok. done.
        + subst v2. destruct e; destruct_and?;
            repeat match goal with H : callback t = _ |- _ => rewrite H end;
            simpl; rewrite ?Htree;
            repeat match goal with H : phase v = _ |- _ => rewrite H end;
            simpl; first [lia | apply phaseIndex_done].
        + intros Hred Hr. rewrite Hf3 in Hr.
          destruct (before_roll cfg s C Hred Hr) as [Hp | Hp]; fold v in Hp;
            subst v2; destruct e; destruct_and?; try congruence;
            repeat match goal with H : callback t = _ |- _ => rewrite H end;
            simpl; rewrite Htree; auto.
      - destruct Hok as (Hcb & Hred & Hp). specialize (Hp Htree). repeat split.
        + intros t' [Ht' Hne]%Hsub Ho'. apply Hne. rewrite <- Hid.
          by apply (unowned_unique cfg s C).
        + subst v2. rewrite Hcb. simpl. rewrite Htree, Hp. simpl. lia.
        + intros _ Hr. rewrite Hf3 in Hr.
          pose proof (unowned_rolled cfg s C t Hin Ho) as Hr'. fold v in Hr'.
          congruence. }
    destruct Hfacts as (Hown & Hmono & Hroll).
    set (s2 := {| vars := v2; timers := _; scheduled := _ |}).
    assert (Hall : forall t', t' ∈ timers (commit cfg v s2) ->
              exists e, owner t' = Some e
                        /\ effectBody cfg e v2 = Some (delay t', callback t')).
    { intros t' Ht'. apply commit_timers in Ht' as [[Ht' Hd] | Hfresh]; [|done].
      simpl in Ht', Hd. pose proof (Hown t' Ht') as Hne.
      destruct (owner t') as [e|] eqn:Ho'; [|done]. exists e. split; [done|].
      rewrite (deps_unchanged_body e v v2 (Hd e eq_refl)).
      apply Hsub in Ht' as [Ht' _].
      pose proof (timers_ok cfg s C t' Ht') as Hok'. unfold timerOk in Hok'.
      by rewrite Ho' in Hok'. }
    split; [|by rewrite commit_vars].
    split; rewrite ?commit_vars; simpl.
    + intros t' Ht'. destruct (Hall t' Ht') as (e & Ho' & Hb).
      unfold timerOk. by rewrite Ho'.
    + intros t1 t2 Ht1 _ Ho1. destruct (Hall t1 Ht1) as (e & Ho' & _). congruence.
    + intros t' Ht' Ho'. destruct (Hall t' Ht') as (e & Ho'' & _). congruence.
    + congruence.
    + congruence.
    + done.
  - (* the instance has left the tree: only the callback runs *)
    pose proof (after_unmount cfg s C Htree t Hin) as Ho.
    unfold timerOk in Hok. rewrite Ho in Hok. destruct Hok as (Hcb & _).
    rewrite Hcb. simpl runCallback. rewrite (setPhase_left_tree _ _ Htree).
    split; [|done].
    apply consistent_fewer_timers; [done|]. intros t' Ht'. by apply Hsub.
Qed.

Lemma step_consistent (ev : Event) (s s' : State) :
  Consistent cfg s -> step cfg ev s = Some s' ->
  Consistent cfg s'
  /\ (phaseIndex (phase (vars s)) <= phaseIndex (phase (vars s')))%nat.
Proof.
  intros C. destruct ev.
  - unfold step. cbv zeta.
    destruct (inTree (vars s)) eqn:Hin; [|done].
    destruct (mounted (vars s)) eqn:Hm; [done|]. simpl.
    intros E. apply (inj Some) in E. subst s'.
    destruct (mount_consistent s C Hin Hm) as [C' Hp]. rewrite Hp. done.
  - by apply fire_consistent.
  - unfold step. cbv zeta.
    destruct (inTree (vars s)) eqn:Hin; [|done].
    destruct (callbackOnScreen cfg (vars s)) eqn:Hc; [|done].
    destruct (rolled (vars s)) eqn:Hr; [done|]. simpl.
    intros E. apply (inj Some) in E. subst s'.
    split; [by apply rollComplete_consistent|done].
  - intros Hstep. destruct (unmount_consistent s s' C Hstep) as [C' Hp].
    rewrite Hp. done.
Qed.

Lemma run_consistent (evs : list Event) (s s' : State) :
  Consistent cfg s -> run cfg evs s = Some s' ->
  Consistent cfg s'
  /\ (phaseIndex (phase (vars s)) <= phaseIndex (phase (vars s')))%nat.
Proof.
  revert s. induction evs as [|ev evs IH]; intros s C; simpl.
  - intros [= ->]. done.
  - destruct (step cfg ev s) as [s1|] eqn:Hstep; [|done]. intros Hrun.
    destruct (step_consistent ev s s1 C Hstep) as [C1 H1].
    destruct (IH s1 C1 Hrun) as [C' H']. split; [done|lia].
Qed.

Lemma phaseIndex_inj (p q : Phase) : phaseIndex p = phaseIndex q -> p = q.
Proof. destruct p, q; simpl; intros H; congruence. Qed.

(** With the props fixed, the phase only advances.  The state holds one
    current phase; along every run of an instance whose props stay as they
    are, the phase either stays or moves strictly forward in the order
    intro, priceRoll, dayChange, fadeText, blocks, done (whatever events
    [evs2] happen between two states of the run), and a phase that has been
    left is never current again. *)
Theorem phases_only_advance (st : Storage) (evs1 evs2 evs3 : list Event)
    (s1 s2 s3 : State) :
  run cfg evs1 (initial st) = Some s1 ->
  run cfg evs2 s1 = Some s2 ->
  run cfg evs3 s2 = Some s3 ->
  (phase (vars s2) = phase (vars s1)
   \/ (phaseIndex (phase (vars s1)) < phaseIndex (phase (vars s2)))%nat)
  /\ (phase (vars s2) <> phase (vars s1) -> phase (vars s3) <> phase (vars s1)).
Proof.
  intros H1 H2 H3.
  destruct (run_consistent evs1 _ _ (initial_consistent st) H1) as [C1 _].
  destruct (run_consistent evs2 _ _ C1 H2) as [C2 L12].
  destruct (run_consistent evs3 _ _ C2 H3) as [_ L23].
  assert (Hcases : phase (vars s2) = phase (vars s1)
                   \/ (phaseIndex (phase (vars s1)) < phaseIndex (phase (vars s2)))%nat).
  { destruct (decide (phaseIndex (phase (vars s1)) = phaseIndex (phase (vars s2))))
      as [E|NE]; [left; symmetry; by apply phaseIndex_inj | right; lia]. }
  split; [done|]. intros Hne Heq. destruct Hcases as [?|Hlt]; [done|].
  rewrite Heq in L23. lia.
Qed.

Lemma callbackOnScreen_animating (v : Vars) :
  callbackOnScreen cfg v = true -> shouldAnimate cfg v = true.
Proof.
  unfold callbackOnScreen, render.
  destruct (mounted v); simpl; [|done].
  by destruct (shouldAnimate cfg v).
Qed.

Lemma runEffect_idle (old : Vars) (s : State) (e : Effect) :
  effectBody cfg e (vars s) = None -> timers s = [] ->
  runEffect cfg old s e = s.
Proof.
  intros Hb Hts. destruct s as [v ts n]. simpl in *. subst ts.
  unfold runEffect, invoke, cleanup. simpl. rewrite Hb.
  by destruct (depsChanged cfg e old v).
Qed.

(** A commit in a state where no effect sets a timeout and none is pending
    changes nothing. *)
Lemma commit_idle (old : Vars) (s : State) :
  (forall e, effectBody cfg e (vars s) = None) -> timers s = [] ->
  commit cfg old s = s.
Proof.
  intros Hb Hts. unfold commit.
  induction effects as [|e es IH]; simpl; [done|].
  by rewrite runEffect_idle.
Qed.

(** With the flag set and no forced replay nothing is ever scheduled. *)
Lemma step_played (ev : Event) (s s' : State) :
  forceReplay cfg = false ->
  scheduled s = 0%nat /\ timers s = [] /\ phase (vars s) = intro
  /\ readFlag SESSION_KEY (sessionStorage (vars s)) = true
  /\ (mounted (vars s) = true -> hasRun (vars s) = true) ->
  step cfg ev s = Some s' ->
  (scheduled s' = 0%nat /\ timers s' = [] /\ phase (vars s') = intro
   /\ readFlag SESSION_KEY (sessionStorage (vars s')) = true
   /\ (mounted (vars s') = true -> hasRun (vars s') = true))
  /\ (mounted (vars s) = true \/ ev = Mount -> mounted (vars s') = true).
Proof.
  intros Hforce (Hn & Hts & Hp & Hflag & Hrun). destruct ev; unfold step; cbv zeta.
  - destruct (inTree (vars s)) eqn:Hin; [|done].
    destruct (mounted (vars s)) eqn:Hm; [done|]. simpl.
    intros E. apply (inj Some) in E. subst s'.
    unfold mount. cbv zeta. rewrite foldl_invoke_none.
    2:{ intros e. apply body_idle; [|done]. unfold shouldAnimate. by rewrite Hm. }
    rewrite commit_idle; simpl.
    + rewrite Hflag. by repeat split.
    + intros e. apply body_idle; [|done].
      unfold shouldAnimate. simpl. by rewrite Hflag, Hforce.
    + done.
  - rewrite Hts. done.
  - destruct (inTree (vars s)); [|done].
    destruct (callbackOnScreen cfg (vars s)) eqn:Hc; [|done].
    exfalso. apply callbackOnScreen_animating in Hc as Ha.
    apply callbackOnScreen_inv in Hc as (Hm & _).
    unfold shouldAnimate in Ha. rewrite Hm, Hforce, (Hrun Hm) in Ha. done.
  - destruct (inTree (vars s)); [|done].
    intros E. apply (inj Some) in E. subst s'.
    rewrite cleanup_all_vars, cleanup_all_scheduled.
    assert (Hnil : timers (foldl (fun acc e => cleanup e acc)
                             {| vars := leaveTree (vars s); timers := timers s;
                                scheduled := scheduled s |} effects) = []).
    { destruct (timers (foldl _ _ _)) as [|t ts] eqn:E; [done|].
      assert (Ht : t ∈ t :: ts) by left. rewrite <- E in Ht.
      apply cleanup_all_timers in Ht as [Ht _]. simpl in Ht.
      rewrite Hts in Ht. by apply elem_of_nil in Ht. }
    rewrite Hnil. simpl.
    split; [|by intros [?|?]]. by repeat split.
Qed.

Lemma run_played (evs : list Event) (s s' : State) :
  forceReplay cfg = false ->
  scheduled s = 0%nat /\ timers s = [] /\ phase (vars s) = intro
  /\ readFlag SESSION_KEY (sessionStorage (vars s)) = true
  /\ (mounted (vars s) = true -> hasRun (vars s) = true) ->
  run cfg evs s = Some s' ->
  (scheduled s' = 0%nat /\ timers s' = []
   /\ (mounted (vars s') = true -> hasRun (vars s') = true))
  /\ (mounted (vars s) = true -> mounted (vars s') = true).
Proof.
  intros Hforce. revert s. induction evs as [|ev evs IH]; intros s Hinv; simpl.
  - intros [= ->]. tauto.
  - destruct (step cfg ev s) as [s1|] eqn:Hstep; [|done]. intros Hrun.
    destruct (step_played ev s s1 Hforce Hinv Hstep) as [Hinv1 Hm1].
    destruct (IH s1 Hinv1 Hrun) as [Hinv' Hm']. split; [done|]. auto.
Qed.

(** C8. With [forceReplay] false and the session flag already set, no
    timeout is ever scheduled, in no state of no run; and once the effects
    of the first commit have run (the mount), the component returns
    [null] in every state that follows. *)
Theorem played_session_is_idle (m : gmap jsstring jsstring) :
  forceReplay cfg = false ->
  m !! SESSION_KEY = Some (js "1") ->
  (forall evs s, run cfg evs (initial (Items m)) = Some s ->
                 scheduled s = 0%nat /\ timers s = [])
  /\ (forall evs s, run cfg (Mount :: evs) (initial (Items m)) = Some s ->
                    render cfg (vars s) = Nothing).
Proof.
  intros Hforce Hflag.
  assert (Hinit : scheduled (initial (Items m)) = 0%nat
                  /\ timers (initial (Items m)) = []
                  /\ phase (vars (initial (Items m))) = intro
                  /\ readFlag SESSION_KEY (sessionStorage (vars (initial (Items m)))) = true
                  /\ (mounted (vars (initial (Items m))) = true ->
                      hasRun (vars (initial (Items m))) = true)).
  { simpl. repeat split; try done. by apply bool_decide_eq_true_2. }
  split.
  - intros evs s Hrun.
    destruct (run_played evs _ _ Hforce Hinit Hrun) as [(? & ? & _) _]. done.
  - intros evs s Hrun. simpl in Hrun.
    assert (Hstep : step cfg Mount (initial (Items m))
                    = Some (mount cfg (initial (Items m)))) by reflexivity.
    destruct (step_played Mount _ _ Hforce Hinit Hstep) as [Hinv1 Hm1].
    destruct (run_played evs _ _ Hforce Hinv1 Hrun) as [(_ & _ & Hrun') Hm'].
    specialize (Hm' (Hm1 (or_intror eq_refl))).
    unfold render, shouldAnimate. rewrite Hm', Hforce, (Hrun' Hm'). done.
Qed.

Lemma no_digit_no_callback (price : jsstring) :
  Forall (fun c => isDecimalDigit c = false) price ->
  callbacks (StockPriceOdometer price) = [].
Proof.
  intros H. apply length_zero_iff_nil. rewrite odometer_callbacks.
  rewrite bool_decide_true; [done|].
  induction H as [|c price Hc _ IH]; [done|].
  rewrite filter_cons. destruct (decide (isDecimalDigit c = true)); [congruence|done].
Qed.

(** While the price has not completed its roll and motion is not reduced,
    the only timeout an effect sets is the one that leaves the intro. *)
Lemma body_before_roll (e : Effect) (v : Vars) (d : number) (cb : Callback) :
  phase v = intro \/ phase v = priceRoll ->
  prefersReducedMotion cfg = false ->
  effectBody cfg e v = Some (d, cb) -> cb = SetPhase priceRoll.
Proof.
  intros Hp Hred Hb. apply body_some in Hb.
  destruct e; destruct_and?; destruct Hp; congruence.
Qed.

Lemma step_no_digit (st : Storage) (ev : Event) (s s' : State) :
  callbacks (StockPriceOdometer (stockPrice cfg)) = [] ->
  prefersReducedMotion cfg = false ->
  Consistent cfg s ->
  (phase (vars s) = intro \/ phase (vars s) = priceRoll)
  /\ sessionStorage (vars s) = st /\ rolled (vars s) = false
  /\ (forall t, t ∈ timers s -> callback t = SetPhase priceRoll) ->
  step cfg ev s = Some s' ->
  ev <> RollComplete
  /\ (phase (vars s') = intro \/ phase (vars s') = priceRoll)
  /\ sessionStorage (vars s') = st /\ rolled (vars s') = false
  /\ (forall t, t ∈ timers s' -> callback t = SetPhase priceRoll).
Proof.
  intros Hnone Hred C (Hp & Hst & Hr & Hts). destruct ev.
  - unfold step. cbv zeta.
    destruct (inTree (vars s)) eqn:Hin; [|done].
    destruct (mounted (vars s)) eqn:Hm; [done|]. simpl.
    intros E. apply (inj Some) in E. subst s'.
    destruct (before_mount cfg s C Hm) as [Hnil Hintro].
    unfold mount. cbv zeta. rewrite foldl_invoke_none.
    2:{ intros e. apply body_idle; [|done]. unfold shouldAnimate. by rewrite Hm. }
    rewrite commit_vars. simpl. repeat split; try done.
    intros t Ht. apply commit_timers in Ht as [[Ht _] | (e & _ & Hb)].
    + simpl in Ht. rewrite Hnil in Ht. by apply elem_of_nil in Ht.
    + simpl in Hb. by apply body_before_roll in Hb.
  - unfold step. cbv zeta.
    destruct (List.find _ (timers s)) as [t|] eqn:Hf; [|done].
    apply find_some in Hf as [Hin _]. apply list_elem_of_In in Hin.
    rewrite (Hts t Hin). simpl runCallback.
    intros E. apply (inj Some) in E. subst s'.
    assert (Hp2 : phase (setPhase priceRoll (vars s)) = intro
                  \/ phase (setPhase priceRoll (vars s)) = priceRoll).
    { simpl. destruct (inTree (vars s)); auto. }
    destruct (inTree (vars s)) eqn:Htree.
    + rewrite commit_vars. simpl. rewrite Htree. repeat split; try done; [auto|].
      intros t' Ht'. apply commit_timers in Ht' as [[Ht' _] | (e & _ & Hb)].
      * simpl in Ht'. apply list_elem_of_filter in Ht' as [_ Ht']. by apply Hts.
      * simpl vars in Hb. by apply body_before_roll in Hb.
    + simpl. rewrite Htree. repeat split; try done.
      intros t' [_ Ht']%list_elem_of_filter. by apply Hts.
  - unfold step. cbv zeta.
    destruct (inTree (vars s)); [|done].
    destruct (callbackOnScreen cfg (vars s)) eqn:Hc; [|done].
    apply callbackOnScreen_inv in Hc as (_ & _ & _ & Hne). done.
  - unfold step. cbv zeta.
    destruct (inTree (vars s)); [|done].
    intros E. apply (inj Some) in E. subst s'.
    rewrite cleanup_all_vars. cbn [leaveTree phase sessionStorage rolled vars].
    repeat split; try done.
    intros t [Ht _]%cleanup_all_timers. by apply Hts.
Qed.

Lemma run_no_digit (st : Storage) (evs : list Event) (s s' : State) :
  callbacks (StockPriceOdometer (stockPrice cfg)) = [] ->
  prefersReducedMotion cfg = false ->
  Consistent cfg s ->
  (phase (vars s) = intro \/ phase (vars s) = priceRoll)
  /\ sessionStorage (vars s) = st /\ rolled (vars s) = false
  /\ (forall t, t ∈ timers s -> callback t = SetPhase priceRoll) ->
  run cfg evs s = Some s' ->
  (RollComplete ∉ evs)
  /\ (phase (vars s') = intro \/ phase (vars s') = priceRoll)
  /\ sessionStorage (vars s') = st /\ rolled (vars s') = false.
Proof.
  intros Hnone Hred. revert s. induction evs as [|ev evs IH]; intros s C Hinv; simpl.
  - intros [= ->]. split; [apply not_elem_of_nil | tauto].
  - destruct (step cfg ev s) as [s1|] eqn:Hstep; [|done]. intros Hrun.
    destruct (step_consistent ev s s1 C Hstep) as [C1 _].
    destruct (step_no_digit st ev s s1 Hnone Hred C Hinv Hstep) as [Hev Hinv1].
    destruct (IH s1 C1 Hinv1 Hrun) as [Hnot Hinv'].
    split; [|done]. apply not_elem_of_cons. split; [congruence|done].
Qed.

(** C9. If the price string has no digit and motion is not reduced, no
    element of the odometer receives the completion callback; in every run
    the roll-complete callback never happens, the phase is [intro] or
    [priceRoll] (so never [done]), and the session storage is what it was
    at the start: the flag is never written. *)
Theorem price_without_digit_stalls (st : Storage) :
  Forall (fun c => isDecimalDigit c = false) (stockPrice cfg) ->
  prefersReducedMotion cfg = false ->
  callbacks (StockPriceOdometer (stockPrice cfg)) = []
  /\ forall evs s,
       run cfg evs (initial st) = Some s ->
       (RollComplete ∉ evs)
       /\ (phase (vars s) = intro \/ phase (vars s) = priceRoll)
       /\ phase (vars s) <> done
       /\ sessionStorage (vars s) = st.
Proof.
  intros Hnd Hred. pose proof (no_digit_no_callback _ Hnd) as Hnone.
  split; [done|]. intros evs s Hrun.
  destruct (run_no_digit st evs (initial st) s Hnone Hred (initial_consistent st))
    as (Hev & Hp & Hst & _); [|done|].
  { simpl. repeat split; auto. intros t Ht. by apply elem_of_nil in Ht. }
  repeat split; try done. destruct Hp as [-> | ->]; done.
Qed.

End SequencerProperties.

Section SequencerExamples.
Import JS Overlay Live Sample.

(** C6, a timeout no cleanup cancels. On the default props: mount, let the
    intro timeout fire, let the last strip finish (so that
    [handlePriceRollComplete] sets its timeout), then unmount.  Every
    cleanup has run, yet the timeout towards [dayChange] is still pending,
    held by no effect, and it can fire on the instance that left the
    tree. *)
Theorem price_roll_timeout_outlives_unmount :
  let s := after desktop freshSession [Mount; Fire 0; RollComplete; Unmount] in
  run desktop [Mount; Fire 0; RollComplete; Unmount] (initial freshSession) = Some s
  /\ inTree (vars s) = false
  /\ timers s = [ {| timerId := 1; delay := Num POST_PRICE_HOLD;
                     callback := SetPhase dayChange; owner := None |} ]
  /\ is_Some (step desktop (Fire 1) s).
Proof. vm_compute. repeat split. eexists. reflexivity. Qed.

(** C7, the failing input. The default props on a fresh session, with a
    price that gains a digit just after the roll has ended.  Counting from
    the moment the odometer appears: the strips of [$3.42] end their rolls
    at 600, 670 and 740 ms, and the last one sets the timeout towards
    [dayChange], due at 890 ms; at 750 ms the parent renders with
    [$3.425], which mounts a strip under key 5, now the one that carries
    [onComplete], ending at 750 + 210 + 600 = 1560 ms; the phase is
    [dayChange] at 890 ms and [fadeText] at 1490 ms, with the timeout
    towards [blocks] due at 1720 ms; the new strip ends at 1560 ms and
    [handlePriceRollComplete] sets a second timeout, due at 1710 ms, that
    no cleanup cancels.  It fires in [fadeText] and sets the phase back to
    [dayChange]: the phase moves backwards, and [dayChange] and then
    [fadeText] are entered a second time. *)
Theorem price_change_reenters_day_change :
  let before :=
    [MountL; FireL 0; StripComplete 1; StripComplete 3; StripComplete 4;
     SetStockPrice (js "$3.425"); FireL 1; FireL 2; StripComplete 5] in
  (exists l,
     liveRun before (start desktop freshSession) = Some l
     /\ stockPrice (props l) = js "$3.425"
     /\ phase (vars (instance l)) = fadeText
     /\ timers (instance l)
        = [ {| timerId := 3; delay := Num (TEXT_FADE_DURATION + 30);
               callback := SetPhase blocks; owner := Some EFadeText |};
            {| timerId := 4; delay := Num POST_PRICE_HOLD;
               callback := SetPhase dayChange; owner := None |} ])
  /\ livePhases (before ++ [FireL 4; FireL 5; FireL 6; FireL 7])
       (start desktop freshSession)
     = Some [intro; priceRoll; priceRoll; priceRoll; priceRoll; priceRoll;
             dayChange; fadeText; fadeText; dayChange; fadeText; blocks; done]
  /\ (phaseIndex dayChange < phaseIndex fadeText)%nat.
Proof.
  split; [|split].
  - eexists. split; [vm_compute; reflexivity|]. repeat split.
  - vm_compute. reflexivity.
  - simpl. lia.
Qed.

(** The intro timeout moves the phase from [intro] to [priceRoll]; two
    events later the phase is not [intro] again. *)
Lemma phases_only_advance_witness :
  (phase (vars (after desktop freshSession [Mount; Fire 0]))
   = phase (vars (after desktop freshSession [Mount]))
   \/ (phaseIndex (phase (vars (after desktop freshSession [Mount])))
       < phaseIndex (phase (vars (after desktop freshSession [Mount; Fire 0]))))%nat)
  /\ (phase (vars (after desktop freshSession [Mount; Fire 0]))
      <> phase (vars (after desktop freshSession [Mount])) ->
      phase (vars (after desktop freshSession [Mount; Fire 0; RollComplete; Fire 1]))
      <> phase (vars (after desktop freshSession [Mount]))).
Proof.
  apply (phases_only_advance desktop freshSession
           [Mount] [Fire 0] [RollComplete; Fire 1]); reflexivity.
Defined.

(** A session that has played: mount, then unmount. *)
Lemma played_session_is_idle_witness :
  (scheduled (after desktop (Items playedItems) [Mount; Unmount]) = 0%nat
   /\ timers (after desktop (Items playedItems) [Mount; Unmount]) = [])
  /\ render desktop (vars (after desktop (Items playedItems) [Mount; Unmount]))
     = Nothing.
Proof.
  split.
  - apply (proj1 (played_session_is_idle desktop playedItems eq_refl eq_refl)
             [Mount; Unmount]). reflexivity.
  - apply (proj2 (played_session_is_idle desktop playedItems eq_refl eq_refl)
             [Unmount]). reflexivity.
Defined.

(** The price [N/A]: after the intro timeout the phase is [priceRoll] and
    nothing is pending. *)
Lemma price_without_digit_stalls_witness :
  callbacks (StockPriceOdometer (stockPrice noQuote)) = []
  /\ (RollComplete ∉ [Mount; Fire 0])
  /\ (phase (vars (after noQuote freshSession [Mount; Fire 0])) = intro
      \/ phase (vars (after noQuote freshSession [Mount; Fire 0])) = priceRoll)
  /\ phase (vars (after noQuote freshSession [Mount; Fire 0])) <> done
  /\ sessionStorage (vars (after noQuote freshSession [Mount; Fire 0])) = freshSession.
Proof.
  assert (Hnd : Forall (fun c => isDecimalDigit c = false) (stockPrice noQuote))
    by (repeat constructor).
  destruct (price_without_digit_stalls noQuote freshSession Hnd eq_refl) as [H0 H].
  split; [exact H0|]. apply (H [Mount; Fire 0]). reflexivity.
Defined.

End SequencerExamples.

(* ===================================================================== *)
(** * Further properties of the static asset server                       *)
(* ===================================================================== *)

Section PathFacts.
Import JS Reading.

Lemma split_nonempty (sep : N) (s : jsstring) : split sep s <> [].
Proof.
  destruct s as [|x s]; simpl; [done|].
  destruct (N.eqb x sep); [done|]. by destruct (split sep s).
Qed.

Lemma split_app (sep : N) (s t : jsstring) :
  split sep (s ++ sep :: t) = split sep s ++ split sep t.
Proof.
  induction s as [|x s IH]; simpl.
  - by rewrite N.eqb_refl.
  - destruct (N.eqb x sep); [by rewrite IH|].
    rewrite IH. pose proof (split_nonempty sep s) as Hne.
    by destruct (split sep s).
Qed.

Lemma join_with_cons (sep w : jsstring) (ws : list jsstring) :
  ws <> [] -> join_with sep (w :: ws) = w ++ sep ++ join_with sep ws.
Proof. by destruct ws. Qed.

(** Joining the segments of a string with the separator gives it back. *)
Lemma join_split (sep : N) (s : jsstring) : join_with [sep] (split sep s) = s.
Proof.
  induction s as [|x s IH]; simpl; [done|].
  pose proof (split_nonempty sep s) as Hne.
  destruct (N.eqb_spec x sep) as [->|_].
  - rewrite join_with_cons by done. by rewrite IH.
  - destruct (split sep s) as [|w ws]; [done|].
    destruct ws as [|w2 ws].
    + simpl in *. by rewrite IH.
    + rewrite join_with_cons by done. rewrite join_with_cons in IH by done.
      by rewrite <- IH.
Qed.

Lemma join_with_segment (sep seg : jsstring) (ws : list jsstring) :
  seg ∈ ws -> exists a b, join_with sep ws = a ++ seg ++ b.
Proof.
  induction ws as [|w ws IH]; [by intros ?%elem_of_nil|].
  intros [-> | Hin]%elem_of_cons.
  - destruct ws as [|w2 ws].
    + exists [], []. simpl. by rewrite app_nil_r.
    + rewrite join_with_cons by done. by exists [], (sep ++ join_with sep (w2 :: ws)).
  - destruct (IH Hin) as (a & b & E).
    rewrite join_with_cons by (intros ->; by apply elem_of_nil in Hin).
    rewrite E. exists (w ++ sep ++ a), b. by rewrite <- !app_assoc.
Qed.

Lemma split_no_separator (sep : N) (s : jsstring) :
  Forall (fun seg => sep ∉ seg) (split sep s).
Proof.
  induction s as [|x s IH]; simpl.
  - constructor; [apply not_elem_of_nil | constructor].
  - destruct (N.eqb_spec x sep) as [->|Hne].
    + constructor; [apply not_elem_of_nil | done].
    + destruct (split sep s) as [|w ws].
      { constructor; [|constructor].
        apply not_elem_of_cons. split; [congruence | apply not_elem_of_nil]. }
      inversion IH; subst. constructor; [|done].
      apply not_elem_of_cons. split; [congruence|done].
Qed.

(** A segment of a string is a substring of it. *)
Lemma split_segment (sep : N) (s seg : jsstring) :
  seg ∈ split sep s -> exists a b, s = a ++ seg ++ b.
Proof.
  intros Hin. destruct (join_with_segment [sep] seg _ Hin) as (a & b & E).
  rewrite join_split in E. eauto.
Qed.

(** Scanning two lists of segments in a row. *)
Lemma normalizeSegments_app (above : bool) (res xs ys : list jsstring) :
  Path.normalizeSegments above res (xs ++ ys)
  = Path.normalizeSegments above
      (reverse (Path.normalizeSegments above res xs)) ys.
Proof.
  revert res. induction xs as [|x xs IH]; intros res; simpl.
  - by rewrite reverse_involutive.
  - repeat case_match; apply IH.
Qed.

(** Without a [..] segment nothing that was kept is ever removed. *)
Lemma normalizeSegments_no_dotdot (above : bool) (res ys : list jsstring) :
  Forall (fun seg => seg <> js "..") ys ->
  Path.normalizeSegments above res ys
  = reverse res ++ filter (fun seg => ¬ (seg = [] \/ seg = js ".")) ys.
Proof.
  intros H. revert res. induction H as [|y ys Hy _ IH]; intros res; simpl.
  - by rewrite filter_nil, app_nil_r.
  - rewrite filter_cons. case_bool_decide as Hd.
    + rewrite decide_False by tauto. apply IH.
    + rewrite bool_decide_false by done. rewrite decide_True by done.
      rewrite IH, reverse_cons, <- app_assoc. done.
Qed.

(** The normal form of an absolute path: a slash, the segments joined by
    slashes, and a slash again if the path ended with one. *)
Lemma normalize_absolute (p : jsstring) :
  Path.isAbsolute p = true ->
  exists trail,
    Path.normalize p
    = js "/" ++ join_with (js "/") (directorySegments p) ++ trail
    /\ (trail = [] \/ trail = js "/").
Proof.
  intros Habs. unfold Path.normalize, directorySegments, Path.normalizeString.
  destruct p as [|x p]; [done|]. rewrite Habs. simpl negb.
  destruct (join_with _ _) as [|y q] eqn:E.
  - exists []. by split; [|left].
  - destruct (Path.endsWithSeparator (x :: p)).
    + exists (js "/"). by split; [|right].
    + exists []. split; [|by left]. by rewrite app_nil_r.
Qed.

End PathFacts.

Section ServerExtras.
Import JS Server Reading.

Variable dirname : jsstring.
Variable double : Type.
Variable doubleToString : Z -> double -> jsstring.
Variable brotliAsync gzipAsync : list Byte.byte -> list Byte.byte.

Local Abbreviation handle :=
  (handler dirname double doubleToString brotliAsync gzipAsync).
Local Abbreviation serveFile :=
  (serve double doubleToString brotliAsync gzipAsync).
Local Abbreviation Node := (Server.Node double).
Local Abbreviation cacheMap := (gmap jsstring (list Byte.byte)).

(** Joining an absolute directory with a string free of [..] keeps the
    segments of the directory and appends segments of the string. *)
Lemma join_contained (u : jsstring) :
  Path.isAbsolute dirname = true ->
  includes (js "..") u = false ->
  exists rest trail,
    Path.join dirname u
    = js "/" ++ join_with (js "/") (directorySegments dirname ++ rest) ++ trail
    /\ (trail = [] \/ trail = js "/")
    /\ Forall (fun seg => seg <> js ".." /\ (CHAR_FORWARD_SLASH ∉ seg)
                          /\ seg ∈ split CHAR_FORWARD_SLASH u) rest.
Proof.
  intros Habs Hinc.
  destruct dirname as [|x d] eqn:Ed; [done|]. rewrite <- Ed in *.
  destruct u as [|y u'] eqn:Eu.
  - exists []. rewrite app_nil_r.
    destruct (normalize_absolute dirname Habs) as (trail & E & Ht).
    exists trail. unfold Path.join. rewrite Ed, <- Ed. by repeat split.
  - rewrite <- Eu in *.
    assert (Hj : Path.join dirname u = Path.normalize (dirname ++ js "/" ++ u)).
    { unfold Path.join. rewrite Ed, Eu. done. }
    assert (Habs' : Path.isAbsolute (dirname ++ js "/" ++ u) = true).
    { rewrite Ed in *. done. }
    destruct (normalize_absolute _ Habs') as (trail & E & Ht).
    assert (Hno : Forall (fun seg => seg <> js "..") (split CHAR_FORWARD_SLASH u)).
    { apply Forall_forall. intros seg Hin ->.
      destruct (split_segment _ _ _ Hin) as (a & b & Hab).
      assert (includes (js "..") u = true) by (apply includes_spec; eauto).
      congruence. }
    exists (filter (fun seg => ¬ (seg = [] \/ seg = js "."))
              (split CHAR_FORWARD_SLASH u)), trail.
    split; [|split; [done|]].
    + rewrite Hj, E. unfold directorySegments.
      change (js "/" ++ u) with (CHAR_FORWARD_SLASH :: u).
      rewrite split_app, normalizeSegments_app.
      rewrite (normalizeSegments_no_dotdot _ _ _ Hno), reverse_involutive. done.
    + apply Forall_forall. intros seg [_ Hin]%list_elem_of_filter.
      rewrite Forall_forall in Hno.
      pose proof (split_no_separator CHAR_FORWARD_SLASH u) as Hsep.
      rewrite Forall_forall in Hsep. repeat split; auto.
Qed.

(** X1. The traversal check is sufficient. If [__dirname] is an absolute
    path, every file operation of the handler ([stat], [readFile],
    [createReadStream]) is issued on a path made of the segments of
    [__dirname] followed by segments of the decoded URL, none of which is
    [..]: no request reaches a file outside the served directory. *)
Theorem file_operations_stay_inside (c : cacheMap) (fs : gmap jsstring Node)
    (req : Request) (op : FsOp) :
  Path.isAbsolute dirname = true ->
  op ∈ fs_ops (handle c fs req) ->
  exists rest trail,
    opPath op
    = js "/" ++ join_with (js "/") (directorySegments dirname ++ rest) ++ trail
    /\ (trail = [] \/ trail = js "/")
    /\ Forall (fun seg => seg <> js ".." /\ CHAR_FORWARD_SLASH ∉ seg) rest.
Proof.
  intros Habs. unfold handler.
  destruct (decodeURIComponent (queryStripped req)) as [u|];
    [|by intros ?%elem_of_nil].
  destruct (includes (js "..") u) eqn:Hinc; [by intros ?%elem_of_nil|].
  destruct (join_contained u Habs Hinc) as (rest & trail & E & Ht & Hrest).
  assert (Hshape : forall op', opPath op' = Path.join dirname u ->
    exists rest trail,
      opPath op'
      = js "/" ++ join_with (js "/") (directorySegments dirname ++ rest) ++ trail
      /\ (trail = [] \/ trail = js "/")
      /\ Forall (fun seg => seg <> js ".." /\ CHAR_FORWARD_SLASH ∉ seg) rest).
  { intros op' ->. exists rest, trail. repeat split; try done.
    eapply Forall_impl; [exact Hrest|]. simpl. tauto. }
  destruct (fs !! Path.join dirname u) as [node|].
  - destruct (bool_decide _).
    + simpl. rewrite !elem_of_cons, elem_of_nil.
      intros [-> | [-> | []]]; by apply Hshape.
    + destruct node as [st data | st].
      * destruct (serve _ _ _ _ _ _ _ _ _ _ _) as [r' c']. simpl.
        rewrite !elem_of_cons, elem_of_nil.
        intros [-> | [-> | []]]; by apply Hshape.
      * simpl. rewrite !elem_of_cons, elem_of_nil.
        intros [-> | [-> | []]]; by apply Hshape.
  - simpl. intros ->%list_elem_of_singleton. by apply Hshape.
Qed.

Lemma stream_status (req : Request) (filePath contentType : jsstring)
    (st : Stats double) (r : Response) :
  stream double req filePath contentType st = Some r ->
  status r = 206 \/ status r = 200.
Proof. unfold stream. repeat case_match; intros [= <-]; auto. Qed.

(** Only a range request can make [createReadStream] throw. *)
Lemma stream_throws (req : Request) (filePath contentType : jsstring)
    (st : Stats double) :
  stream double req filePath contentType st = None ->
  truthy (range req) = true.
Proof. unfold stream. by repeat case_match. Qed.

Lemma serve_status (c : cacheMap) (req : Request)
    (filePath ext contentType : jsstring) (st : Stats double)
    (data : list Byte.byte) :
  status (serveFile c req filePath ext contentType st data).1 = 304
  \/ status (serveFile c req filePath ext contentType st data).1 = 200.
Proof. unfold serve. repeat case_match; simpl; auto. Qed.

(** X2. What a request can be answered with: the status is one of 200,
    206, 304, 403 and 404.  The handler leaves without any response
    whenever decoding the URL throws, and otherwise only on a range request
    for an existing path with a streamable extension whose interval
    [createReadStream] refuses. *)
Theorem handler_outcomes (c : cacheMap) (fs : gmap jsstring Node) (req : Request) :
  match response (handle c fs req) with
  | Some r => status r ∈ [200; 206; 304; 403; 404]
              /\ is_Some (decodeURIComponent (queryStripped req))
  | None =>
      decodeURIComponent (queryStripped req) = None
      \/ exists u node,
           decodeURIComponent (queryStripped req) = Some u
           /\ includes (js "..") u = false
           /\ fs !! Path.join dirname u = Some node
           /\ (Path.extname (Path.join dirname u) ∈ STREAMABLE)
           /\ truthy (range req) = true
           /\ stream double req (Path.join dirname u)
                (default (js "application/octet-stream")
                   (MIME !! Path.extname (Path.join dirname u)))
                (nodeStats double node) = None
  end
  /\ (decodeURIComponent (queryStripped req) = None ->
      response (handle c fs req) = None).
Proof.
  unfold handler.
  destruct (decodeURIComponent (queryStripped req)) as [u|]; [|by split; [left|]].
  split; [|done].
  destruct (includes (js "..") u) eqn:Hi; [simpl; split; [set_solver|eauto]|].
  destruct (fs !! Path.join dirname u) as [node|] eqn:Hfs;
    [|simpl; split; [set_solver|eauto]].
  case_bool_decide as Hext.
  - cbn [response].
    destruct (stream double req _ _ _) as [r|] eqn:Hst.
    + split; [|eauto].
      destruct (stream_status _ _ _ _ _ Hst) as [-> | ->]; repeat constructor.
    + right. exists u, node. repeat split; try done.
      by apply stream_throws in Hst.
  - destruct node as [st data | st]; [|simpl; split; [set_solver|eauto]].
    pose proof (serve_status c req (Path.join dirname u)
                  (Path.extname (Path.join dirname u))
                  (default (js "application/octet-stream")
                     (MIME !! Path.extname (Path.join dirname u))) st data) as Hs.
    destruct (serve _ _ _ _ _ _ _ _ _ _ _) as [r' c']. simpl in *.
    split; [|eauto]. destruct Hs as [-> | ->]; set_solver.
Qed.

(** X3. When the answer is 404: exactly when the URL decodes to a path
    free of [..] and either [stat] fails on the joined path, or the path
    is a directory whose extension is not streamable (so that [readFile]
    fails). *)
Theorem not_found_iff (c : cacheMap) (fs : gmap jsstring Node) (req : Request) :
  response (handle c fs req) = Some notFound
  <-> exists u,
        decodeURIComponent (queryStripped req) = Some u
        /\ includes (js "..") u = false
        /\ (fs !! Path.join dirname u = None
            \/ ((Path.extname (Path.join dirname u) ∉ STREAMABLE)
                /\ exists st, fs !! Path.join dirname u = Some (Directory double st))).
Proof.
  unfold handler.
  destruct (decodeURIComponent (queryStripped req)) as [u|];
    [|split; [done | by intros (? & ? & _)]].
  destruct (includes (js "..") u) eqn:Hinc.
  { split; [done|]. intros (u' & [= <-] & Hi & _). congruence. }
  destruct (fs !! Path.join dirname u) as [node|] eqn:Hfs.
  2:{ split; [|done]. intros _. exists u. auto. }
  case_bool_decide as Hext.
  - simpl. split.
    + intros E. destruct (stream_status _ _ _ _ _ E) as [Hs | Hs]; done.
    + intros (u' & [= <-] & _ & [? | [Hne _]]); [congruence | done].
  - destruct node as [st data | st].
    + pose proof (serve_status c req (Path.join dirname u)
                    (Path.extname (Path.join dirname u))
                    (default (js "application/octet-stream")
                       (MIME !! Path.extname (Path.join dirname u))) st data) as Hs.
      destruct (serve _ _ _ _ _ _ _ _ _ _ _) as [r' c']. simpl in *. split.
      * intros [= ->]. destruct Hs; done.
      * intros (u' & [= <-] & _ & [? | [_ [st' ?]]]); congruence.
    + simpl. split; [|done]. intros _. exists u. repeat split; eauto.
Qed.

(** The compression cache after serving a file holds everything it held
    before. *)
Lemma serve_cache_grows (c : cacheMap) (req : Request)
    (filePath ext contentType : jsstring) (st : Stats double)
    (data : list Byte.byte) :
  c ⊆ (serveFile c req filePath ext contentType st data).2.
Proof.
  unfold serve. repeat case_match; simpl; try done;
    apply insert_subseteq;
    match goal with
    | H : bool_decide (is_Some ?o) = false |- _ =>
        apply bool_decide_eq_false in H; by apply eq_None_not_Some
    end.
Qed.

(** Serving the same file again from the cache just produced. *)
Lemma serve_again (c : cacheMap) (req : Request)
    (filePath ext contentType : jsstring) (st : Stats double)
    (data : list Byte.byte) :
  let out := serveFile c req filePath ext contentType st data in
  serveFile out.2 req filePath ext contentType st data = out.
Proof.
  unfold serve.
  destruct (bool_decide (if_none_match req = Some _)); [done|].
  destruct (bool_decide (ext ∈ COMPRESSIBLE) && _); [|done].
  cbv zeta.
  set (key := filePath ++ js ":" ++ doubleToString 10 (mtimeMs double st)).
  assert (Hboth : forall (name k : jsstring) (v : list Byte.byte) hs,
    let c' := if bool_decide (is_Some (c !! k)) then c else <[k := v]> c in
    (({| status := 200; headers := hs name;
         body := EndData (default [] (c' !! k)) |}, c') : Response * cacheMap)
    = ({| status := 200; headers := hs name;
          body := EndData
                    (default []
                       ((if bool_decide (is_Some (c' !! k)) then c'
                         else <[k := v]> c') !! k)) |},
       if bool_decide (is_Some (c' !! k)) then c' else <[k := v]> c')).
  { intros name k v hs c'. subst c'.
    destruct (decide (is_Some (c !! k))) as [Hk|Hk].
    - by rewrite !(bool_decide_true (is_Some (c !! k))) by done.
    - rewrite !(bool_decide_false (is_Some (c !! k))) by done.
      by rewrite !bool_decide_true by (rewrite lookup_insert_eq; eauto). }
  destruct (includes (js "br") _).
  - symmetry. apply (Hboth (js "br") (key ++ js ":br") (brotliAsync data)
                       (fun name => _ ++ [(_, HStr name); _])).
  - destruct (includes (js "gzip") _); [|done].
    symmetry. apply (Hboth (js "gzip") (key ++ js ":gz") (gzipAsync data)
                       (fun name => _ ++ [(_, HStr name); _])).
Qed.

(** X4. The compression cache only grows: whatever a request does, every
    entry the cache held before is still there, with the same bytes
    (nothing is evicted or replaced). *)
Theorem cache_only_grows (c : cacheMap) (fs : gmap jsstring Node) (req : Request) :
  c ⊆ cache (handle c fs req).
Proof.
  unfold handler. repeat case_match; simpl; try done.
  match goal with
  | H : serve _ _ _ _ ?c ?rq ?p ?e ?t ?s ?d = (_, ?c') |- _ =>
      pose proof (serve_cache_grows c rq p e t s d) as Hg; by rewrite H in Hg
  end.
Qed.

(** X5. Repeating a request against the cache the first answer left gives
    the same response and leaves that cache as it is: the compressed bytes
    are computed once and served from the cache afterwards. *)
Theorem repeated_request_served_from_cache (c : cacheMap)
    (fs : gmap jsstring Node) (req : Request) :
  handle (cache (handle c fs req)) fs req = handle c fs req.
Proof.
  unfold handler. repeat case_match; simpl; try done.
  match goal with
  | H : serve _ _ _ _ c ?rq ?p ?e ?t ?s ?d = (_, ?c'),
    H' : serve _ _ _ _ _ ?rq ?p ?e ?t ?s ?d = _ |- _ =>
      pose proof (serve_again c rq p e t s d) as Ha;
      rewrite H in Ha; simpl in *; rewrite Ha in H'; by injection H' as -> ->
  end.
Qed.

End ServerExtras.

Section NumeralFacts.
Import JS Reading.

Lemma radixValue_snoc (radix : Z) (s : jsstring) (c : N) :
  radixValue radix (s ++ [c]) = radix * radixValue radix s + charDigit c.
Proof. unfold radixValue. by rewrite foldl_app. Qed.

Lemma charDigit_digitChar (d : Z) : 0 <= d < 36 -> charDigit (digitChar d) = d.
Proof.
  intros H. unfold charDigit, digitChar.
  destruct (Z.ltb_spec d 10).
  - rewrite (proj2 (N.leb_le _ _)) by lia. lia.
  - rewrite (proj2 (N.leb_gt _ _)) by lia. lia.
Qed.

(** [digits_aux] writes the numeral of [z] in front of what it was given. *)
Lemma digits_aux_spec (radix : Z) (fuel : nat) (z : Z) (acc : jsstring) :
  2 <= radix <= 36 -> 0 <= z < radix ^ Z.of_nat (S fuel) ->
  exists pre, digits_aux (S fuel) radix z acc = pre ++ acc
              /\ radixValue radix pre = z /\ pre <> []
              /\ Forall (digitOf radix) pre.
Proof.
  intros Hr. revert z acc. induction fuel as [|fuel IH]; intros z acc Hz;
    pose proof (Z.mod_pos_bound z radix ltac:(lia)) as Hm;
    pose proof (Z.div_mod z radix ltac:(lia)) as Hdm;
    assert (Hd : digitOf radix (digitChar (z mod radix))) by (by eexists);
    assert (Hone : z / radix = 0 ->
      exists pre, digitChar (z mod radix) :: acc = pre ++ acc
                  /\ radixValue radix pre = z /\ pre <> []
                  /\ Forall (digitOf radix) pre)
      by (intros Hq; exists [digitChar (z mod radix)];
          repeat split; [| done | by repeat constructor];
          unfold radixValue; simpl; rewrite charDigit_digitChar by lia; lia).
  - assert (Hq : z / radix = 0) by (apply Z.div_small; simpl in Hz; lia).
    simpl digits_aux. rewrite Hq. simpl. by apply Hone.
  - change (digits_aux (S (S fuel)) radix z acc)
      with (let acc' := digitChar (z mod radix) :: acc in
            if z / radix =? 0 then acc'
            else digits_aux (S fuel) radix (z / radix) acc').
    cbv zeta. destruct (Z.eqb_spec (z / radix) 0) as [Hq|Hq]; [by apply Hone|].
    assert (Hb : 0 <= z / radix < radix ^ Z.of_nat (S fuel)).
    { split; [apply Z.div_pos; lia|].
      apply Z.div_lt_upper_bound; [lia|].
      rewrite (Nat2Z.inj_succ (S fuel)), Z.pow_succ_r in Hz by lia. lia. }
    destruct (IH (z / radix) (digitChar (z mod radix) :: acc) Hb)
      as (pre & E & Hv & Hne & Hall).
    exists (pre ++ [digitChar (z mod radix)]). repeat split.
    + by rewrite E, <- app_assoc.
    + rewrite radixValue_snoc, Hv, charDigit_digitChar by lia. lia.
    + by destruct pre.
    + apply Forall_app. split; [done | by repeat constructor].
Qed.

Lemma digits_spec (radix z : Z) :
  2 <= radix <= 36 -> 0 <= z ->
  radixValue radix (digits radix z) = z /\ digits radix z <> []
  /\ Forall (digitOf radix) (digits radix z).
Proof.
  intros Hr Hz. unfold digits.
  destruct (digits_aux_spec radix (Z.to_nat (Z.log2 z)) z [] Hr)
    as (pre & E & Hv & Hne & Hall).
  - split; [done|].
    rewrite Nat2Z.inj_succ, Z2Nat.id by apply Z.log2_nonneg.
    destruct (Z.eq_dec z 0) as [->|Hnz].
    + simpl. lia.
    + pose proof (Z.log2_spec z ltac:(lia)) as [_ Hlt].
      eapply Z.lt_le_trans; [exact Hlt|].
      apply Z.pow_le_mono_l. lia.
  - rewrite app_nil_r in E. by rewrite E.
Qed.

Lemma digitOf_not_minus (radix : Z) (c : N) :
  digitOf radix c -> c <> CHAR_MINUS.
Proof.
  intros (d & Hd & ->). unfold digitChar, CHAR_MINUS.
  destruct (d <? 10); lia.
Qed.

Lemma digitOf_decimal (c : N) :
  digitOf 10 c -> isDecimalDigit c = true /\ charDigit c = Z.of_N c - 48.
Proof.
  intros (d & Hd & ->). unfold digitChar.
  destruct (Z.ltb_spec d 10); [|lia]. split.
  - apply isDecimalDigit_range. lia.
  - unfold charDigit. rewrite (proj2 (N.leb_le _ _)) by lia. done.
Qed.

Lemma decimalValue_radixValue (ds : jsstring) :
  Forall (digitOf 10) ds -> decimalValue ds = radixValue 10 ds.
Proof.
  unfold decimalValue, radixValue. generalize 0.
  induction ds as [|c ds IH]; intros a H; simpl; [done|].
  inversion H as [|? ? Hc Hds]; subst.
  destruct (digitOf_decimal c Hc) as [_ ->]. by apply IH.
Qed.

(** The decimal numeral of a non-negative integer is a non-empty string of
    decimal digits with that value. *)
Lemma decimal_numeral (n : Z) :
  0 <= n ->
  Forall (fun c => isDecimalDigit c = true) (digits 10 n)
  /\ digits 10 n <> [] /\ decimalValue (digits 10 n) = n.
Proof.
  intros Hn. destruct (digits_spec 10 n ltac:(lia) Hn) as (Hv & Hne & Hall).
  repeat split; [|done|].
  - eapply Forall_impl; [exact Hall|]. intros c Hc. by apply digitOf_decimal.
  - by rewrite decimalValue_radixValue.
Qed.

(** Reading back a number written in decimal. *)
Lemma parseInt_toString (z : Z) :
  Z.abs z <= 2 ^ 53 -> parseInt (toString (Num z)) = Num z.
Proof.
  intros Hz.
  unfold toString, toStringRadix. destruct (Z.ltb_spec z 0) as [Hneg|Hpos].
  - destruct (decimal_numeral (- z) ltac:(lia)) as (Hall & Hne & Hv).
    unfold parseInt. simpl trimStart.
    change (isStrWhiteSpaceChar CHAR_MINUS) with false. cbv iota.
    rewrite N.eqb_refl.
    pose proof (digitPrefix_digits (digits 10 (- z)) None [] Hall Hne I) as E.
    rewrite app_nil_r in E. rewrite E. simpl default.
    fold (decimalValue (digits 10 (- z))). rewrite Hv.
    rewrite toDouble_safe by lia. f_equal. lia.
  - destruct (decimal_numeral z Hpos) as (Hall & Hne & Hv).
    rewrite parseInt_digits, Hv by done. by apply toDouble_safe.
Qed.

(** Two strings that agree up to and after their first separator. *)
Lemma app_separator_inj (sep : N) (a b x y : jsstring) :
  sep ∉ a -> sep ∉ b -> a ++ sep :: x = b ++ sep :: y -> a = b.
Proof.
  revert b. induction a as [|c a IH]; intros b Ha Hb E.
  - destruct b as [|d b]; [done|]. simpl in E. injection E as -> _.
    exfalso. apply Hb. by left.
  - destruct b as [|d b]; simpl in E.
    + injection E as -> _. exfalso. apply Ha. by left.
    + injection E as -> E. f_equal.
      apply IH; [intros H; apply Ha; by right | intros H; apply Hb; by right | done].
Qed.

End NumeralFacts.

Section RangeAndValidators.
Import JS Server Reading.

Variable dirname : jsstring.
Variable double : Type.
Variable doubleToString : Z -> double -> jsstring.
Variable brotliAsync gzipAsync : list Byte.byte -> list Byte.byte.

Local Abbreviation handle :=
  (handler dirname double doubleToString brotliAsync gzipAsync).
Local Abbreviation etag := (etagOf double doubleToString).
Local Abbreviation Node := (Server.Node double).
Local Abbreviation cacheMap := (gmap jsstring (list Byte.byte)).

(** X6. An open-ended range on a file of at most [2^53] bytes. For
    [bytes=START-], with [START] a string of decimal digits of value [n],
    on a streamable path of size [S]: if [n < S] the answer is 206 with
    [Content-Range: bytes n-e/S] and [Content-Length: L], the stream opened
    on [n, e], where [n <= e <= S - 1] and [1 <= L <= 1048576] (the
    interval lies in the file and holds at most one megabyte); if
    [n >= S] the interval ends before it starts, [createReadStream]
    throws, and nothing is answered. *)
Theorem open_range_length (c : cacheMap) (fs : gmap jsstring Node)
    (req : Request) (u ds : jsstring) (node : Node) :
  decodeURIComponent (queryStripped req) = Some u ->
  includes (js "..") u = false ->
  fs !! Path.join dirname u = Some node ->
  Path.extname (Path.join dirname u) ∈ STREAMABLE ->
  Forall (fun c => isDecimalDigit c = true) ds -> ds <> [] ->
  range req = Some (js "bytes=" ++ ds ++ js "-") ->
  let S := Z.of_N (size double (nodeStats double node)) in
  let n := decimalValue ds in
  S <= 2 ^ 53 ->
  (n < S ->
   exists resp e L,
     response (handle c fs req) = Some resp
     /\ status resp = 206
     /\ headerOf "Content-Range" resp
        = Some (HStr (js "bytes " ++ toString (Num n) ++ js "-"
                      ++ toString (Num e) ++ js "/" ++ toString (Num S)))
     /\ headerOf "Content-Length" resp = Some (HNum (Num L))
     /\ body resp = Pipe (Path.join dirname u) (Some (Num n, Num e))
     /\ L = e - n + 1
     /\ n <= e <= S - 1 /\ 1 <= L <= 1024 * 1024)
  /\ (S <= n -> response (handle c fs req) = None).
Proof.
  intros Hd Hi Hs He Hall Hne Hr S n HS.
  rewrite (handler_streamable dirname double doubleToString brotliAsync gzipAsync
             c fs req u node Hd Hi Hs He).
  rewrite (stream_start_only double req _ _ _ _ ds Hr
             (or_introl eq_refl) Hall Hne HS).
  fold S n. split; intros Hn.
  - destruct (Z.ltb_spec n S); [|lia].
    eexists _, (Z.min (n + 1024 * 1024 - 1) (S - 1)), _.
    split; [reflexivity|]. repeat split; try reflexivity; lia.
  - destruct (Z.ltb_spec n S); [lia|done].
Qed.

(** The parts of a range header with both ends, or with the end only. *)
Lemma range_parts (ds1 ds2 : jsstring) :
  CHAR_MINUS ∉ ds1 -> CHAR_MINUS ∉ ds2 ->
  split CHAR_MINUS (replace_first (js "bytes=") [] (js "bytes=" ++ ds1 ++ js "-" ++ ds2))
  = [ds1; ds2].
Proof.
  intros H1 H2. rewrite replace_first_prefix. simpl app.
  change (js "-" ++ ds2) with (CHAR_MINUS :: ds2).
  by rewrite split_once, split_absent.
Qed.

Lemma digits_no_minus (ds : jsstring) :
  Forall (fun c => isDecimalDigit c = true) ds -> CHAR_MINUS ∉ ds.
Proof.
  intros H Hin. rewrite Forall_forall in H. apply H in Hin.
  apply isDecimalDigit_range in Hin. unfold CHAR_MINUS in Hin. lia.
Qed.

(** The interval of a range header with both ends, or with the end
    only. *)
Lemma stream_both_ends (req : Request) (filePath contentType ds1 ds2 : jsstring)
    (fileStat : Stats double) :
  CHAR_MINUS ∉ ds1 ->
  Forall (fun c => isDecimalDigit c = true) ds2 -> ds2 <> [] ->
  range req = Some (js "bytes=" ++ ds1 ++ js "-" ++ ds2) ->
  let total := Num (Z.of_N (size double fileStat)) in
  let start := parseInt ds1 in
  let end_ := toDouble (decimalValue ds2) in
  stream double req filePath contentType fileStat
  = if createReadStreamAccepts start end_ then
      Some {| status := 206;
              headers :=
                [ ("Content-Range"%string,
                   HStr (js "bytes " ++ toString start ++ js "-" ++ toString end_
                         ++ js "/" ++ toString total));
                  ("Accept-Ranges"%string, HStr (js "bytes"));
                  ("Content-Length"%string, HNum (add (sub end_ start) (Num 1)));
                  ("Content-Type"%string, HStr contentType) ];
              body := Pipe filePath (Some (start, end_)) |}
    else None.
Proof.
  intros H1 H2 Hne2 Hr total start end_.
  assert (Ht0 : truthy (Some (js "bytes=" ++ ds1 ++ js "-" ++ ds2)) = true) by done.
  unfold stream. rewrite Hr, Ht0.
  change (default [] (Some ?x)) with x.
  rewrite (range_parts ds1 ds2) by (done || by apply digits_no_minus).
  change ([ds1; ds2] !! 1%nat) with (Some ds2).
  change (default [] ([ds1; ds2] !! 0%nat)) with ds1.
  change (default [] (Some ds2)) with ds2.
  assert (Ht : truthy (Some ds2) = true) by (by destruct ds2).
  rewrite Ht, (parseInt_digits ds2 H2 Hne2). reflexivity.
Qed.

(** X7. An explicit end is not clamped to the file. For [bytes=A-B] with
    [A] and [B] below [2^53], on a streamable path whose size is below
    [2^53]: if [A <= B] the handler answers 206 with the interval [A, B]
    and [Content-Length: B - A + 1] whatever the size of the file, even
    when [B], or [A], lies beyond its end; if [B < A]
    [createReadStream] throws and nothing is answered. *)
Theorem closed_range_not_clamped (c : cacheMap) (fs : gmap jsstring Node)
    (req : Request) (u ds1 ds2 : jsstring) (node : Node) :
  decodeURIComponent (queryStripped req) = Some u ->
  includes (js "..") u = false ->
  fs !! Path.join dirname u = Some node ->
  Path.extname (Path.join dirname u) ∈ STREAMABLE ->
  Forall (fun c => isDecimalDigit c = true) ds1 -> ds1 <> [] ->
  Forall (fun c => isDecimalDigit c = true) ds2 -> ds2 <> [] ->
  range req = Some (js "bytes=" ++ ds1 ++ js "-" ++ ds2) ->
  let S := Z.of_N (size double (nodeStats double node)) in
  let A := decimalValue ds1 in
  let B := decimalValue ds2 in
  A < 2 ^ 53 -> B < 2 ^ 53 -> S < 2 ^ 53 ->
  (A <= B ->
   exists resp,
     response (handle c fs req) = Some resp
     /\ status resp = 206
     /\ headerOf "Content-Range" resp
        = Some (HStr (js "bytes " ++ toString (Num A) ++ js "-"
                      ++ toString (Num B) ++ js "/" ++ toString (Num S)))
     /\ headerOf "Content-Length" resp = Some (HNum (Num (B - A + 1)))
     /\ body resp = Pipe (Path.join dirname u) (Some (Num A, Num B)))
  /\ (B < A -> response (handle c fs req) = None).
Proof.
  intros Hd Hi Hs He H1 Hne1 H2 Hne2 Hr S A B HA HB HS.
  pose proof (decimalValue_nonneg ds1 H1) as HA0.
  pose proof (decimalValue_nonneg ds2 H2) as HB0. fold A in HA0. fold B in HB0.
  rewrite (handler_streamable dirname double doubleToString brotliAsync gzipAsync
             c fs req u node Hd Hi Hs He).
  rewrite (stream_both_ends req _ _ ds1 ds2 _ (digits_no_minus ds1 H1) H2 Hne2 Hr).
  rewrite (parseInt_digits ds1 H1 Hne1). fold A B.
  rewrite (toDouble_safe A), (toDouble_safe B) by lia.
  rewrite accepts_integers. split; intros HAB.
  - rewrite bool_decide_true by lia.
    eexists. split; [reflexivity|]. by repeat split.
  - by rewrite bool_decide_false by lia.
Qed.

(** X8. A suffix range is never answered. For [bytes=-B] the start is
    [parseInt('')], that is [NaN]: the head is given to [writeHead] with
    206, then [createReadStream] refuses the start and throws, the
    [catch] block's [writeHead(404)] throws in turn, and the request gets
    no response. *)
Theorem suffix_range_unanswered (c : cacheMap) (fs : gmap jsstring Node)
    (req : Request) (u ds : jsstring) (node : Node) :
  decodeURIComponent (queryStripped req) = Some u ->
  includes (js "..") u = false ->
  fs !! Path.join dirname u = Some node ->
  Path.extname (Path.join dirname u) ∈ STREAMABLE ->
  Forall (fun c => isDecimalDigit c = true) ds -> ds <> [] ->
  range req = Some (js "bytes=-" ++ ds) ->
  parseInt [] = NaN
  /\ handle c fs req
     = {| response := None;
          fs_ops := [OpStat (Path.join dirname u);
                     OpCreateReadStream (Path.join dirname u)];
          cache := c |}.
Proof.
  intros Hd Hi Hs He Hds Hne Hr. split; [reflexivity|].
  unfold handler. rewrite Hd, Hi, Hs. rewrite bool_decide_true by done.
  cbv zeta. f_equal.
  change (js "bytes=-" ++ ds) with (js "bytes=" ++ [] ++ js "-" ++ ds) in Hr.
  by rewrite (stream_both_ends req _ _ [] ds _ (not_elem_of_nil _) Hds Hne Hr).
Qed.

(** X9. The ETag tells sizes apart: two files whose ETags are equal have
    the same size, however the modification times are rendered. *)
Theorem etag_determines_size (st st' : Stats double) :
  etag st = etag st' -> size double st = size double st'.
Proof.
  unfold etagOf. intros E.
  injection E as E.
  assert (Hh : forall n : N,
    radixValue 16 (toStringRadix 16 (Num (Z.of_N n))) = Z.of_N n
    /\ CHAR_MINUS ∉ toStringRadix 16 (Num (Z.of_N n))).
  { intros n. unfold toStringRadix.
    destruct (Z.ltb_spec (Z.of_N n) 0); [lia|].
    destruct (digits_spec 16 (Z.of_N n) ltac:(lia) ltac:(lia)) as (Hv & _ & Hall).
    split; [done|]. intros Hin. rewrite Forall_forall in Hall.
    by apply (digitOf_not_minus 16 _ (Hall _ Hin)). }
  destruct (Hh (size double st)) as [Hv Hm], (Hh (size double st')) as [Hv' Hm'].
  change (js "-" ++ ?x) with (CHAR_MINUS :: x) in E.
  apply app_separator_inj in E; [|done|done].
  apply N2Z.inj. rewrite <- Hv, <- Hv'. f_equal. exact E.
Qed.

End RangeAndValidators.

Section Compression.
Import JS Server Reading.

Variable dirname : jsstring.
Variable double : Type.
Variable doubleToString : Z -> double -> jsstring.
Variable brotliAsync gzipAsync : list Byte.byte -> list Byte.byte.

Local Abbreviation handle :=
  (handler dirname double doubleToString brotliAsync gzipAsync).
Local Abbreviation etag := (etagOf double doubleToString).
Local Abbreviation Node := (Server.Node double).
Local Abbreviation cacheMap := (gmap jsstring (list Byte.byte)).

Lemma compressible_not_streamable (ext : jsstring) :
  ext ∈ COMPRESSIBLE -> ext ∉ STREAMABLE.
Proof.
  unfold COMPRESSIBLE, STREAMABLE.
  rewrite !elem_of_list_to_set, !elem_of_cons, !elem_of_nil.
  intros H [-> | [-> | []]]; repeat destruct H as [H | H]; done.
Qed.

(** X10. A file of at most 1024 bytes is never compressed: whatever the
    request accepts, a regular file with a non-streamable extension whose
    ETag is not matched is answered 200 with its bytes as they are, the
    three headers [Content-Type], [ETag] and [Cache-Control], and the cache
    is not touched. *)
Theorem small_file_served_plain (c : cacheMap) (fs : gmap jsstring Node)
    (req : Request) (u : jsstring) (st : Stats double) (data : list Byte.byte) :
  decodeURIComponent (queryStripped req) = Some u ->
  includes (js "..") u = false ->
  fs !! Path.join dirname u = Some (File double st data) ->
  Path.extname (Path.join dirname u) ∉ STREAMABLE ->
  if_none_match req <> Some (etag st) ->
  (length data <= 1024)%nat ->
  let filePath := Path.join dirname u in
  let ext := Path.extname filePath in
  handle c fs req
  = {| response :=
         Some {| status := 200;
                 headers :=
                   [ ("Content-Type"%string,
                      HStr (default (js "application/octet-stream") (MIME !! ext)));
                     ("ETag"%string, HStr (etag st));
                     ("Cache-Control"%string, HStr (cacheControl ext)) ];
                 body := EndData data |};
       fs_ops := [OpStat filePath; OpReadFile filePath];
       cache := c |}.
Proof.
  intros Hd Hi Hs He Hm Hlen filePath ext. subst filePath ext. unfold handler.
  rewrite Hd, Hi, Hs.
  rewrite bool_decide_false by done.
  unfold serve. rewrite bool_decide_false by done.
  rewrite (proj2 (Z.ltb_ge _ _)) by lia. rewrite andb_false_r. done.
Qed.

(** X11. Brotli is preferred. For a regular file with a compressible
    extension and more than 1024 bytes whose ETag is not matched, an
    [Accept-Encoding] that mentions [br] (whether or not it also mentions
    [gzip]) is answered with [Content-Encoding: br]; the body is the entry
    the cache holds under [path:mtime:br] if there is one, and the brotli
    compression of the file otherwise, and that is what the cache holds
    under the key afterwards. *)
Theorem brotli_preferred (c : cacheMap) (fs : gmap jsstring Node)
    (req : Request) (u a : jsstring) (st : Stats double) (data : list Byte.byte) :
  decodeURIComponent (queryStripped req) = Some u ->
  includes (js "..") u = false ->
  fs !! Path.join dirname u = Some (File double st data) ->
  Path.extname (Path.join dirname u) ∈ COMPRESSIBLE ->
  if_none_match req <> Some (etag st) ->
  (1024 < length data)%nat ->
  accept_encoding req = Some a ->
  includes (js "br") a = true ->
  let filePath := Path.join dirname u in
  let ext := Path.extname filePath in
  let key := (filePath ++ js ":" ++ doubleToString 10 (mtimeMs double st)) ++ js ":br" in
  let bytes := default (brotliAsync data) (c !! key) in
  response (handle c fs req)
  = Some {| status := 200;
            headers :=
              [ ("Content-Type"%string,
                 HStr (default (js "application/octet-stream") (MIME !! ext)));
                ("ETag"%string, HStr (etag st));
                ("Cache-Control"%string, HStr (cacheControl ext));
                ("Content-Encoding"%string, HStr (js "br"));
                ("Vary"%string, HStr (js "Accept-Encoding")) ];
            body := EndData bytes |}
  /\ cache (handle c fs req) = <[key := bytes]> c.
Proof.
  intros Hd Hi Hs He Hm Hlen Ha Hbr filePath ext key bytes.
  subst filePath ext. unfold handler.
  rewrite Hd, Hi, Hs. cbn [nodeStats].
  rewrite bool_decide_false by (by apply compressible_not_streamable).
  unfold serve. rewrite bool_decide_false by done.
  rewrite bool_decide_true by done.
  rewrite (proj2 (Z.ltb_lt _ _)) by lia. simpl andb. cbv iota.
  rewrite Ha. change (default [] (Some a)) with a. rewrite Hbr.
  fold key. subst bytes.
  destruct (decide (is_Some (c !! key))) as [[w Hk]|Hk].
  - rewrite (bool_decide_true (is_Some (c !! key))) by eauto.
    cbv beta iota zeta. cbn [response cache]. rewrite Hk.
    split; [done|]. simpl. by rewrite insert_id.
  - rewrite (bool_decide_false (is_Some (c !! key))) by done.
    apply eq_None_not_Some in Hk.
    cbv beta iota zeta. cbn [response cache]. by rewrite lookup_insert_eq, Hk.
Qed.

End Compression.

Section ServerExtrasExamples.
Import JS Server Reading Sample Inputs.

(** The [stat] of the page is issued inside [/srv/site]. *)
Lemma file_operations_stay_inside_witness :
  exists rest trail,
    opPath (OpStat (js "/srv/site/index.html"))
    = js "/" ++ join_with (js "/") (directorySegments siteDir ++ rest) ++ trail
    /\ (trail = [] \/ trail = js "/")
    /\ Forall (fun seg => seg <> js ".." /\ CHAR_FORWARD_SLASH ∉ seg) rest.
Proof.
  apply (file_operations_stay_inside siteDir Z renderInteger id id ∅ site
           (get (js "/index.html"))).
  - reflexivity.
  - vm_compute. left.
Defined.

(** The URL [/%] does not decode, and is not answered. *)
Lemma handler_outcomes_witness :
  response (siteHandler site (get (js "/%"))) = None.
Proof.
  apply (proj2 (handler_outcomes siteDir Z renderInteger id id ∅ site
                  (get (js "/%")))).
  reflexivity.
Defined.

(** A path that does not exist. *)
Lemma not_found_iff_witness :
  response (siteHandler site (get (js "/missing.txt"))) = Some notFound.
Proof.
  apply (proj2 (not_found_iff siteDir Z renderInteger id id ∅ site
                  (get (js "/missing.txt")))).
  exists (js "/missing.txt"). repeat split. left. vm_compute. reflexivity.
Defined.

(** The video from byte 100 on, and from byte 6,000,000 on. *)
Lemma open_range_length_witness :
  (100 < 5000000 ->
   exists resp e L,
     response (siteHandler site (rangeGet (js "/v.mp4") (js "bytes=100-"))) = Some resp
     /\ status resp = 206
     /\ headerOf "Content-Range" resp
        = Some (HStr (js "bytes " ++ toString (Num 100) ++ js "-"
                      ++ toString (Num e) ++ js "/" ++ toString (Num 5000000)))
     /\ headerOf "Content-Length" resp = Some (HNum (Num L))
     /\ body resp = Pipe (Path.join siteDir (js "/v.mp4")) (Some (Num 100, Num e))
     /\ L = e - 100 + 1
     /\ 100 <= e <= 5000000 - 1 /\ 1 <= L <= 1024 * 1024)
  /\ (5000000 <= 6000000 ->
      response (siteHandler site (rangeGet (js "/v.mp4") (js "bytes=6000000-")))
      = None).
Proof.
  split.
  - apply (open_range_length siteDir Z renderInteger id id ∅ site
             (rangeGet (js "/v.mp4") (js "bytes=100-")) (js "/v.mp4") (js "100")
             (File Z videoStats [])).
    + reflexivity.
    + reflexivity.
    + vm_compute. reflexivity.
    + vm_compute. reflexivity.
    + repeat constructor.
    + discriminate.
    + reflexivity.
    + vm_compute. discriminate.
  - apply (open_range_length siteDir Z renderInteger id id ∅ site
             (rangeGet (js "/v.mp4") (js "bytes=6000000-")) (js "/v.mp4")
             (js "6000000") (File Z videoStats [])).
    + reflexivity.
    + reflexivity.
    + vm_compute. reflexivity.
    + vm_compute. reflexivity.
    + repeat constructor.
    + discriminate.
    + reflexivity.
    + vm_compute. discriminate.
Defined.

(** An end far beyond the five megabytes of the video, and an end before
    the start. *)
Lemma closed_range_not_clamped_witness :
  (10 <= 99999999 ->
   exists resp,
     response (siteHandler site (rangeGet (js "/v.mp4") (js "bytes=10-99999999")))
     = Some resp
     /\ status resp = 206
     /\ headerOf "Content-Range" resp
        = Some (HStr (js "bytes " ++ toString (Num 10) ++ js "-"
                      ++ toString (Num 99999999) ++ js "/" ++ toString (Num 5000000)))
     /\ headerOf "Content-Length" resp = Some (HNum (Num (99999999 - 10 + 1)))
     /\ body resp = Pipe (Path.join siteDir (js "/v.mp4"))
                      (Some (Num 10, Num 99999999)))
  /\ (10 < 500 ->
      response (siteHandler site (rangeGet (js "/v.mp4") (js "bytes=500-10")))
      = None).
Proof.
  split.
  - apply (closed_range_not_clamped siteDir Z renderInteger id id ∅ site
             (rangeGet (js "/v.mp4") (js "bytes=10-99999999")) (js "/v.mp4")
             (js "10") (js "99999999") (File Z videoStats [])).
    + reflexivity.
    + reflexivity.
    + vm_compute. reflexivity.
    + vm_compute. reflexivity.
    + repeat constructor.
    + discriminate.
    + repeat constructor.
    + discriminate.
    + reflexivity.
    + vm_compute. reflexivity.
    + vm_compute. reflexivity.
    + vm_compute. reflexivity.
  - apply (closed_range_not_clamped siteDir Z renderInteger id id ∅ site
             (rangeGet (js "/v.mp4") (js "bytes=500-10")) (js "/v.mp4")
             (js "500") (js "10") (File Z videoStats [])).
    + reflexivity.
    + reflexivity.
    + vm_compute. reflexivity.
    + vm_compute. reflexivity.
    + repeat constructor.
    + discriminate.
    + repeat constructor.
    + discriminate.
    + reflexivity.
    + vm_compute. reflexivity.
    + vm_compute. reflexivity.
    + vm_compute. reflexivity.
Defined.

(** The last 500 bytes, as a client would ask for them. *)
Lemma suffix_range_unanswered_witness :
  parseInt [] = NaN
  /\ siteHandler site (rangeGet (js "/v.mp4") (js "bytes=-500"))
     = {| response := None;
          fs_ops := [OpStat (Path.join siteDir (js "/v.mp4"));
                     OpCreateReadStream (Path.join siteDir (js "/v.mp4"))];
          cache := ∅ |}.
Proof.
  apply (suffix_range_unanswered siteDir Z renderInteger id id ∅ site
           (rangeGet (js "/v.mp4") (js "bytes=-500")) (js "/v.mp4")
           (js "500") (File Z videoStats [])).
  - reflexivity.
  - reflexivity.
  - vm_compute. reflexivity.
  - vm_compute. reflexivity.
  - repeat constructor.
  - discriminate.
  - reflexivity.
Defined.

(** Two descriptions of the style sheet. *)
Lemma etag_determines_size_witness :
  size Z sheetStats = size Z {| size := 2000; mtimeMs := 1700000000000 |}.
Proof.
  apply (etag_determines_size Z renderInteger sheetStats
           {| size := 2000; mtimeMs := 1700000000000 |}).
  reflexivity.
Defined.

(** The empty page, asked for with every encoding on offer. *)
Lemma small_file_served_plain_witness :
  handler siteDir Z renderInteger id id ∅ site
    (encodedGet (js "/index.html") (js "gzip, deflate, br"))
  = {| response :=
         Some {| status := 200;
                 headers :=
                   [ ("Content-Type"%string,
                      HStr (default (js "application/octet-stream")
                              (MIME !! Path.extname (Path.join siteDir (js "/index.html")))));
                     ("ETag"%string, HStr (etagOf Z renderInteger pageStats));
                     ("Cache-Control"%string,
                      HStr (cacheControl
                              (Path.extname (Path.join siteDir (js "/index.html"))))) ];
                 body := EndData [] |};
       fs_ops := [OpStat (Path.join siteDir (js "/index.html"));
                  OpReadFile (Path.join siteDir (js "/index.html"))];
       cache := ∅ |}.
Proof.
  apply (small_file_served_plain siteDir Z renderInteger id id ∅ site
           (encodedGet (js "/index.html") (js "gzip, deflate, br"))
           (js "/index.html") pageStats []).
  - reflexivity.
  - reflexivity.
  - vm_compute. reflexivity.
  - vm_compute. intros H. discriminate H.
  - discriminate.
  - simpl. lia.
Defined.

(** The style sheet, asked for with gzip and brotli on offer. *)
Lemma brotli_preferred_witness :
  response (handler siteDir Z renderInteger id id ∅ siteWithSheet
              (encodedGet (js "/app.css") (js "gzip, deflate, br")))
  = Some {| status := 200;
            headers :=
              [ ("Content-Type"%string,
                 HStr (default (js "application/octet-stream")
                         (MIME !! Path.extname (Path.join siteDir (js "/app.css")))));
                ("ETag"%string, HStr (etagOf Z renderInteger sheetStats));
                ("Cache-Control"%string,
                 HStr (cacheControl (Path.extname (Path.join siteDir (js "/app.css")))));
                ("Content-Encoding"%string, HStr (js "br"));
                ("Vary"%string, HStr (js "Accept-Encoding")) ];
            body :=
              EndData
                (default (id sheetData)
                   ((∅ : gmap jsstring (list Byte.byte))
                      !! ((Path.join siteDir (js "/app.css") ++ js ":"
                           ++ renderInteger 10 (mtimeMs Z sheetStats)) ++ js ":br"))) |}
  /\ cache (handler siteDir Z renderInteger id id ∅ siteWithSheet
              (encodedGet (js "/app.css") (js "gzip, deflate, br")))
     = <[ (Path.join siteDir (js "/app.css") ++ js ":"
           ++ renderInteger 10 (mtimeMs Z sheetStats)) ++ js ":br"
          := default (id sheetData)
               ((∅ : gmap jsstring (list Byte.byte))
                  !! ((Path.join siteDir (js "/app.css") ++ js ":"
                       ++ renderInteger 10 (mtimeMs Z sheetStats)) ++ js ":br")) ]> ∅.
Proof.
  apply (brotli_preferred siteDir Z renderInteger id id ∅ siteWithSheet
           (encodedGet (js "/app.css") (js "gzip, deflate, br"))
           (js "/app.css") (js "gzip, deflate, br") sheetStats sheetData).
  - reflexivity.
  - reflexivity.
  - vm_compute. reflexivity.
  - vm_compute. reflexivity.
  - discriminate.
  - vm_compute. lia.
  - reflexivity.
  - reflexivity.
Defined.

End ServerExtrasExamples.

(* ===================================================================== *)
(** * Further properties of the odometer and the block grid               *)
(* ===================================================================== *)

Section OdometerExtras.
Import JS Overlay Pieces.

(** When its roll ends, a strip shows the digit it was given. *)
Lemma strip_lands_on_digit (random : nat -> nat) (digit : N) :
  visibleCell (sequence random digit) scrollY = Some digit.
Proof. reflexivity. Qed.

Lemma mapChars_shown (random : nat -> nat -> nat) (total i k : nat)
    (chars : list PriceChar) :
  shownAtRest random <$> mapChars total i k chars = (fun c => Some (char c)) <$> chars.
Proof.
  revert i k. induction chars as [|c chars IH]; intros i k; [done|].
  simpl. destruct (isDigit c); simpl; by rewrite IH.
Qed.

(** X12. Once every roll has ended the odometer shows the price: reading
    the static characters and, for each strip, the cell left behind the
    window gives back the price string, character by character, whatever
    the random decoys were. *)
Theorem odometer_shows_price (random : nat -> nat -> nat) (price : jsstring) :
  shownAtRest random <$> StockPriceOdometer price = Some <$> price.
Proof.
  unfold StockPriceOdometer, parsePriceChars.
  rewrite mapChars_shown, <- list_fmap_compose. done.
Qed.

Lemma mapChars_indices (total i k : nat) (chars : list PriceChar) :
  omap stripIndex (mapChars total i k chars)
  = seq k (length (filter (fun c => isDigit c = true) chars)).
Proof.
  revert i k. induction chars as [|c chars IH]; intros i k; [done|].
  simpl. rewrite filter_cons. destruct (isDigit c) eqn:E; simpl.
  - rewrite ?decide_True by done. simpl. by rewrite IH.
  - rewrite ?decide_False by done. apply IH.
Qed.

(** X13. The strips roll in a left-to-right cascade: the indices of the
    strips, read from left to right, are 0, 1, ..., n - 1 where n is the
    number of digit characters, so the k-th strip ends its roll
    [ODOMETER_STAGGER * k + ODOMETER_DURATION] milliseconds after the
    odometer appeared. *)
Theorem strips_cascade (price : jsstring) :
  omap stripIndex (StockPriceOdometer price)
  = seq 0 (length (filter (fun c => isDecimalDigit c = true) price))
  /\ (stripEnd <$> omap stripIndex (StockPriceOdometer price))
     = (fun k => ODOMETER_STAGGER * Z.of_nat k + ODOMETER_DURATION)
       <$> seq 0 (length (filter (fun c => isDecimalDigit c = true) price)).
Proof.
  unfold StockPriceOdometer. rewrite mapChars_indices, digit_chars. done.
Qed.

Lemma digit_count_cons (c : PriceChar) (chars : list PriceChar) :
  length (filter (fun c => isDigit c = true) (c :: chars))
  = ((if isDigit c then 1 else 0)
     + length (filter (fun c => isDigit c = true) chars))%nat.
Proof.
  rewrite filter_cons. destruct (isDigit c).
  - by rewrite decide_True.
  - by rewrite decide_False.
Qed.

(** With [n >= 1] digits left and the counter at [total - n], the last
    strip, and only it, carries the callback. *)
Lemma mapChars_last_callback (total i k : nat) (chars : list PriceChar) :
  (1 <= length (filter (fun c => isDigit c = true) chars))%nat ->
  total = (k + length (filter (fun c => isDigit c = true) chars))%nat ->
  exists key digit,
    last (strips (mapChars total i k chars))
    = Some (OdometerDigit key digit (total - 1) true)
    /\ callbacks (mapChars total i k chars)
       = [OdometerDigit key digit (total - 1) true].
Proof.
  revert i k. induction chars as [|c chars IH]; intros i k Hn Ht.
  - simpl in Hn. lia.
  - rewrite digit_count_cons in Hn, Ht.
    set (n' := length (filter (fun c => isDigit c = true) chars)) in *.
    pose proof (mapChars_strips total (S i) (S k) chars) as Hs.
    pose proof (mapChars_callbacks total (S i) (S k) chars) as Hc.
    cbv zeta in Hc. fold n' in Hs, Hc.
    cbn [mapChars]. destruct (isDigit c) eqn:E; cbn [negb].
    + destruct (decide (n' = 0%nat)) as [Hz|Hnz].
      * (* this is the last digit *)
        assert (Hlast : (Z.of_nat k =? Z.of_nat total - 1) = true)
          by (apply Z.eqb_eq; lia).
        rewrite Hlast. rewrite Hz in Hs. rewrite bool_decide_false in Hc by lia.
        apply length_zero_iff_nil in Hs. apply length_zero_iff_nil in Hc.
        exists i, (char c). replace (total - 1)%nat with k by lia.
        change (strips (OdometerDigit i (char c) k true :: ?l))
          with (OdometerDigit i (char c) k true :: strips l).
        change (callbacks (OdometerDigit i (char c) k true :: ?l))
          with (OdometerDigit i (char c) k true :: callbacks l).
        by rewrite Hs, Hc.
      * assert (Hlast : (Z.of_nat k =? Z.of_nat total - 1) = false)
          by (apply Z.eqb_neq; lia).
        rewrite Hlast.
        destruct (IH (S i) (S k) ltac:(fold n'; lia) ltac:(fold n'; lia))
          as (key & digit & Hl & Hcb).
        exists key, digit.
        change (strips (OdometerDigit i (char c) k false :: ?l))
          with (OdometerDigit i (char c) k false :: strips l).
        change (callbacks (OdometerDigit i (char c) k false :: ?l))
          with (callbacks l).
        split; [|done].
        destruct (strips (mapChars total (S i) (S k) chars)) as [|e es] eqn:Ee;
          [done|]. by rewrite last_cons, Hl.
    + change (strips (Span i (char c) :: ?l)) with (strips l).
      change (callbacks (Span i (char c) :: ?l)) with (callbacks l).
      apply IH; fold n'; lia.
Qed.

(** X14. With at least one digit in the price, exactly one element of the
    odometer receives the completion callback, and it is the last strip:
    the strip of the last digit, whose index is [n - 1]. *)
Theorem callback_on_last_strip (price : jsstring) :
  (exists c, c ∈ price /\ isDecimalDigit c = true) ->
  exists key digit,
    let n := length (filter (fun c => isDecimalDigit c = true) price) in
    last (strips (StockPriceOdometer price))
    = Some (OdometerDigit key digit (n - 1) true)
    /\ callbacks (StockPriceOdometer price) = [OdometerDigit key digit (n - 1) true].
Proof.
  intros (c & Hin & Hc). unfold StockPriceOdometer.
  assert (Hn : (1 <= length (filter (fun c => isDecimalDigit c = true) price))%nat).
  { assert (Hf : c ∈ filter (fun c => isDecimalDigit c = true) price)
      by (by apply list_elem_of_filter).
    destruct (filter _ price); [by apply elem_of_nil in Hf | simpl; lia]. }
  rewrite <- digit_chars in *.
  by apply (mapChars_last_callback _ 0 0).
Qed.

End OdometerExtras.

Section BlockGridExtras.
Import JS Overlay Pieces.

(** The grid of a viewport at least one pixel wide, spelled out. *)
Lemma computeGrid_shape (w h : N) :
  (0 < w)%N ->
  exists nc bw q,
    computeGrid {| innerWidth := w; innerHeight := h |}
    = {| cols := Num nc; rows := Num (q + 1); blockW := Num bw; blockH := Num bw;
         vh := Num (Z.of_N h) |}
    /\ (nc = 8 \/ nc = 12 \/ nc = 16)
    /\ 0 < bw /\ Z.of_N w <= nc * bw < Z.of_N w + nc
    /\ 0 <= q /\ Z.of_N h <= q * bw < Z.of_N h + bw.
Proof.
  intros Hw. unfold computeGrid.
  cbn [cols rows blockW blockH innerWidth innerHeight].
  set (W := Z.of_N w). set (H := Z.of_N h).
  assert (0 < W) by lia. assert (0 <= H) by lia.
  assert (Hc : exists nc, getColumnCount (Num W) = Num nc
                          /\ (nc = 8 \/ nc = 12 \/ nc = 16)).
  { destruct (getColumnCount_cases (Num W)) as [-> | [-> | ->]];
      eexists; split; try reflexivity; lia. }
  destruct Hc as (nc & -> & Hnc).
  destruct (ceil_div_bounds W nc ltac:(lia) ltac:(lia)) as (bw & -> & Hbw).
  assert (0 < bw) by nia.
  destruct (ceil_div_bounds H bw ltac:(lia) ltac:(lia)) as (q & -> & Hq).
  assert (0 <= q) by nia.
  exists nc, bw, q. cbn [add]. repeat split; try done; lia.
Qed.

Lemma bind_length_const {A B} (f : A -> list B) (k : nat) (l : list A) :
  (forall x, length (f x) = k) -> length (l ≫= f) = (length l * k)%nat.
Proof.
  intros Hf. induction l as [|x l IH]; [done|].
  rewrite bind_cons, length_app, Hf, IH. simpl. lia.
Qed.

Lemma blockRow_elem (row nc : Z) (b : Block) :
  b ∈ blockRow row nc
  <-> r b = row /\ 0 <= c b < nc /\ blockDelay b = (r b + c b) * BLOCK_STAGGER.
Proof.
  unfold blockRow. rewrite list_elem_of_fmap. split.
  - intros (col & -> & Hin%elem_of_seqZ). simpl. repeat split; lia.
  - intros (Hr & Hc & Hd). exists (c b). split; [|apply elem_of_seqZ; lia].
    destruct b as [rb cb db]. simpl in *. by subst.
Qed.

Lemma blocks_finite (g : GridSpec) (nr nc : Z) :
  rows g = Num nr -> cols g = Num nc ->
  exists bs,
    blocks g = Some bs
    /\ (forall b, b ∈ bs <-> 0 <= r b < nr /\ 0 <= c b < nc
                            /\ blockDelay b = (r b + c b) * BLOCK_STAGGER)
    /\ length bs = (Z.to_nat nr * Z.to_nat nc)%nat.
Proof.
  intros Hr Hc. unfold blocks. rewrite Hr, Hc. eexists. split; [reflexivity|].
  split.
  - intros b. rewrite list_elem_of_bind. split.
    + intros (row & Hb%blockRow_elem & Hrow%elem_of_seqZ).
      destruct Hb as (Hrb & Hcb & Hd). repeat split; lia.
    + intros (Hrb & Hcb & Hd). exists (r b). split.
      * by apply blockRow_elem.
      * apply elem_of_seqZ. lia.
  - rewrite (bind_length_const _ (Z.to_nat nc)).
    + by rewrite length_seqZ.
    + intros row. unfold blockRow. by rewrite length_fmap, length_seqZ.
Qed.

(** X15. The block list of a grid with finite dimensions: one block for
    every cell [(r, c)] with [0 <= r < rows] and [0 <= c < cols], no
    other, each delayed by [(r + c) * BLOCK_STAGGER] milliseconds, that is
    [rows * cols] blocks in all. *)
Theorem blocks_of_finite_grid (g : GridSpec) (nr nc : Z) :
  rows g = Num nr -> cols g = Num nc ->
  exists bs,
    blocks g = Some bs
    /\ (forall b, b ∈ bs <-> 0 <= r b < nr /\ 0 <= c b < nc
                            /\ blockDelay b = (r b + c b) * BLOCK_STAGGER)
    /\ length bs = (Z.to_nat nr * Z.to_nat nc)%nat.
Proof. apply blocks_finite. Qed.

(** X16. On a viewport at least one pixel wide the blocks cover the
    viewport: every pixel [(x, y)] with [0 <= x < innerWidth] and
    [0 <= y < innerHeight] lies in the box of some block of the list. *)
Theorem blocks_cover_viewport (w h : N) (x y : Z) :
  (0 < w)%N -> 0 <= x < Z.of_N w -> 0 <= y < Z.of_N h ->
  let g := computeGrid {| innerWidth := w; innerHeight := h |} in
  exists bs b, blocks g = Some bs /\ b ∈ bs /\ inBlock g b x y = true.
Proof.
  intros Hw Hx Hy g.
  destruct (computeGrid_shape w h Hw) as (nc & bw & q & Eg & Hnc & Hbw & Hcov & Hq & Hrow).
  subst g. rewrite Eg.
  destruct (blocks_finite
              {| cols := Num nc; rows := Num (q + 1); blockW := Num bw;
                 blockH := Num bw; vh := Num (Z.of_N h) |}
              (q + 1) nc eq_refl eq_refl) as (bs & Hbs & Hin & _).
  pose proof (Z.div_mod x bw ltac:(lia)) as Hdx.
  pose proof (Z.mod_pos_bound x bw Hbw) as Hmx.
  pose proof (Z.div_mod y bw ltac:(lia)) as Hdy.
  pose proof (Z.mod_pos_bound y bw Hbw) as Hmy.
  exists bs, {| r := y / bw; c := x / bw;
                blockDelay := (y / bw + x / bw) * BLOCK_STAGGER |}.
  split; [done|]. split.
  - apply Hin. simpl. repeat split; try (apply Z.div_pos; lia).
    + apply Z.div_lt_upper_bound; nia.
    + apply Z.div_lt_upper_bound; nia.
  - unfold inBlock, blockLeft, blockTop, blockWidth, blockHeight, ge, lt, mul, add.
    simpl. rewrite !andb_true_iff, !negb_true_iff, !Z.ltb_ge, !Z.ltb_lt. nia.
Qed.

(** X18. On a viewport of width zero and positive height the row count is
    [Infinity] and the loop that builds the blocks never ends: there is no
    block list. *)
Theorem blocks_of_zero_width (h : N) :
  (0 < h)%N ->
  rows (computeGrid {| innerWidth := 0; innerHeight := h |}) = Infinity
  /\ blocks (computeGrid {| innerWidth := 0; innerHeight := h |}) = None.
Proof.
  intros Hh. unfold computeGrid, blocks. simpl.
  destruct (Z.eqb_spec (Z.of_N h) 0) as [E|_]; [lia|].
  destruct (Z.ltb_spec (Z.of_N h) 0); [lia|]. done.
Qed.

End BlockGridExtras.

Section PiecesExamples.
Import JS Overlay Pieces Sample.

(** The default price: its last digit is the 2 of the cents. *)
Lemma callback_on_last_strip_witness :
  exists key digit,
    let n := length (filter (fun c => isDecimalDigit c = true) (stockPrice desktop)) in
    last (strips (StockPriceOdometer (stockPrice desktop)))
    = Some (OdometerDigit key digit (n - 1) true)
    /\ callbacks (StockPriceOdometer (stockPrice desktop))
       = [OdometerDigit key digit (n - 1) true].
Proof.
  apply (callback_on_last_strip (stockPrice desktop)).
  exists 51%N. split; [|reflexivity]. vm_compute. repeat constructor.
Defined.

(** The grid of the desktop viewport: 10 rows of 16 blocks. *)
Lemma blocks_of_finite_grid_witness :
  exists bs,
    blocks (computeGrid (window desktop)) = Some bs
    /\ (forall b, b ∈ bs <-> 0 <= r b < 10 /\ 0 <= c b < 16
                            /\ blockDelay b = (r b + c b) * BLOCK_STAGGER)
    /\ length bs = (Z.to_nat 10 * Z.to_nat 16)%nat.
Proof.
  apply (blocks_of_finite_grid (computeGrid (window desktop)) 10 16);
    vm_compute; reflexivity.
Defined.

(** The bottom right pixel of the desktop viewport. *)
Lemma blocks_cover_viewport_witness :
  let g := computeGrid {| innerWidth := 1280; innerHeight := 720 |} in
  exists bs b, blocks g = Some bs /\ b ∈ bs /\ inBlock g b 1279 719 = true.
Proof. apply (blocks_cover_viewport 1280 720 1279 719); lia. Defined.

(** A window of width zero, 720 pixels high. *)
Lemma blocks_of_zero_width_witness :
  rows (computeGrid {| innerWidth := 0; innerHeight := 720 |}) = Infinity
  /\ blocks (computeGrid {| innerWidth := 0; innerHeight := 720 |}) = None.
Proof. apply (blocks_of_zero_width 720). lia. Defined.

End PiecesExamples.

(* ===================================================================== *)
(** * Further properties of the phase sequencer                           *)
(* ===================================================================== *)

Section FullRun.
Import JS Overlay Traces.

Variables (price : jsstring) (force : bool) (win : Window) (st : Storage).

Local Abbreviation cfg :=
  {| stockPrice := price; forceReplay := force; prefersReducedMotion := false;
     window := win |}.
Local Abbreviation V p h r sto :=
  {| inTree := true; hasRun := h; mounted := true; phase := p;
     grid := Some (computeGrid win); rolled := r; sessionStorage := sto |}.
Local Abbreviation T n d cb o :=
  {| timerId := n; delay := d; callback := cb; owner := o |}.
Local Abbreviation St v ts n := {| vars := v; timers := ts; scheduled := n |}.

Lemma full_mount :
  force || negb (readFlag SESSION_KEY st) = true ->
  step cfg Mount (initial st)
  = Some (St (V intro (readFlag SESSION_KEY st) false st)
             [T 0%nat (Num INTRO_HOLD) (SetPhase priceRoll) (Some EIntro)] 1%nat).
Proof.
  intros Hgo. unfold step. cbv zeta.
  change (inTree (vars (initial st)) && negb (mounted (vars (initial st)))) with true.
  cbv iota. unfold mount. cbv zeta.
  change (sessionStorage (vars (initial st))) with st.
  remember (readFlag SESSION_KEY st) as h0.
  destruct force, h0; try discriminate Hgo; reflexivity.
Qed.

Lemma full_intro (h : bool) :
  force || negb h = true ->
  step cfg (Fire 0)
    (St (V intro h false st)
        [T 0%nat (Num INTRO_HOLD) (SetPhase priceRoll) (Some EIntro)] 1%nat)
  = Some (St (V priceRoll h false st) [] 1%nat).
Proof. intros H. destruct force, h; try discriminate H; reflexivity. Qed.

Lemma full_roll (h : bool) :
  force || negb h = true ->
  callbacks (StockPriceOdometer price) <> [] ->
  step cfg RollComplete (St (V priceRoll h false st) [] 1%nat)
  = Some (St (V priceRoll h true st)
             [T 1%nat (Num POST_PRICE_HOLD) (SetPhase dayChange) None] 2%nat).
Proof.
  intros H Hdig.
  assert (Hc : callbackOnScreen cfg (V priceRoll h false st) = true).
  { unfold callbackOnScreen.
    assert (Hrender : render cfg (V priceRoll h false st)
                      = Animation true (Some (StockPriceOdometer price)) None).
    { destruct force, h; try discriminate H; reflexivity. }
    rewrite Hrender. by apply bool_decide_eq_true_2. }
  unfold step. cbv zeta. cbn [vars]. rewrite Hc. reflexivity.
Qed.

Lemma full_price (h : bool) :
  force || negb h = true ->
  step cfg (Fire 1)
    (St (V priceRoll h true st)
        [T 1%nat (Num POST_PRICE_HOLD) (SetPhase dayChange) None] 2%nat)
  = Some (St (V dayChange h true st)
             [T 2%nat (Num DAY_CHANGE_HOLD) (SetPhase fadeText) (Some EDayChange)]
             3%nat).
Proof. intros H. destruct force, h; try discriminate H; reflexivity. Qed.

Lemma full_day (h : bool) :
  force || negb h = true ->
  step cfg (Fire 2)
    (St (V dayChange h true st)
        [T 2%nat (Num DAY_CHANGE_HOLD) (SetPhase fadeText) (Some EDayChange)] 3%nat)
  = Some (St (V fadeText h true st)
             [T 3%nat (Num (TEXT_FADE_DURATION + 30)) (SetPhase blocks)
                (Some EFadeText)] 4%nat).
Proof. intros H. destruct force, h; try discriminate H; reflexivity. Qed.

Lemma full_fade (h : bool) :
  force || negb h = true ->
  exists d,
    step cfg (Fire 3)
      (St (V fadeText h true st)
          [T 3%nat (Num (TEXT_FADE_DURATION + 30)) (SetPhase blocks)
             (Some EFadeText)] 4%nat)
    = Some (St (V blocks h true st) [T 4%nat d SetDoneAndMark (Some EBlocks)] 5%nat).
Proof. intros H. eexists. destruct force, h; try discriminate H; reflexivity. Qed.

Lemma full_wipe (h : bool) (d : number) :
  force || negb h = true ->
  step cfg (Fire 4)
    (St (V blocks h true st) [T 4%nat d SetDoneAndMark (Some EBlocks)] 5%nat)
  = Some (St {| inTree := true; hasRun := true; mounted := true; phase := done;
                grid := Some (computeGrid win); rolled := true;
                sessionStorage := writeFlag SESSION_KEY st |} [] 5%nat).
Proof. intros H. destruct force, h; try discriminate H; reflexivity. Qed.

End FullRun.

Section ReducedRun.
Import JS Overlay Traces.

Variables (price : jsstring) (force : bool) (win : Window) (st : Storage).

Local Abbreviation cfg :=
  {| stockPrice := price; forceReplay := force; prefersReducedMotion := true;
     window := win |}.
Local Abbreviation V p h sto :=
  {| inTree := true; hasRun := h; mounted := true; phase := p;
     grid := Some (computeGrid win); rolled := false; sessionStorage := sto |}.
Local Abbreviation T n d cb o :=
  {| timerId := n; delay := d; callback := cb; owner := o |}.
Local Abbreviation St v ts n := {| vars := v; timers := ts; scheduled := n |}.

Lemma reduced_mount :
  force || negb (readFlag SESSION_KEY st) = true ->
  step cfg Mount (initial st)
  = Some (St (V intro (readFlag SESSION_KEY st) st)
             [T 0%nat (Num INTRO_HOLD) (SetPhase priceRoll) (Some EIntro);
              T 1%nat (Num 600) SetDoneAndMark (Some EReducedMotion)] 2%nat).
Proof.
  intros Hgo. unfold step. cbv zeta.
  change (inTree (vars (initial st)) && negb (mounted (vars (initial st)))) with true.
  cbv iota. unfold mount. cbv zeta.
  change (sessionStorage (vars (initial st))) with st.
  remember (readFlag SESSION_KEY st) as h0.
  destruct force, h0; try discriminate Hgo; reflexivity.
Qed.

Lemma reduced_skip (h : bool) :
  force || negb h = true ->
  step cfg (Fire 1)
    (St (V intro h st)
        [T 0%nat (Num INTRO_HOLD) (SetPhase priceRoll) (Some EIntro);
         T 1%nat (Num 600) SetDoneAndMark (Some EReducedMotion)] 2%nat)
  = Some (St (V done true (writeFlag SESSION_KEY st)) [] 2%nat).
Proof. intros H. destruct force, h; try discriminate H; reflexivity. Qed.

Lemma reduced_intro (h : bool) :
  force || negb h = true ->
  step cfg (Fire 0)
    (St (V intro h st)
        [T 0%nat (Num INTRO_HOLD) (SetPhase priceRoll) (Some EIntro);
         T 1%nat (Num 600) SetDoneAndMark (Some EReducedMotion)] 2%nat)
  = Some (St (V priceRoll h st)
             [T 1%nat (Num 600) SetDoneAndMark (Some EReducedMotion)] 2%nat).
Proof. intros H. destruct force, h; try discriminate H; reflexivity. Qed.

Lemma reduced_skip_late (h : bool) :
  force || negb h = true ->
  step cfg (Fire 1)
    (St (V priceRoll h st)
        [T 1%nat (Num 600) SetDoneAndMark (Some EReducedMotion)] 2%nat)
  = Some (St (V done true (writeFlag SESSION_KEY st)) [] 2%nat).
Proof. intros H. destruct force, h; try discriminate H; reflexivity. Qed.

End ReducedRun.

Section SequencerExtras.
Import JS Overlay Traces.

Lemma run_cons (cfg : Config) (ev : Event) (evs : list Event) (s s1 : State) :
  step cfg ev s = Some s1 -> run cfg (ev :: evs) s = run cfg evs s1.
Proof. intros H. simpl. by rewrite H. Qed.

Lemma phasesAlong_cons (cfg : Config) (ev : Event) (evs : list Event)
    (s s1 : State) :
  step cfg ev s = Some s1 ->
  phasesAlong cfg (ev :: evs) s
  = cons (phase (vars s1)) <$> phasesAlong cfg evs s1.
Proof. intros H. simpl. by rewrite H. Qed.

Lemma digit_has_callback (price : jsstring) :
  (exists c, c ∈ price /\ isDecimalDigit c = true) ->
  callbacks (StockPriceOdometer price) <> [].
Proof.
  intros (c & Hin & Hc) Hnil.
  pose proof (odometer_callbacks price) as Hlen. rewrite Hnil in Hlen.
  rewrite bool_decide_false in Hlen; [done|].
  intros Hf.
  assert (Hcf : c ∈ filter (fun c => isDecimalDigit c = true) price)
    by (by apply list_elem_of_filter).
  rewrite Hf in Hcf. by apply elem_of_nil in Hcf.
Qed.

(** X19. Without reduced motion, on a window at least one pixel wide,
    when the session has not played (or a replay is forced) and the price
    has a digit, the run mount, intro timeout, roll complete, and the four
    timeouts that follow is possible and visits the phases in order up to
    [done]; the grid has a block list, so the render of the phase [blocks]
    returns; at the end nothing is pending, five timeouts have been set in
    all, the flag is written, and the component returns [null]. *)
Theorem animation_runs_to_done (cfg : Config) (st : Storage) :
  prefersReducedMotion cfg = false ->
  (0 < innerWidth (window cfg))%N ->
  forceReplay cfg = true \/ readFlag SESSION_KEY st = false ->
  (exists c, c ∈ stockPrice cfg /\ isDecimalDigit c = true) ->
  exists s,
    run cfg [Mount; Fire 0; RollComplete; Fire 1; Fire 2; Fire 3; Fire 4]
        (initial st) = Some s
    /\ phasesAlong cfg [Mount; Fire 0; RollComplete; Fire 1; Fire 2; Fire 3; Fire 4]
         (initial st)
       = Some [intro; priceRoll; priceRoll; dayChange; fadeText; Overlay.blocks; done]
    /\ is_Some (Pieces.blocks (computeGrid (window cfg)))
    /\ timers s = [] /\ scheduled s = 5%nat
    /\ hasRun (vars s) = true
    /\ sessionStorage (vars s) = writeFlag SESSION_KEY st
    /\ render cfg (vars s) = Nothing.
Proof.
  destruct cfg as [price force red win]. cbn [prefersReducedMotion forceReplay stockPrice].
  intros -> Hwin Hgo Hdig. apply digit_has_callback in Hdig.
  assert (Hgo' : force || negb (readFlag SESSION_KEY st) = true).
  { destruct Hgo as [-> | ->]; [done | by rewrite orb_true_r]. }
  clear Hgo.
  assert (Hblocks : is_Some (Pieces.blocks (computeGrid win))).
  { destruct win as [w h]. simpl in Hwin.
    destruct (computeGrid_shape w h Hwin) as (nc & bw & q & -> & _).
    destruct (blocks_finite
                {| cols := Num nc; rows := Num (q + 1); blockW := Num bw;
                   blockH := Num bw; vh := Num (Z.of_N h) |}
                (q + 1) nc eq_refl eq_refl) as (bs & -> & _). eauto. }
  pose proof (full_mount price force win st Hgo') as H1.
  pose proof (full_intro price force win st _ Hgo') as H2.
  pose proof (full_roll price force win st _ Hgo' Hdig) as H3.
  pose proof (full_price price force win st _ Hgo') as H4.
  pose proof (full_day price force win st _ Hgo') as H5.
  destruct (full_fade price force win st _ Hgo') as [d H6].
  pose proof (full_wipe price force win st _ d Hgo') as H7.
  eexists. split; [|split].
  - rewrite (run_cons _ _ _ _ _ H1), (run_cons _ _ _ _ _ H2),
      (run_cons _ _ _ _ _ H3), (run_cons _ _ _ _ _ H4),
      (run_cons _ _ _ _ _ H5), (run_cons _ _ _ _ _ H6),
      (run_cons _ _ _ _ _ H7). reflexivity.
  - rewrite (phasesAlong_cons _ _ _ _ _ H1), (phasesAlong_cons _ _ _ _ _ H2),
      (phasesAlong_cons _ _ _ _ _ H3), (phasesAlong_cons _ _ _ _ _ H4),
      (phasesAlong_cons _ _ _ _ _ H5), (phasesAlong_cons _ _ _ _ _ H6),
      (phasesAlong_cons _ _ _ _ _ H7). reflexivity.
  - cbn [timers scheduled vars hasRun sessionStorage].
    split; [done|]. repeat split. by destruct force.
Qed.

End SequencerExtras.

Section SequencerInvariants.
Import JS Overlay Traces.

Variable cfg : Config.

Lemma writeFlag_twice (key : jsstring) (st : Storage) :
  writeFlag key (writeFlag key st) = writeFlag key st.
Proof. destruct st as [|m]; simpl; [done|]. by rewrite insert_insert_eq. Qed.

Lemma readFlag_written (key : jsstring) (m : gmap jsstring jsstring) :
  readFlag key (writeFlag key (Items m)) = true.
Proof. simpl. apply bool_decide_eq_true_2. by rewrite lookup_insert_eq. Qed.

(** A pending timeout never sets the phase [done] on its own: the only
    callback that does also writes the flag. *)
Lemma pending_callbacks (s : State) (t : Timer) :
  Consistent cfg s -> t ∈ timers s ->
  (callback t = SetDoneAndMark /\ inTree (vars s) = true)
  \/ exists p, callback t = SetPhase p /\ p <> done.
Proof.
  intros C Hin. pose proof (timers_ok cfg s C t Hin) as Hok.
  unfold timerOk in Hok. destruct (owner t) as [e|] eqn:Ho.
  - assert (Htree : inTree (vars s) = true).
    { destruct (inTree (vars s)) eqn:Htree; [done|].
      pose proof (after_unmount cfg s C Htree t Hin). congruence. }
    apply body_some in Hok.
    destruct e; destruct_and?;
      first [ left; by split | right; eexists; split; [eassumption|done] ].
  - destruct Hok as (Hcb & _). right. by exists dayChange.
Qed.

(** The storage along a run: untouched until the phase is [done], and from
    then on the storage with the flag written. *)
Lemma step_storage (st : Storage) (ev : Event) (s s' : State) :
  Consistent cfg s ->
  (phase (vars s) = done /\ sessionStorage (vars s) = writeFlag SESSION_KEY st)
  \/ (phase (vars s) <> done /\ sessionStorage (vars s) = st) ->
  step cfg ev s = Some s' ->
  (phase (vars s') = done /\ sessionStorage (vars s') = writeFlag SESSION_KEY st)
  \/ (phase (vars s') <> done /\ sessionStorage (vars s') = st).
Proof.
  intros C Hinv Hstep.
  destruct (step_consistent cfg ev s s' C Hstep) as [_ Hmono].
  revert Hstep. destruct ev; unfold step; cbv zeta.
  - destruct (inTree (vars s) && negb (mounted (vars s))); [|done].
    intros E. apply (inj Some) in E. subst s'.
    unfold mount. cbv zeta. rewrite commit_vars. exact Hinv.
  - destruct (List.find _ (timers s)) as [t|] eqn:Hf; [|done].
    apply find_some in Hf as [Hin _]. apply list_elem_of_In in Hin.
    intros E. apply (inj Some) in E.
    assert (Hv : vars s' = runCallback (callback t) (vars s)).
    { subst s'. destruct (inTree (vars s)); [by rewrite commit_vars | done]. }
    rewrite Hv in *. clear E Hv.
    destruct (pending_callbacks s t C Hin) as [[Hcb Htree] | (p & Hcb & Hp)];
      rewrite Hcb in *; simpl in *.
    + left. rewrite Htree. split; [done|].
      destruct Hinv as [[_ ->] | [_ ->]]; [apply writeFlag_twice | done].
    + destruct Hinv as [[Hd Hst] | [Hd Hst]].
      * left. split; [|done]. rewrite Hd in Hmono. simpl in Hmono.
        destruct (inTree (vars s)); [|done].
        destruct p; simpl in Hmono; try lia; done.
      * right. split; [|done]. by destruct (inTree (vars s)).
  - destruct (inTree (vars s) && callbackOnScreen cfg (vars s)
              && negb (rolled (vars s))); [|done].
    intros E. apply (inj Some) in E. subst s'. exact Hinv.
  - destruct (inTree (vars s)); [|done].
    intros E. apply (inj Some) in E. subst s'.
    rewrite cleanup_all_vars. exact Hinv.
Qed.

Lemma run_storage (st : Storage) (evs : list Event) (s s' : State) :
  Consistent cfg s ->
  (phase (vars s) = done /\ sessionStorage (vars s) = writeFlag SESSION_KEY st)
  \/ (phase (vars s) <> done /\ sessionStorage (vars s) = st) ->
  run cfg evs s = Some s' ->
  (phase (vars s') = done /\ sessionStorage (vars s') = writeFlag SESSION_KEY st)
  \/ (phase (vars s') <> done /\ sessionStorage (vars s') = st).
Proof.
  revert s. induction evs as [|ev evs IH]; intros s C Hinv; simpl.
  - intros E. apply (inj Some) in E. by subst s'.
  - destruct (step cfg ev s) as [s1|] eqn:Hstep; [|done]. intros Hrun.
    destruct (step_consistent cfg ev s s1 C Hstep) as [C1 _].
    apply (IH s1 C1); [|done]. by apply (step_storage st ev s).
Qed.

Lemma run_storage_initial (st : Storage) (evs : list Event) (s : State) :
  run cfg evs (initial st) = Some s ->
  (phase (vars s) = done /\ sessionStorage (vars s) = writeFlag SESSION_KEY st)
  \/ (phase (vars s) <> done /\ sessionStorage (vars s) = st).
Proof.
  apply run_storage; [apply initial_consistent|]. right. by split.
Qed.

(** X20. The session storage is written exactly when the phase becomes
    [done]: in every state of every run the storage is the initial one
    while the phase is not [done], and the initial one with the flag set
    once it is; nothing else is ever stored. *)
Theorem storage_written_at_done (st : Storage) (evs : list Event) (s : State) :
  run cfg evs (initial st) = Some s ->
  sessionStorage (vars s)
  = if bool_decide (phase (vars s) = done) then writeFlag SESSION_KEY st else st.
Proof.
  intros Hrun. destruct (run_storage_initial st evs s Hrun) as [[Hd ->] | [Hd ->]].
  - by rewrite bool_decide_true.
  - by rewrite bool_decide_false.
Qed.

(** Under reduced motion the phase is [intro], [priceRoll] or [done], and
    the roll-complete callback cannot happen. *)
Lemma step_reduced (ev : Event) (s s' : State) :
  prefersReducedMotion cfg = true ->
  Consistent cfg s ->
  (phase (vars s) = intro \/ phase (vars s) = priceRoll \/ phase (vars s) = done)
  /\ (forall t, t ∈ timers s ->
                callback t = SetPhase priceRoll \/ callback t = SetDoneAndMark) ->
  step cfg ev s = Some s' ->
  ev <> RollComplete
  /\ (phase (vars s') = intro \/ phase (vars s') = priceRoll
      \/ phase (vars s') = done)
  /\ (forall t, t ∈ timers s' ->
                callback t = SetPhase priceRoll \/ callback t = SetDoneAndMark).
Proof.
  intros Hred C (Hp & Hts).
  assert (Hbody : forall e v d cb,
            phase v = intro \/ phase v = priceRoll \/ phase v = done ->
            effectBody cfg e v = Some (d, cb) ->
            cb = SetPhase priceRoll \/ cb = SetDoneAndMark).
  { intros e v d cb Hpv Hb. apply body_some in Hb.
    destruct e; destruct_and?; destruct Hpv as [?|[?|?]]; try congruence; auto. }
  destruct ev.
  - unfold step. cbv zeta.
    destruct (inTree (vars s)) eqn:Hin; [|done].
    destruct (mounted (vars s)) eqn:Hm; [done|]. simpl.
    intros E. apply (inj Some) in E. subst s'.
    destruct (before_mount cfg s C Hm) as [Hnil Hintro].
    unfold mount. cbv zeta. rewrite foldl_invoke_none.
    2:{ intros e. apply body_idle; [|done]. unfold shouldAnimate. by rewrite Hm. }
    rewrite commit_vars. simpl. repeat split; try done.
    intros t Ht. apply commit_timers in Ht as [[Ht _] | (e & _ & Hb)].
    + simpl in Ht. rewrite Hnil in Ht. by apply elem_of_nil in Ht.
    + simpl in Hb. eapply Hbody; [|exact Hb]. simpl. auto.
  - unfold step. cbv zeta.
    destruct (List.find _ (timers s)) as [t|] eqn:Hf; [|done].
    apply find_some in Hf as [Hin _]. apply list_elem_of_In in Hin.
    intros E. apply (inj Some) in E.
    assert (Hp2 : phase (runCallback (callback t) (vars s)) = intro
                  \/ phase (runCallback (callback t) (vars s)) = priceRoll
                  \/ phase (runCallback (callback t) (vars s)) = done).
    { destruct (Hts t Hin) as [-> | ->]; simpl; destruct (inTree (vars s)); auto. }
    split; [done|]. subst s'. destruct (inTree (vars s)) eqn:Htree.
    + rewrite commit_vars. cbn [vars]. split; [done|].
      intros t' Ht'. apply commit_timers in Ht' as [[Ht' _] | (e & _ & Hb)].
      * simpl in Ht'. apply list_elem_of_filter in Ht' as [_ Ht']. by apply Hts.
      * cbn [vars] in Hb. by eapply Hbody; [|exact Hb].
    + cbn [vars timers]. split; [done|].
      intros t' [_ Ht']%list_elem_of_filter. by apply Hts.
  - unfold step. cbv zeta.
    destruct (inTree (vars s)); [|done].
    destruct (callbackOnScreen cfg (vars s)) eqn:Hc; [|done].
    apply callbackOnScreen_inv in Hc as (_ & Hno & _). congruence.
  - unfold step. cbv zeta.
    destruct (inTree (vars s)); [|done].
    intros E. apply (inj Some) in E. subst s'.
    rewrite cleanup_all_vars. cbn [leaveTree phase vars].
    repeat split; try done.
    intros t [Ht _]%cleanup_all_timers. by apply Hts.
Qed.

Lemma run_reduced (evs : list Event) (s s' : State) :
  prefersReducedMotion cfg = true ->
  Consistent cfg s ->
  (phase (vars s) = intro \/ phase (vars s) = priceRoll \/ phase (vars s) = done)
  /\ (forall t, t ∈ timers s ->
                callback t = SetPhase priceRoll \/ callback t = SetDoneAndMark) ->
  run cfg evs s = Some s' ->
  (RollComplete ∉ evs)
  /\ (phase (vars s') = intro \/ phase (vars s') = priceRoll
      \/ phase (vars s') = done).
Proof.
  intros Hred. revert s. induction evs as [|ev evs IH]; intros s C Hinv; simpl.
  - intros E. apply (inj Some) in E. subst s'.
    split; [apply not_elem_of_nil | tauto].
  - destruct (step cfg ev s) as [s1|] eqn:Hstep; [|done]. intros Hrun.
    destruct (step_consistent cfg ev s s1 C Hstep) as [C1 _].
    destruct (step_reduced ev s s1 Hred C Hinv Hstep) as [Hev Hinv1].
    destruct (IH s1 C1 Hinv1 Hrun) as [Hnot Hinv'].
    split; [|done]. apply not_elem_of_cons. split; [congruence|done].
Qed.

(** X21. Under reduced motion the phases [dayChange], [fadeText] and
    [blocks] are never entered and the roll-complete callback never
    happens: in every run the phase is [intro], [priceRoll] or [done], and
    the component never returns the animation with the odometer. *)
Theorem reduced_motion_skips_phases (st : Storage) (evs : list Event) (s : State) :
  prefersReducedMotion cfg = true ->
  run cfg evs (initial st) = Some s ->
  (RollComplete ∉ evs)
  /\ (phase (vars s) = intro \/ phase (vars s) = priceRoll
      \/ phase (vars s) = done)
  /\ (render cfg (vars s) = PlainScreen \/ render cfg (vars s) = Nothing
      \/ render cfg (vars s) = ReducedMotionFade).
Proof.
  intros Hred Hrun.
  destruct (run_reduced evs (initial st) s Hred (initial_consistent cfg st))
    as [Hev Hp]; [|done|].
  { simpl. split; [auto|]. intros t Ht. by apply elem_of_nil in Ht. }
  repeat split; [done|done|].
  unfold render. rewrite Hred.
  destruct (negb (mounted (vars s))); [auto|].
  destruct (negb (shouldAnimate cfg (vars s))); [auto|].
  destruct (bool_decide (phase (vars s) = done)); auto.
Qed.

End SequencerInvariants.

Section SessionExtras.
Import JS Overlay Traces.

(** X22. The overlay plays once per session. When an instance has reached
    [done] on an accessible storage, a later instance of the same session
    without [forceReplay] (whatever its other props) sets no timeout in any
    of its runs and returns [null] once mounted. *)
Theorem plays_once_per_session (cfg cfg' : Config) (m : gmap jsstring jsstring)
    (evs evs' : list Event) (s s' : State) :
  run cfg evs (initial (Items m)) = Some s ->
  phase (vars s) = done ->
  forceReplay cfg' = false ->
  run cfg' evs' (initial (sessionStorage (vars s))) = Some s' ->
  scheduled s' = 0%nat /\ timers s' = []
  /\ (mounted (vars s') = true -> render cfg' (vars s') = Nothing).
Proof.
  intros Hrun Hdone Hforce Hrun'.
  destruct (run_storage_initial cfg (Items m) evs s Hrun) as [[_ Hst] | [Hnd _]];
    [|done].
  rewrite Hst in Hrun'.
  assert (Hinit : scheduled (initial (writeFlag SESSION_KEY (Items m))) = 0%nat
                  /\ timers (initial (writeFlag SESSION_KEY (Items m))) = []
                  /\ phase (vars (initial (writeFlag SESSION_KEY (Items m)))) = intro
                  /\ readFlag SESSION_KEY
                       (sessionStorage (vars (initial (writeFlag SESSION_KEY (Items m)))))
                     = true
                  /\ (mounted (vars (initial (writeFlag SESSION_KEY (Items m)))) = true ->
                      hasRun (vars (initial (writeFlag SESSION_KEY (Items m)))) = true)).
  { repeat split; try done. apply readFlag_written. }
  destruct (run_played cfg' evs' _ _ Hforce Hinit Hrun') as [(Hn & Hts & Hhas) _].
  repeat split; try done. intros Hm.
  unfold render, shouldAnimate. rewrite Hm, Hforce, (Hhas Hm). done.
Qed.

(** X23. When [sessionStorage] throws, the overlay cannot remember that it
    played: the storage stays inaccessible along every run, and a later
    instance animates again, with the intro timeout pending after its
    mount. *)
Theorem inaccessible_storage_replays (cfg cfg' : Config) (evs : list Event)
    (s : State) :
  run cfg evs (initial Inaccessible) = Some s ->
  sessionStorage (vars s) = Inaccessible
  /\ exists s',
       step cfg' Mount (initial (sessionStorage (vars s))) = Some s'
       /\ hasRun (vars s') = false
       /\ shouldAnimate cfg' (vars s') = true
       /\ exists t, t ∈ timers s' /\ callback t = SetPhase priceRoll.
Proof.
  intros Hrun.
  assert (Hst : sessionStorage (vars s) = Inaccessible).
  { by destruct (run_storage_initial cfg Inaccessible evs s Hrun)
      as [[_ ->] | [_ ->]]. }
  split; [done|]. rewrite Hst.
  destruct cfg' as [price force red win].
  assert (Hgo : force || negb (readFlag SESSION_KEY Inaccessible) = true)
    by apply orb_true_r.
  destruct red.
  - eexists. split; [by apply reduced_mount|].
    split; [done|]. split; [exact Hgo|].
    eexists. split; [left|]. done.
  - eexists. split; [by apply full_mount|].
    split; [done|]. split; [exact Hgo|].
    eexists. split; [left|]. done.
Qed.

(** X24. With reduced motion, when the session has not played (or a replay
    is forced), the mount sets two timeouts, the fallback is on screen, and
    the 600 ms timeout ends the overlay: whether or not the intro timeout
    fired first, the phase is [done], nothing is pending, the flag is
    written and the component returns [null]. *)
Theorem reduced_motion_runs_to_done (cfg : Config) (st : Storage) :
  prefersReducedMotion cfg = true ->
  forceReplay cfg = true \/ readFlag SESSION_KEY st = false ->
  exists s1 s,
    step cfg Mount (initial st) = Some s1
    /\ scheduled s1 = 2%nat
    /\ render cfg (vars s1) = ReducedMotionFade
    /\ run cfg [Mount; Fire 1] (initial st) = Some s
    /\ run cfg [Mount; Fire 0; Fire 1] (initial st) = Some s
    /\ phase (vars s) = done /\ timers s = [] /\ scheduled s = 2%nat
    /\ hasRun (vars s) = true
    /\ sessionStorage (vars s) = writeFlag SESSION_KEY st
    /\ render cfg (vars s) = Nothing.
Proof.
  destruct cfg as [price force red win].
  cbn [prefersReducedMotion forceReplay stockPrice].
  intros -> Hgo.
  assert (Hgo' : force || negb (readFlag SESSION_KEY st) = true).
  { destruct Hgo as [-> | ->]; [done | by rewrite orb_true_r]. }
  clear Hgo.
  pose proof (reduced_mount price force win st Hgo') as H1.
  pose proof (reduced_skip price force win st _ Hgo') as H2.
  pose proof (reduced_intro price force win st _ Hgo') as H3.
  pose proof (reduced_skip_late price force win st _ Hgo') as H4.
  eexists _, _. split; [exact H1|]. split; [done|]. split.
  { unfold render, shouldAnimate. cbn [vars mounted hasRun forceReplay phase
      prefersReducedMotion negb andb]. rewrite Hgo'. done. }
  split. { rewrite (run_cons _ _ _ _ _ H1), (run_cons _ _ _ _ _ H2). reflexivity. }
  split. { rewrite (run_cons _ _ _ _ _ H1), (run_cons _ _ _ _ _ H3),
             (run_cons _ _ _ _ _ H4). reflexivity. }
  cbn [timers scheduled vars hasRun sessionStorage phase].
  repeat split. by destruct force.
Qed.

End SessionExtras.

Section SequencerExtrasExamples.
Import JS Overlay Traces Sample Inputs.

(** The default props on a fresh session. *)
Lemma animation_runs_to_done_witness :
  exists s,
    run desktop [Mount; Fire 0; RollComplete; Fire 1; Fire 2; Fire 3; Fire 4]
        (initial freshSession) = Some s
    /\ phasesAlong desktop
         [Mount; Fire 0; RollComplete; Fire 1; Fire 2; Fire 3; Fire 4]
         (initial freshSession)
       = Some [intro; priceRoll; priceRoll; dayChange; fadeText; blocks; done]
    /\ is_Some (Pieces.blocks (computeGrid (window desktop)))
    /\ timers s = [] /\ scheduled s = 5%nat
    /\ hasRun (vars s) = true
    /\ sessionStorage (vars s) = writeFlag SESSION_KEY freshSession
    /\ render desktop (vars s) = Nothing.
Proof.
  apply (animation_runs_to_done desktop freshSession).
  - reflexivity.
  - reflexivity.
  - right. reflexivity.
  - exists 51%N. split; [|reflexivity]. vm_compute. repeat constructor.
Defined.

(** The default props with reduced motion on a fresh session: the mount,
    then the intro timeout. *)
Lemma reduced_motion_skips_phases_witness :
  (RollComplete ∉ [Mount; Fire 0])
  /\ (phase (vars (after calm freshSession [Mount; Fire 0])) = intro
      \/ phase (vars (after calm freshSession [Mount; Fire 0])) = priceRoll
      \/ phase (vars (after calm freshSession [Mount; Fire 0])) = done)
  /\ (render calm (vars (after calm freshSession [Mount; Fire 0])) = PlainScreen
      \/ render calm (vars (after calm freshSession [Mount; Fire 0])) = Nothing
      \/ render calm (vars (after calm freshSession [Mount; Fire 0]))
         = ReducedMotionFade).
Proof.
  apply (reduced_motion_skips_phases calm freshSession [Mount; Fire 0]);
    vm_compute; reflexivity.
Defined.

(** A whole animation on the default props, then a second instance that is
    mounted in the same session. *)
Lemma plays_once_per_session_witness :
  let played :=
    after desktop freshSession
      [Mount; Fire 0; RollComplete; Fire 1; Fire 2; Fire 3; Fire 4] in
  let again := after desktop (sessionStorage (vars played)) [Mount] in
  scheduled again = 0%nat /\ timers again = []
  /\ (mounted (vars again) = true -> render desktop (vars again) = Nothing).
Proof.
  intros played again.
  apply (plays_once_per_session desktop desktop ∅
           [Mount; Fire 0; RollComplete; Fire 1; Fire 2; Fire 3; Fire 4] [Mount]
           played again); vm_compute; reflexivity.
Defined.

(** A whole animation in a browser whose storage throws, then a second
    instance with reduced motion. *)
Lemma inaccessible_storage_replays_witness :
  let played :=
    after desktop Inaccessible
      [Mount; Fire 0; RollComplete; Fire 1; Fire 2; Fire 3; Fire 4] in
  sessionStorage (vars played) = Inaccessible
  /\ exists s',
       step calm Mount (initial (sessionStorage (vars played))) = Some s'
       /\ hasRun (vars s') = false
       /\ shouldAnimate calm (vars s') = true
       /\ exists t, t ∈ timers s' /\ callback t = SetPhase priceRoll.
Proof.
  intros played.
  apply (inaccessible_storage_replays desktop calm
           [Mount; Fire 0; RollComplete; Fire 1; Fire 2; Fire 3; Fire 4] played).
  vm_compute. reflexivity.
Defined.

(** The default props with reduced motion on a fresh session. *)
Lemma reduced_motion_runs_to_done_witness :
  exists s1 s,
    step calm Mount (initial freshSession) = Some s1
    /\ scheduled s1 = 2%nat
    /\ render calm (vars s1) = ReducedMotionFade
    /\ run calm [Mount; Fire 1] (initial freshSession) = Some s
    /\ run calm [Mount; Fire 0; Fire 1] (initial freshSession) = Some s
    /\ phase (vars s) = done /\ timers s = [] /\ scheduled s = 2%nat
    /\ hasRun (vars s) = true
    /\ sessionStorage (vars s) = writeFlag SESSION_KEY freshSession
    /\ render calm (vars s) = Nothing.
Proof.
  apply (reduced_motion_runs_to_done calm freshSession).
  - reflexivity.
  - right. reflexivity.
Defined.

(** A whole animation on the default props: the flag is there at the
    end. *)
Lemma storage_written_at_done_witness :
  let s := after desktop freshSession
             [Mount; Fire 0; RollComplete; Fire 1; Fire 2; Fire 3; Fire 4] in
  sessionStorage (vars s)
  = if bool_decide (phase (vars s) = done)
    then writeFlag SESSION_KEY freshSession else freshSession.
Proof.
  intros s.
  apply (storage_written_at_done desktop freshSession
           [Mount; Fire 0; RollComplete; Fire 1; Fire 2; Fire 3; Fire 4] s).
  vm_compute. reflexivity.
Defined.

End SequencerExtrasExamples.

Section QueryStrings.
Import JS Server Reading.

Variable dirname : jsstring.
Variable double : Type.
Variable doubleToString : Z -> double -> jsstring.
Variable brotliAsync gzipAsync : list Byte.byte -> list Byte.byte.

Local Abbreviation handle :=
  (handler dirname double doubleToString brotliAsync gzipAsync).
Local Abbreviation Node := (Server.Node double).
Local Abbreviation cacheMap := (gmap jsstring (list Byte.byte)).

Lemma queryStripped_plain (u : jsstring) (r i a : option jsstring) :
  CHAR_QUESTION ∉ u -> u <> js "/" ->
  queryStripped {| url := u; range := r; if_none_match := i; accept_encoding := a |}
  = u.
Proof.
  intros Hq Hroot. unfold queryStripped. cbn [url].
  rewrite bool_decide_false by done. by rewrite split_absent.
Qed.

Lemma queryStripped_query (u q : jsstring) (r i a : option jsstring) :
  CHAR_QUESTION ∉ u ->
  queryStripped {| url := u ++ CHAR_QUESTION :: q; range := r; if_none_match := i;
                   accept_encoding := a |}
  = u.
Proof.
  intros Hq. unfold queryStripped. cbn [url].
  rewrite bool_decide_false.
  - by rewrite split_once.
  - intros E. destruct u as [|x [|y u]]; simplify_eq.
Qed.

(** X25. The query string is ignored. A URL other than [/] with no question
    mark, followed by a question mark and anything, is answered exactly as
    the URL alone: same response, same file operations, same cache. *)
Theorem query_string_ignored (c : cacheMap) (fs : gmap jsstring Node)
    (u q : jsstring) (r i a : option jsstring) :
  CHAR_QUESTION ∉ u -> u <> js "/" ->
  handle c fs {| url := u ++ CHAR_QUESTION :: q; range := r; if_none_match := i;
                 accept_encoding := a |}
  = handle c fs {| url := u; range := r; if_none_match := i; accept_encoding := a |}.
Proof.
  intros Hq Hroot. unfold handler.
  rewrite (queryStripped_query u q r i a Hq), (queryStripped_plain u r i a Hq Hroot).
  reflexivity.
Qed.

(** X26. The root with a query string is not the index page. [/] is
    rewritten to [/index.html] before the query string is dropped, so
    [/?...] is looked up as the served directory itself: [stat] succeeds,
    [readFile] fails, and the answer is 404. *)
Theorem root_with_query_not_found (c : cacheMap) (fs : gmap jsstring Node)
    (q : jsstring) (r i a : option jsstring) (st : Stats double) :
  fs !! Path.join dirname (js "/") = Some (Directory double st) ->
  Path.extname (Path.join dirname (js "/")) ∉ STREAMABLE ->
  queryStripped {| url := js "/"; range := r; if_none_match := i;
                   accept_encoding := a |} = js "/index.html"
  /\ handle c fs {| url := js "/" ++ CHAR_QUESTION :: q; range := r;
                    if_none_match := i; accept_encoding := a |}
     = {| response := Some notFound;
          fs_ops := [OpStat (Path.join dirname (js "/"));
                     OpReadFile (Path.join dirname (js "/"))];
          cache := c |}.
Proof.
  intros Hfs Hext. split; [reflexivity|]. unfold handler.
  rewrite (queryStripped_query (js "/") q r i a).
  2:{ vm_compute. intros H. inversion H as [|? ? ? H']; subst. inversion H'. }
  change (decodeURIComponent (js "/")) with (Some (js "/")).
  change (includes (js "..") (js "/")) with false. cbv iota.
  rewrite Hfs. cbv zeta. by rewrite bool_decide_false.
Qed.

End QueryStrings.

Section AfterUnmount.
Import JS Overlay.

Variable cfg : Config.




End AfterUnmount.

Section FurtherExamples.
Import JS Server Overlay Sample Inputs.

(** The page with a query string. *)
Lemma query_string_ignored_witness :
  siteHandler site (get (js "/index.html" ++ CHAR_QUESTION :: js "v=2"))
  = siteHandler site (get (js "/index.html")).
Proof.
  apply (query_string_ignored siteDir Z renderInteger id id ∅ site
           (js "/index.html") (js "v=2") None None None).
  - apply (bool_decide_unpack _). vm_compute. exact I.
  - discriminate.
Defined.


(** The root of the site with a query string. *)
Lemma root_with_query_not_found_witness :
  queryStripped (get (js "/")) = js "/index.html"
  /\ siteHandler siteWithRoot (get (js "/" ++ CHAR_QUESTION :: js "v=2"))
     = {| response := Some notFound;
          fs_ops := [OpStat (Path.join siteDir (js "/"));
                     OpReadFile (Path.join siteDir (js "/"))];
          cache := ∅ |}.
Proof.
  apply (root_with_query_not_found siteDir Z renderInteger id id ∅ siteWithRoot
           (js "v=2") None None None pageStats).
  - vm_compute. reflexivity.
  - vm_compute. intros H. discriminate H.
Defined.

End FurtherExamples.
